(** * Projects mapping: data loading, graph building, filters and selection

    A shallow embedding of the project-network visualisation.  Two revisions
    of the application are embedded side by side:

    - [Main]: [src/main.js], the base revision (detail panel, no click state);
    - [Rev0]: [src/unnamed/part_000], the most developed revision (popup,
      click/hover selection, field-filter toggles, photo-link rewriting).

    The handlers of the two revisions that act on the page (filter panel,
    hover, click, reset) are in [MainUi] and [Rev0Ui], the background
    columns of the developed revision in [Rev0Layout].

    JavaScript strings are modelled by [string] (sequences of 8-bit
    characters, read as ASCII); [undefined] column values by [None];
    [Set]s and [Map]s keyed by strings by stdpp's [gset] and [gmap];
    numbers by exact rationals extended with [NaN] and the infinities
    (ECMAScript doubles are idealised: no rounding). *)

From Stdlib Require Import QArith Ascii Lqa.
From stdpp Require Import gmap strings list fin_maps sorting.

(** ** String methods of the host language *)

Module JsString.

(** [String.prototype.includes]. *)
Fixpoint includes (s sub : string) : bool :=
  String.prefix sub s ||
  match s with
  | EmptyString => false
  | String _ s' => includes s' sub
  end.

(** Characters removed by [trim] (the ASCII part of WhiteSpace and
    LineTerminator). *)
Definition is_white (c : ascii) : bool := Ascii.is_space c.

Fixpoint trimStart (s : string) : string :=
  match s with
  | EmptyString => EmptyString
  | String c s' => if is_white c then trimStart s' else s
  end.

Fixpoint trimEnd (s : string) : string :=
  match s with
  | EmptyString => EmptyString
  | String c s' =>
      match trimEnd s' with
      | EmptyString => if is_white c then EmptyString else String c EmptyString
      | r => String c r
      end
  end.

(** [String.prototype.trim]. *)
Definition trim (s : string) : string := trimEnd (trimStart s).

Definition lower_char (c : ascii) : ascii :=
  let n := nat_of_ascii c in
  if (65 <=? n)%nat && (n <=? 90)%nat then ascii_of_nat (n + 32) else c.

(** [String.prototype.toLowerCase]. *)
Fixpoint toLowerCase (s : string) : string :=
  match s with
  | EmptyString => EmptyString
  | String c s' => String (lower_char c) (toLowerCase s')
  end.

(** [split_go sep skip cur s] scans [s] from the left; [cur] is the piece
    being collected and [skip] the number of characters of a separator just
    matched that are still to be passed over. *)
Fixpoint split_go (sep : string) (skip : nat) (cur s : string) : list string :=
  match s with
  | EmptyString => [cur]
  | String c s' =>
      match skip with
      | S k => split_go sep k cur s'
      | O =>
          if String.prefix sep s
          then cur :: split_go sep (String.length sep - 1) EmptyString s'
          else split_go sep 0 (cur +:+ String c EmptyString) s'
      end
  end.

Fixpoint chars (s : string) : list string :=
  match s with
  | EmptyString => []
  | String c s' => String c EmptyString :: chars s'
  end.

(** [String.prototype.split] with a string separator and no limit. *)
Definition split (s sep : string) : list string :=
  match sep with
  | EmptyString => chars s
  | _ => split_go sep 0 EmptyString s
  end.

(** [Array.prototype.join] on an array of strings. *)
Fixpoint join (l : list string) (sep : string) : string :=
  match l with
  | [] => EmptyString
  | [x] => x
  | x :: l' => x +:+ sep +:+ join l' sep
  end.

(** [Array.prototype.sort] with the default comparator on an array of two
    strings: the elements are exchanged exactly when the second is strictly
    smaller than the first in code-unit order. *)
Definition sort2 (a b : string) : list string :=
  if String.ltb b a then [b; a] else [a; b].

(** Truthiness of a string value that may be [undefined]. *)
Definition truthy (v : option string) : bool :=
  match v with
  | Some (String _ _) => true
  | _ => false
  end.

(** [v || d] for a string-or-undefined [v] and a string [d]. *)
Definition or_default (v : option string) (d : string) : string :=
  match v with
  | Some (String c s) => String c s
  | _ => d
  end.

End JsString.

(** ** Numbers of the host language *)

Module JsNumber.

(** A number value: not-a-number, a finite value, or an infinity. *)
Inductive number :=
| NaN
| Num (q : Q)
| Infinity (negative : bool).

(** Reads a maximal run of decimal digits, accumulating its value and
    counting the digits read. *)
Fixpoint digits (acc : Z) (count : nat) (s : string) : Z * nat * string :=
  match s with
  | String c s' =>
      match Ascii.is_nat c with
      | Some d => digits (10 * acc + Z.of_nat d) (S count) s'
      | None => (acc, count, s)
      end
  | EmptyString => (acc, count, s)
  end.

Definition strip_sign (s : string) : bool * string :=
  match s with
  | String "+"%char s' => (false, s')
  | String "-"%char s' => (true, s')
  | _ => (false, s)
  end.

(** The exponent part, read only when at least one digit follows the
    letter and the optional sign. *)
Definition exponent (s : string) : Z :=
  match s with
  | String c s' =>
      if bool_decide (c = "e"%char ∨ c = "E"%char) then
        let '(neg, s'') := strip_sign s' in
        let '(v, k, _) := digits 0 0 s'' in
        match k with
        | O => 0%Z
        | S _ => if neg then (- v)%Z else v
        end
      else 0%Z
  | EmptyString => 0%Z
  end.

(** The global [parseFloat]: leading white space is skipped, the longest
    prefix that is a decimal literal is read, and [NaN] results when there
    is none.  An [undefined] argument is first converted to the string
    ["undefined"]. *)
Definition parseFloat (input : option string) : number :=
  let s := JsString.trimStart (default "undefined" input) in
  let '(neg, s1) := strip_sign s in
  if String.prefix "Infinity" s1 then Infinity neg else
  let '(ip, ni, s2) := digits 0 0 s1 in
  let '(mant, nf, s3) :=
    match s2 with
    | String "."%char s2' => digits ip 0 s2'
    | _ => (ip, O, s2)
    end in
  match (ni + nf)%nat with
  | O => NaN
  | S _ =>
      let v := (inject_Z mant * Qpower 10 (exponent s3 - Z.of_nat nf))%Q in
      Num (if neg then (- v)%Q else v)
  end.

(** [v || d] on numbers: [NaN] and zero are falsy. *)
Definition or_default (v d : number) : number :=
  match v with
  | NaN => d
  | Num q => if Qeq_bool q 0 then d else v
  | Infinity _ => v
  end.

End JsNumber.

(** ** Data model *)

(** A row delivered by the CSV reader: every column of the header is a
    string, a column the header lacks reads as [undefined].  The identity
    column [project name] is taken to be present. *)
Record Row := {
  row_project_name : string;
  row_type : option string;
  row_fields : option string;
  row_schedule : option string;
  row_connected_projects : option string;
  row_color : option string;
  row_scale : option string;
  row_description : option string;
  row_previous_event : option string;
  row_photo_link : option string
}.

Module Node.
Record t := {
  id : string;
  name : string;
  type : string;
  fields : list string;
  schedule : list string;
  color : string;
  scale : JsNumber.number;
  description : string;
  previousEvent : string;
  photoLink : string;
  connectedProjects : list string
}.
End Node.

Record Link := { source : string; target : string }.

Record Data := { nodes : list Node.t; links : list Link }.

Global Instance Link_eq_dec : EqDecision Link.
Proof. solve_decision. Defined.

(** ** Graph builder (identical in both revisions) *)

(** The expression [v ? v.split(',').map(x => x.trim()).filter(x => x.length > 0) : []]
    that [normalizeData] applies to the three multi-valued columns. *)
Definition splitColumn (v : option string) : list string :=
  match v with
  | Some (String c s) =>
      List.filter (fun x => (0 <? String.length x)%nat)
        (map JsString.trim (JsString.split (String c s) ","))
  | _ => []
  end.

(** [[a, b].sort().join('|')] *)
Definition linkId (a b : string) : string :=
  JsString.join (JsString.sort2 a b) "|".

(** One turn of the inner [forEach] over [node.connectedProjects]: the state
    is the pair of [linkSet] and [links]. *)
Definition addLink (projectMap : gmap string Node.t) (node : Node.t)
    (acc : gset string * list Link) (connectedName : string)
    : gset string * list Link :=
  match projectMap !! connectedName with
  | Some targetNode =>
      if bool_decide (Node.id targetNode ≠ Node.id node) then
        let k := linkId (Node.id node) (Node.id targetNode) in
        if bool_decide (k ∈ acc.1) then acc
        else ({[ k ]} ∪ acc.1,
              acc.2 ++ [ {| source := Node.id node; target := Node.id targetNode |} ])
      else acc
  | None => acc
  end.

Definition addLinksOf (projectMap : gmap string Node.t)
    (acc : gset string * list Link) (node : Node.t) : gset string * list Link :=
  foldl (addLink projectMap node) acc (Node.connectedProjects node).

(** [projectMap.set(node.id, node)] for every node, in row order. *)
Definition buildProjectMap (ns : list Node.t) : gmap string Node.t :=
  foldl (fun m n => <[ Node.id n := n ]> m) ∅ ns.

Definition buildLinks (ns : list Node.t) : list Link :=
  (foldl (addLinksOf (buildProjectMap ns)) (∅, []) ns).2.

(** ** Base revision: [src/main.js] *)

Module Main.

Definition nodeOfRow (row : Row) : Node.t :=
  {| Node.id := row_project_name row;
     Node.name := row_project_name row;
     Node.type := JsString.or_default (row_type row) "";
     Node.fields := splitColumn (row_fields row);
     Node.schedule := splitColumn (row_schedule row);
     Node.color := JsString.or_default (row_color row) "#E673C8";
     Node.scale := JsNumber.or_default (JsNumber.parseFloat (row_scale row)) (JsNumber.Num 1);
     Node.description := JsString.or_default (row_description row) "";
     Node.previousEvent := JsString.or_default (row_previous_event row) "";
     Node.photoLink := JsString.or_default (row_photo_link row) "";
     Node.connectedProjects := splitColumn (row_connected_projects row) |}.

Definition normalizeData (csvData : list Row) : Data :=
  let ns := map nodeOfRow csvData in
  {| nodes := ns; links := buildLinks ns |}.

(** *** Layout driver *)

Definition SCHEDULE_ORDER : list string := ["Winter"; "Spring"; "Summer"; "Fall"].

(** A point scale of the layout library ([d3.scalePoint]), as its
    documentation and source define it: a band scale of inner padding 1
    whose bands have width zero, with [align] at its default 0.5 and no
    rounding.  A value outside the domain maps to [undefined]. *)
Record PointScale := {
  domain : list string;
  range : Q * Q;
  padding : Q
}.

Fixpoint indexOf (x : string) (l : list string) : option nat :=
  match l with
  | [] => None
  | y :: l' => if bool_decide (x = y) then Some O else S <$> indexOf x l'
  end.

Definition Qmax1 (q : Q) : Q := if Qle_bool 1 q then q else 1%Q.

Definition reversed (sc : PointScale) : bool :=
  negb (Qle_bool (range sc).1 (range sc).2).

Definition scaleLo (sc : PointScale) : Q :=
  if reversed sc then (range sc).2 else (range sc).1.

Definition scaleHi (sc : PointScale) : Q :=
  if reversed sc then (range sc).1 else (range sc).2.

Definition scaleStep (sc : PointScale) : Q :=
  let n := inject_Z (Z.of_nat (length (domain sc))) in
  ((scaleHi sc - scaleLo sc) / Qmax1 (n - 1 + padding sc * 2))%Q.

Definition scaleStart (sc : PointScale) : Q :=
  let n := inject_Z (Z.of_nat (length (domain sc))) in
  (scaleLo sc + (scaleHi sc - scaleLo sc - scaleStep sc * (n - 1)) * (1 # 2))%Q.

(** [scale(x)]: the position of [x], or [None] for [undefined]. *)
Definition scaleAt (sc : PointScale) (x : string) : option Q :=
  match indexOf x (domain sc) with
  | None => None
  | Some i =>
      let n := length (domain sc) in
      let k := if reversed sc then (n - 1 - i)%nat else i in
      Some (scaleStart sc + scaleStep sc * inject_Z (Z.of_nat k))%Q
  end.

Definition createScheduleScale (width : Q) : PointScale :=
  {| domain := SCHEDULE_ORDER;
     range := ((width * (15 # 100))%Q, (width * (85 # 100))%Q);
     padding := 1 # 2 |}.

(** [v || d] where [v] is a number or [undefined]. *)
Definition orElse (v : option Q) (d : Q) : Q :=
  match v with
  | Some q => if Qeq_bool q 0 then d else q
  | None => d
  end.

Definition getNodeXPosition (node : Node.t) (scheduleScale : PointScale) : Q :=
  match Node.schedule node with
  | [] => ((range scheduleScale).2 / 2)%Q
  | firstSchedule :: _ =>
      orElse (scaleAt scheduleScale firstSchedule) ((range scheduleScale).2 / 2)%Q
  end.

(** *** Filter engine *)

(** A node circle with its [opacity] attribute, [None] while it is unset. *)
Record NodeElement := { datum : Node.t; opacity : option Q }.

(** The module-level filter variables together with the selection of node
    circles; [None] is the initial [null] of [nodeElements]. *)

Record State := {
  selectedTypes : gset string;
  selectedFields : gset string;
  searchQuery : string;
  nodeElements : option (list NodeElement)
}.

(** The callback handed to [nodeElements.attr('opacity', ...)]. *)
Definition filterOpacity (st : State) (d : Node.t) : Q :=
  if bool_decide (0 < size (selectedTypes st))%nat
     && negb (bool_decide (Node.type d ∈ selectedTypes st))
  then (2 # 10)%Q
  else
    if bool_decide (0 < size (selectedFields st))%nat
       && negb (existsb (fun field => bool_decide (field ∈ selectedFields st))
                  (Node.fields d))
    then (2 # 10)%Q
    else
      if JsString.truthy (Some (searchQuery st))
         && negb (JsString.includes (JsString.toLowerCase (Node.name d))
                    (JsString.toLowerCase (searchQuery st)))
      then (2 # 10)%Q
      else 1%Q.

Definition applyFilters (st : State) : State :=
  match nodeElements st with
  | None => st
  | Some els =>
      {| selectedTypes := selectedTypes st;
         selectedFields := selectedFields st;
         searchQuery := searchQuery st;
         nodeElements :=
           Some (map (fun e => {| datum := datum e;
                                  opacity := Some (filterOpacity st (datum e)) |}) els) |}
  end.

(** *** Start-up *)

(** What the start-up sequence does to the outside, in order. *)
Inductive Effect (E : Type) :=
| ConsoleError (msg : string) (detail : option E)
| InitVisualization (data : Data)
| BuildFilters
| AddEventListener (target event : string).
Arguments ConsoleError {E}.
Arguments InitVisualization {E}.
Arguments BuildFilters {E}.
Arguments AddEventListener {E}.

(** A computation that logs effects and either returns or throws. *)
Definition Run (E A : Type) : Type := list (Effect E) * (E + A).

Definition ret {E A} (a : A) : Run E A := ([], inr a).
Definition throw {E A} (e : E) : Run E A := ([], inl e).
Definition emit {E} (x : Effect E) : Run E unit := ([x], inr tt).
Definition bind {E A B} (m : Run E A) (k : A -> Run E B) : Run E B :=
  match m.2 with
  | inl e => (m.1, inl e)
  | inr a => ((m.1 ++ (k a).1), (k a).2)
  end.
Definition tryCatch {E A} (m : Run E A) (handler : E -> Run E A) : Run E A :=
  match m.2 with
  | inl e => ((m.1 ++ (handler e).1), (handler e).2)
  | inr a => m
  end.

Notation "x <- m ;; k" := (bind m (fun x => k))
  (at level 100, m at next level, right associativity).
Notation "m ;;; k" := (bind m (fun _ => k))
  (at level 100, right associativity).

(** The awaited [d3.csv(...)]: the promise either rejects with an error or
    resolves to the rows. *)
Definition awaitCsv {E} (outcome : E + list Row) : Run E (list Row) :=
  ([], outcome).

Definition loadData {E} (csv : E + list Row) : Run E Data :=
  tryCatch
    (data <- awaitCsv csv ;;
     ret (normalizeData data))
    (fun error =>
       emit (ConsoleError "Error loading CSV:" (Some error)) ;;;
       ret {| nodes := []; links := [] |}).

Definition init {E} (csv : E + list Row) : Run E unit :=
  data <- loadData csv ;;
  if (length (nodes data) =? 0)%nat then
    emit (ConsoleError "No data loaded" None) ;;;
    ret tt
  else
    emit (InitVisualization data) ;;;
    emit BuildFilters ;;;
    emit (AddEventListener "search-input" "input") ;;;
    emit (AddEventListener "reset-filters" "click") ;;;
    emit (AddEventListener "close-panel" "click") ;;;
    emit (AddEventListener "window" "resize").

End Main.

(** ** Developed revision: [src/unnamed/part_000] *)

Module Rev0.

(** *** Data loader *)

(** The value given to [photoLink] for a row whose [photo link] column
    reads [v]: a Drive share link is rewritten to a thumbnail address. *)
Definition photoLink (v : option string) : string :=
  let photoLink := JsString.or_default v "" in
  if JsString.truthy (Some photoLink)
     && negb (String.eqb (JsString.trim photoLink) "")
  then
    if JsString.includes photoLink "drive.google.com"
       && JsString.includes photoLink "/d/"
    then
      let parts := JsString.split photoLink "/d/" in
      if (1 <? length parts)%nat then
        let fileId :=
          hd "" (JsString.split (hd "" (JsString.split (nth 1 parts "") "/")) "?") in
        "https://drive.google.com/thumbnail?id=" +:+ fileId +:+ "&sz=w1000"
      else photoLink
    else photoLink
  else photoLink.

Definition nodeOfRow (row : Row) : Node.t :=
  {| Node.id := row_project_name row;
     Node.name := row_project_name row;
     Node.type := JsString.or_default (row_type row) "";
     Node.fields := splitColumn (row_fields row);
     Node.schedule := splitColumn (row_schedule row);
     Node.color := JsString.or_default (row_color row) "#E673C8";
     Node.scale := JsNumber.or_default (JsNumber.parseFloat (row_scale row)) (JsNumber.Num 1);
     Node.description := JsString.or_default (row_description row) "";
     Node.previousEvent := JsString.or_default (row_previous_event row) "";
     Node.photoLink := photoLink (row_photo_link row);
     Node.connectedProjects := splitColumn (row_connected_projects row) |}.

Definition normalizeData (csvData : list Row) : Data :=
  let ns := map nodeOfRow csvData in
  {| nodes := ns; links := buildLinks ns |}.

(** *** Application state *)

(** A node group (circle, image and label) with its [opacity] attribute,
    and a link line with its [highlighted] class and [stroke-opacity]. *)
Record NodeGroup := { datum : Node.t; opacity : option Q }.

Record LinkElement := {
  link : Link;
  highlighted : bool;
  strokeOpacity : option Q
}.

(** What [showPopup] writes into the popup, piece by piece. *)
Record PopupContent := {
  popupPhoto : option string;
  popupName : string;
  popupType : string;
  popupDescription : option string;
  popupTags : list (string * bool);
  popupButton : option string
}.

(** The popup element: whether it is displayed ([block]) or not ([none]),
    and its content.  Its screen position follows the simulated position
    of the node and is left out. *)
Record Popup := { displayed : bool; innerHTML : option PopupContent }.

Record State := {
  selectedTypes : gset string;
  selectedFields : gset string;
  fieldFilterElements : gmap string bool;
  searchQuery : string;
  clickedNode : option Node.t;
  hoveredNode : option Node.t;
  nodeGroups : option (list NodeGroup);
  linkElements : option (list LinkElement);
  popup : Popup
}.

(** *** Popup *)

Fixpoint replaceChar (c : ascii) (by_ : string) (s : string) : string :=
  match s with
  | EmptyString => EmptyString
  | String x s' =>
      (if bool_decide (x = c) then by_ else String x EmptyString)
      +:+ replaceChar c by_ s'
  end.

Definition escapeHtml (str : string) : string :=
  replaceChar "'"%char "&#39;"
    (replaceChar "034"%char "&quot;"
       (replaceChar ">"%char "&gt;"
          (replaceChar "<"%char "&lt;"
             (replaceChar "&"%char "&amp;" str)))).

Definition nonBlank (s : string) : bool :=
  JsString.truthy (Some s) && negb (String.eqb (JsString.trim s) "").

Definition popupContentOf (st : State) (node : Node.t) : PopupContent :=
  {| popupPhoto :=
       if nonBlank (Node.photoLink node) then Some (Node.photoLink node) else None;
     popupName := Node.name node;
     popupType :=
       match Node.schedule node with
       | String c s :: _ => Node.type node +:+ " | " +:+ String c s
       | _ => Node.type node
       end;
     popupDescription :=
       if nonBlank (Node.description node) then Some (Node.description node) else None;
     popupTags :=
       map (fun field => (escapeHtml field, bool_decide (field ∈ selectedFields st)))
         (Node.fields node);
     popupButton :=
       if nonBlank (Node.previousEvent node) then Some (Node.previousEvent node) else None |}.

Definition withPopup (st : State) (p : Popup) : State :=
  {| selectedTypes := selectedTypes st; selectedFields := selectedFields st;
     fieldFilterElements := fieldFilterElements st; searchQuery := searchQuery st;
     clickedNode := clickedNode st; hoveredNode := hoveredNode st;
     nodeGroups := nodeGroups st; linkElements := linkElements st;
     popup := p |}.

Definition showPopup (node : Node.t) (st : State) : State :=
  withPopup st {| displayed := true; innerHTML := Some (popupContentOf st node) |}.

Definition hidePopup (st : State) : State :=
  withPopup st {| displayed := false; innerHTML := innerHTML (popup st) |}.

(** *** Selection *)

(** [map.get(k) || 1] on a map of opacities. *)
Definition getOr1 (m : gmap string Q) (k : string) : Q :=
  match m !! k with
  | Some q => if Qeq_bool q 0 then 1%Q else q
  | None => 1%Q
  end.

Definition Qmin2 (a b : Q) : Q := if Qle_bool a b then a else b.

(** The ids gathered by [linkElements.each] into [connectedIds]. *)
Definition connectedIdsOf (d : Node.t) (ls : list LinkElement) : gset string :=
  foldl (fun acc l =>
           let acc1 := if bool_decide (source (link l) = Node.id d)
                       then {[ target (link l) ]} ∪ acc else acc in
           if bool_decide (target (link l) = Node.id d)
           then {[ source (link l) ]} ∪ acc1 else acc1)
        {[ Node.id d ]} ls.

(** [nodeOpacityMap] as filled by [nodeGroups.each]; [perNode] is the
    opacity chosen for one node. *)
Definition opacityMapOf (perNode : Node.t -> Q) (gs : list NodeGroup) : gmap string Q :=
  foldl (fun m n => <[ Node.id (datum n) := perNode (datum n) ]> m) ∅ gs.

Definition setNodeOpacities (m : gmap string Q) (gs : list NodeGroup) : list NodeGroup :=
  map (fun n => {| datum := datum n;
                   opacity := Some (getOr1 m (Node.id (datum n))) |}) gs.

(** Link styling shared by hover and click: links touching [d] are
    highlighted and opaque, the others take the smaller endpoint opacity. *)
Definition highlightLinks (d : Node.t) (m : gmap string Q) (ls : list LinkElement)
    : list LinkElement :=
  map (fun l =>
         let isConnected :=
           bool_decide (source (link l) = Node.id d)
           || bool_decide (target (link l) = Node.id d) in
         {| link := link l;
            highlighted := isConnected;
            strokeOpacity :=
              Some (if isConnected then 1%Q
                    else Qmin2 (getOr1 m (source (link l)))
                               (getOr1 m (target (link l)))) |}) ls.

Definition hoverOpacity (d : Node.t) (connectedIds : gset string) (n : Node.t) : Q :=
  if bool_decide (Node.id n = Node.id d) then 1%Q
  else if bool_decide (Node.id n ∈ connectedIds) then 1%Q
  else if bool_decide (Node.type n = Node.type d) then 1%Q
  else (15 # 100)%Q.

Definition clickOpacity (d : Node.t) (connectedIds : gset string) (n : Node.t) : Q :=
  if bool_decide (Node.id n = Node.id d) then 1%Q
  else if bool_decide (Node.id n ∈ connectedIds) then 1%Q
  else (15 # 100)%Q.

(** [clickedNode && clickedNode.id !== d.id] *)
Definition clickedElsewhere (st : State) (d : Node.t) : bool :=
  match clickedNode st with
  | Some c => bool_decide (Node.id c ≠ Node.id d)
  | None => false
  end.

(** [!clickedNode || clickedNode.id === d.id] *)
Definition showsOnHover (st : State) (d : Node.t) : bool :=
  match clickedNode st with
  | Some c => bool_decide (Node.id c = Node.id d)
  | None => true
  end.

(** The handlers are attached to the node groups when the graph is drawn,
    so both selections exist whenever they run; [default []] stands for
    that and is never reached with [None]. *)
Definition handleNodeHover (d : Node.t) (st : State) : State :=
  if clickedElsewhere st d then st
  else
    let connectedIds := connectedIdsOf d (default [] (linkElements st)) in
    let nodeOpacityMap :=
      opacityMapOf (hoverOpacity d connectedIds) (default [] (nodeGroups st)) in
    let st1 :=
      {| selectedTypes := selectedTypes st; selectedFields := selectedFields st;
         fieldFilterElements := fieldFilterElements st; searchQuery := searchQuery st;
         clickedNode := clickedNode st;
         hoveredNode := Some d;
         nodeGroups := setNodeOpacities nodeOpacityMap <$> nodeGroups st;
         linkElements := highlightLinks d nodeOpacityMap <$> linkElements st;
         popup := popup st |} in
    if showsOnHover st d then showPopup d st1 else st1.

Definition handleNodeClick (d : Node.t) (st : State) : State :=
  let connectedIds := connectedIdsOf d (default [] (linkElements st)) in
  let nodeOpacityMap :=
    opacityMapOf (clickOpacity d connectedIds) (default [] (nodeGroups st)) in
  showPopup d
    {| selectedTypes := selectedTypes st; selectedFields := selectedFields st;
       fieldFilterElements := fieldFilterElements st; searchQuery := searchQuery st;
       clickedNode := Some d;
       hoveredNode := hoveredNode st;
       nodeGroups := setNodeOpacities nodeOpacityMap <$> nodeGroups st;
       linkElements := highlightLinks d nodeOpacityMap <$> linkElements st;
       popup := popup st |}.

(** *** Filter engine *)

(** The opacity [applyFilters] computes for the node [d] before storing it
    in [nodeOpacityMap]. *)
Definition filterOpacity (st : State) (d : Node.t) : Q :=
  if bool_decide (0 < size (selectedTypes st))%nat
     && negb (bool_decide (Node.type d ∈ selectedTypes st))
  then (15 # 100)%Q
  else if bool_decide (0 < size (selectedFields st))%nat then
    if negb (existsb (fun field => bool_decide (field ∈ selectedFields st))
               (Node.fields d))
    then (15 # 100)%Q
    else 1%Q
  else if JsString.truthy (Some (searchQuery st))
          && negb (JsString.includes (JsString.toLowerCase (Node.name d))
                     (JsString.toLowerCase (searchQuery st)))
  then (15 # 100)%Q
  else 1%Q.

Definition filterLinks (m : gmap string Q) (ls : list LinkElement) : list LinkElement :=
  map (fun l =>
         {| link := link l;
            highlighted := highlighted l;
            strokeOpacity :=
              Some (Qmin2 (getOr1 m (source (link l))) (getOr1 m (target (link l)))) |})
      ls.

Definition applyFilters (st : State) : State :=
  match nodeGroups st, linkElements st with
  | Some gs, Some ls =>
      let nodeOpacityMap := opacityMapOf (filterOpacity st) gs in
      {| selectedTypes := selectedTypes st; selectedFields := selectedFields st;
         fieldFilterElements := fieldFilterElements st; searchQuery := searchQuery st;
         clickedNode := clickedNode st; hoveredNode := hoveredNode st;
         nodeGroups := Some (setNodeOpacities nodeOpacityMap gs);
         linkElements := Some (filterLinks nodeOpacityMap ls);
         popup := popup st |}
  | _, _ => st
  end.

(** [setFieldFilterState(field, shouldBeActive, { apply })] *)
Definition setFieldFilterState (field : string) (shouldBeActive : bool)
    (apply : bool) (st : State) : State :=
  let st1 :=
    {| selectedTypes := selectedTypes st;
       selectedFields :=
         if shouldBeActive then {[ field ]} ∪ selectedFields st
         else selectedFields st ∖ {[ field ]};
       fieldFilterElements :=
         match fieldFilterElements st !! field with
         | Some _ => <[ field := shouldBeActive ]> (fieldFilterElements st)
         | None => fieldFilterElements st
         end;
       searchQuery := searchQuery st;
       clickedNode := clickedNode st; hoveredNode := hoveredNode st;
       nodeGroups := nodeGroups st; linkElements := linkElements st;
       popup := popup st |} in
  if apply then applyFilters st1 else st1.

Definition toggleFieldFilter (field : string) (st : State) : State :=
  let shouldBecomeActive := negb (bool_decide (field ∈ selectedFields st)) in
  setFieldFilterState field shouldBecomeActive true st.

End Rev0.

(** ** Notions used by the statements *)

(** [sub] occurs in [s]. *)
Definition isSubstring (sub s : string) : Prop :=
  ∃ pre post, s = pre +:+ sub +:+ post.

(** The edge [e] joins [a] and [b], in either direction. *)
Definition joins (a b : string) (e : Link) : Prop :=
  (source e = a ∧ target e = b) ∨ (source e = b ∧ target e = a).

(** The midpoint of the range of a point scale. *)
Definition rangeMidpoint (sc : Main.PointScale) : Q :=
  (((Main.range sc).1 + (Main.range sc).2) / 2)%Q.

(** The three conditions of the filter's priority chain, as the
    specification words them. *)
Section PriorityChain.
Variables (types fields : gset string) (query : string) (d : Node.t).

Definition typeExcluded : Prop := types ≠ ∅ ∧ Node.type d ∉ types.

Definition fieldsExcluded : Prop :=
  fields ≠ ∅ ∧ ∀ f, f ∈ Node.fields d → f ∉ fields.

Definition searchExcluded : Prop :=
  query ≠ "" ∧
  ¬ isSubstring (JsString.toLowerCase query) (JsString.toLowerCase (Node.name d)).

(** A node is dimmed by the chain exactly when one of the three
    conditions holds (the first that holds decides). *)
Definition dimmedByChain : Prop :=
  typeExcluded ∨ (¬ typeExcluded ∧ fieldsExcluded)
  ∨ (¬ typeExcluded ∧ ¬ fieldsExcluded ∧ searchExcluded).
End PriorityChain.

(** The photo-link rule in the words of the specification: the text after
    the first ["/d/"], cut at the next ["/"] or ["?"], becomes the file
    identifier of a thumbnail address. *)
Module PhotoSpec.

Fixpoint drop (n : nat) (s : string) : string :=
  match n, s with
  | S k, String _ s' => drop k s'
  | _, _ => s
  end.

Fixpoint afterFirst (sep s : string) : string :=
  if String.prefix sep s then drop (String.length sep) s
  else match s with
       | EmptyString => EmptyString
       | String _ s' => afterFirst sep s'
       end.

Fixpoint upTo (stop : ascii -> bool) (s : string) : string :=
  match s with
  | EmptyString => EmptyString
  | String c s' => if stop c then EmptyString else String c (upTo stop s')
  end.

Definition isSlashOrQuery (c : ascii) : bool :=
  bool_decide (c = "/"%char) || bool_decide (c = "?"%char).

Definition thumbnail (fileId : string) : string :=
  "https://drive.google.com/thumbnail?id=" +:+ fileId +:+ "&sz=w1000".

Definition normalized (v : option string) : string :=
  match v with
  | None => ""
  | Some s =>
      if JsString.includes s "drive.google.com" && JsString.includes s "/d/"
      then thumbnail (upTo isSlashOrQuery (afterFirst "/d/" s))
      else s
  end.

End PhotoSpec.

(** ** Sample data *)

Definition mkRow (nm ty fs conn : string) : Row :=
  {| row_project_name := nm; row_type := Some ty; row_fields := Some fs;
     row_schedule := Some ""; row_connected_projects := Some conn;
     row_color := Some ""; row_scale := Some ""; row_description := Some "";
     row_previous_event := Some ""; row_photo_link := Some "" |}.

(** The three-node dataset of the specification's example. *)
Definition threeNodes : list Row :=
  [ mkRow "A" "Art" "paint,sculpture" "B";
    mkRow "B" "Music" "paint" "A,C";
    mkRow "C" "Music" "dance" "" ].

(** Four projects whose names contain the character that [linkId] uses as
    its separator. *)
Definition barNames : list Row :=
  [ mkRow "a" "Art" "" "b|c";
    mkRow "b|c" "Art" "" "";
    mkRow "a|b" "Art" "" "c";
    mkRow "c" "Art" "" "" ].

(** The state of the base revision once the circles of [ns] are drawn. *)
Definition mainState (types fields : gset string) (query : string)
    (ns : list Node.t) : Main.State :=
  {| Main.selectedTypes := types; Main.selectedFields := fields;
     Main.searchQuery := query;
     Main.nodeElements :=
       Some (map (fun n => {| Main.datum := n; Main.opacity := None |}) ns) |}.

(** The opacity attribute of every circle, by node id. *)
Definition mainOpacities (st : Main.State) : option (list (string * option Q)) :=
  map (fun e => (Node.id (Main.datum e), Main.opacity e)) <$> Main.nodeElements st.

(** The state of the developed revision once the graph [data] is drawn:
    every link has the stroke opacity 0.6 and no node opacity is set. *)
Definition rev0State (types fields : gset string) (query : string)
    (data : Data) : Rev0.State :=
  {| Rev0.selectedTypes := types; Rev0.selectedFields := fields;
     Rev0.fieldFilterElements := ∅;
     Rev0.searchQuery := query;
     Rev0.clickedNode := None; Rev0.hoveredNode := None;
     Rev0.nodeGroups :=
       Some (map (fun n => {| Rev0.datum := n; Rev0.opacity := None |}) (nodes data));
     Rev0.linkElements :=
       Some (map (fun l => {| Rev0.link := l; Rev0.highlighted := false;
                              Rev0.strokeOpacity := Some (6 # 10)%Q |}) (links data));
     Rev0.popup := {| Rev0.displayed := false; Rev0.innerHTML := None |} |}.

Definition rev0Opacities (st : Rev0.State) : option (list (string * option Q)) :=
  map (fun g => (Node.id (Rev0.datum g), Rev0.opacity g)) <$> Rev0.nodeGroups st.

Definition emptyScheduleNode : Node.t :=
  {| Node.id := "P"; Node.name := "P"; Node.type := ""; Node.fields := [];
     Node.schedule := []; Node.color := "#E673C8"; Node.scale := JsNumber.Num 1;
     Node.description := ""; Node.previousEvent := ""; Node.photoLink := "";
     Node.connectedProjects := [] |}.

Definition withSchedule (n : Node.t) (sch : list string) : Node.t :=
  {| Node.id := Node.id n; Node.name := Node.name n; Node.type := Node.type n;
     Node.fields := Node.fields n; Node.schedule := sch; Node.color := Node.color n;
     Node.scale := Node.scale n; Node.description := Node.description n;
     Node.previousEvent := Node.previousEvent n; Node.photoLink := Node.photoLink n;
     Node.connectedProjects := Node.connectedProjects n |}.

(** The example as the specification states it: the only edge joins A and
    B, and selecting the field "paint" dims C and nothing else. *)
Definition exampleAsStated : Prop :=
  let data := Main.normalizeData threeNodes in
  (∃ e, e ∈ links data ∧ joins "A" "B" e)
  ∧ (∀ e, e ∈ links data → joins "A" "B" e)
  ∧ mainOpacities (Main.applyFilters (mainState ∅ {[ "paint" ]} "" (nodes data)))
    = Some [("A", Some 1%Q); ("B", Some 1%Q); ("C", Some (2 # 10)%Q)].

(** ** Notions of the graph builder *)

(** The declared connections in the order the two nested loops visit them. *)
Definition declarations (ns : list Node.t) : list (Node.t * string) :=
  flat_map (fun n => map (fun c => (n, c)) (Node.connectedProjects n)) ns.

(** The key under which the builder records a link. *)
Definition keyOf (l : Link) : string := linkId (source l) (target l).

(** The name does not contain the separator of [linkId]. *)
Definition noBar (s : string) : Prop := JsString.includes s "|" = false.

(** What the two loops maintain: no link is a self-loop, [linkSet]
    holds exactly the keys of the links pushed so far, and no key
    occurs twice. *)
Definition builderInv (acc : gset string * list Link) : Prop :=
  (∀ l, l ∈ acc.2 → source l ≠ target l)
  ∧ (∀ k, k ∈ acc.1 ↔ ∃ l, l ∈ acc.2 ∧ k = keyOf l)
  ∧ NoDup (map keyOf acc.2).

(** ** Further notions *)

(** The unordered pair of ids that an edge joins. *)
Definition endpoints (e : Link) : gset string := {[ source e; target e ]}.

(** A token of a multi-valued column as the loader keeps it: not empty and
    without white space at either end. *)
Definition cleanToken (x : string) : Prop := x ≠ "" ∧ JsString.trim x = x.

(** A scale that a node can carry: a number other than zero. *)
Definition usableScale (v : JsNumber.number) : Prop :=
  match v with
  | JsNumber.NaN => False
  | JsNumber.Num q => ¬ (q == 0)%Q
  | JsNumber.Infinity _ => True
  end.

(** The edge [e] was declared: its source is a node of [ns] that lists the
    target among its connected projects, and the target is the id of a node
    of [ns]. *)
Definition declaredIn (ns : list Node.t) (e : Link) : Prop :=
  (∃ n, n ∈ ns ∧ source e = Node.id n ∧ target e ∈ Node.connectedProjects n)
  ∧ (∃ t, t ∈ ns ∧ target e = Node.id t).

(** The string does not begin with white space. *)
Definition startsClean (s : string) : Prop :=
  match s with
  | EmptyString => True
  | String c _ => JsString.is_white c = false
  end.

(** ** Background columns of the developed revision *)

(** The developed revision draws one background column per season; its
    schedule scale and [getNodeXPosition] are, word for word, those of the
    base revision ([Main.createScheduleScale], [Main.getNodeXPosition]). *)
Module Rev0Layout.

Record Column := {
  season : string;
  x : Q;
  nextX : Q;
  columnCenterX : Q;
  separator : bool
}.

(** The body of [SCHEDULE_ORDER.forEach((season, i) => ...)]. *)
Definition columnOf (columnWidth : Q) (i : nat) (season : string) : Column :=
  let x := (inject_Z (Z.of_nat i) * columnWidth)%Q in
  {| season := season;
     x := x;
     nextX := (inject_Z (Z.of_nat (i + 1)) * columnWidth)%Q;
     columnCenterX := (x + columnWidth / 2)%Q;
     separator := bool_decide (i < length Main.SCHEDULE_ORDER - 1)%nat |}.

Definition backgroundColumns (width : Q) : list Column :=
  let columnWidth := (width / inject_Z (Z.of_nat (length Main.SCHEDULE_ORDER)))%Q in
  imap (columnOf columnWidth) Main.SCHEDULE_ORDER.

End Rev0Layout.

(** ** Further handlers of the developed revision *)

Module Rev0Ui.

(** *** Selection handlers *)

Definition withSelection (st : Rev0.State) (clicked hovered : option Node.t)
    : Rev0.State :=
  {| Rev0.selectedTypes := Rev0.selectedTypes st;
     Rev0.selectedFields := Rev0.selectedFields st;
     Rev0.fieldFilterElements := Rev0.fieldFilterElements st;
     Rev0.searchQuery := Rev0.searchQuery st;
     Rev0.clickedNode := clicked; Rev0.hoveredNode := hovered;
     Rev0.nodeGroups := Rev0.nodeGroups st; Rev0.linkElements := Rev0.linkElements st;
     Rev0.popup := Rev0.popup st |}.

Definition withLinks (st : Rev0.State) (ls : option (list Rev0.LinkElement))
    : Rev0.State :=
  {| Rev0.selectedTypes := Rev0.selectedTypes st;
     Rev0.selectedFields := Rev0.selectedFields st;
     Rev0.fieldFilterElements := Rev0.fieldFilterElements st;
     Rev0.searchQuery := Rev0.searchQuery st;
     Rev0.clickedNode := Rev0.clickedNode st; Rev0.hoveredNode := Rev0.hoveredNode st;
     Rev0.nodeGroups := Rev0.nodeGroups st; Rev0.linkElements := ls;
     Rev0.popup := Rev0.popup st |}.

Definition withFilters (st : Rev0.State) (types fields : gset string)
    (tags : gmap string bool) (query : string) : Rev0.State :=
  {| Rev0.selectedTypes := types; Rev0.selectedFields := fields;
     Rev0.fieldFilterElements := tags; Rev0.searchQuery := query;
     Rev0.clickedNode := Rev0.clickedNode st; Rev0.hoveredNode := Rev0.hoveredNode st;
     Rev0.nodeGroups := Rev0.nodeGroups st; Rev0.linkElements := Rev0.linkElements st;
     Rev0.popup := Rev0.popup st |}.

(** [linkElements.classed('highlighted', false).attr('stroke-opacity', 0.6)];
    as for the hover handler, the selections exist whenever the handlers
    below run. *)
Definition resetLinks (ls : list Rev0.LinkElement) : list Rev0.LinkElement :=
  map (fun l => {| Rev0.link := Rev0.link l; Rev0.highlighted := false;
                   Rev0.strokeOpacity := Some (6 # 10)%Q |}) ls.

Definition handleNodeMouseOut (d : Node.t) (st : Rev0.State) : Rev0.State :=
  let st1 := withSelection st (Rev0.clickedNode st) None in
  let st2 := Rev0.applyFilters (withLinks st1 (resetLinks <$> Rev0.linkElements st1)) in
  match Rev0.clickedNode st1 with
  | Some c =>
      if bool_decide (Node.id c = Node.id d) then st2
      else st2
  | None => Rev0.hidePopup st2
  end.

(** What the handler of a click on the drawing reads from the event:
    whether the popup is on the event path, and whether the target is the
    drawing itself or its main group rather than a node. *)
Record ClickEvent := { pathHasPopup : bool; targetIsBackground : bool }.

(** The handler registered by [svg.on('click', ...)]. *)
Definition svgClick (event : ClickEvent) (st : Rev0.State) : Rev0.State :=
  if Rev0.displayed (Rev0.popup st) && pathHasPopup event then st
  else if targetIsBackground event
       then Rev0.hidePopup (withSelection st None None)
       else st.

(** *** Filter panel *)

(** The filter panel around the state: the type tags in document order with
    their [active] class, the field tags in document order (their [active]
    class is in [fieldFilterElements]), and the value of the search box. *)
Record Ui := {
  core : Rev0.State;
  typeTags : list (string * bool);
  fieldTags : list string;
  searchInput : string
}.

Definition allTypes (nodes : list Node.t) : gset string :=
  foldl (fun acc node =>
           if JsString.truthy (Some (Node.type node))
           then {[ Node.type node ]} ∪ acc else acc) ∅ nodes.

Definition allFields (nodes : list Node.t) : gset string :=
  foldl (fun acc node =>
           foldl (fun acc field => {[ field ]} ∪ acc) acc (Node.fields node))
        ∅ nodes.

(** [Array.from(set).sort()]: the members in ascending code-unit order. *)
Definition sortedMembers (s : gset string) : list string :=
  merge_sort String.le (elements s).

Definition buildFilters (nodes : list Node.t) (ui : Ui) : Ui :=
  let fields := sortedMembers (allFields nodes) in
  {| core :=
       withFilters (core ui) (Rev0.selectedTypes (core ui))
         (Rev0.selectedFields (core ui))
         (foldl (fun m field =>
                   <[ field := bool_decide (field ∈ Rev0.selectedFields (core ui)) ]> m)
                ∅ fields)
         (Rev0.searchQuery (core ui));
     typeTags := map (fun type => (type, false)) (sortedMembers (allTypes nodes));
     fieldTags := fields;
     searchInput := searchInput ui |}.

(** The click handler of the type tag at position [i]. *)
Definition typeTagClick (i : nat) (ui : Ui) : Ui :=
  match typeTags ui !! i with
  | None => ui
  | Some tag =>
      let type : string := tag.1 in
      let isActive : bool := tag.2 in
      {| core :=
           Rev0.applyFilters
             (withFilters (core ui)
                (if isActive then Rev0.selectedTypes (core ui) ∖ {[ type ]}
                 else {[ type ]} ∪ Rev0.selectedTypes (core ui))
                (Rev0.selectedFields (core ui))
                (Rev0.fieldFilterElements (core ui))
                (Rev0.searchQuery (core ui)));
         typeTags := <[ i := (type, negb isActive) ]> (typeTags ui);
         fieldTags := fieldTags ui;
         searchInput := searchInput ui |}
  end.

(** The [input] listener of the search box. *)
Definition searchInputChanged (value : string) (ui : Ui) : Ui :=
  {| core :=
       Rev0.applyFilters
         (withFilters (core ui) (Rev0.selectedTypes (core ui))
            (Rev0.selectedFields (core ui)) (Rev0.fieldFilterElements (core ui)) value);
     typeTags := typeTags ui;
     fieldTags := fieldTags ui;
     searchInput := value |}.

Definition resetFilters (ui : Ui) : Ui :=
  {| core :=
       Rev0.applyFilters
         (withFilters (core ui) ∅ ∅
            ((fun _ => false) <$> Rev0.fieldFilterElements (core ui)) "");
     typeTags := map (fun tag => (tag.1, false)) (typeTags ui);
     fieldTags := fieldTags ui;
     searchInput := "" |}.

Definition onCore (f : Rev0.State → Rev0.State) (ui : Ui) : Ui :=
  {| core := f (core ui); typeTags := typeTags ui; fieldTags := fieldTags ui;
     searchInput := searchInput ui |}.

(** *** Events *)

(** What the user can do once the page is set up. *)
Inductive Action :=
| TypeTagClick (i : nat)
| FieldTagClick (field : string)
| SearchInput (value : string)
| ResetClick
| MouseOver (d : Node.t)
| MouseOut (d : Node.t)
| NodeClick (d : Node.t)
| SvgClick (event : ClickEvent).

Definition step (ui : Ui) (a : Action) : Ui :=
  match a with
  | TypeTagClick i => typeTagClick i ui
  | FieldTagClick field => onCore (Rev0.toggleFieldFilter field) ui
  | SearchInput value => searchInputChanged value ui
  | ResetClick => resetFilters ui
  | MouseOver d => onCore (Rev0.handleNodeHover d) ui
  | MouseOut d => onCore (handleNodeMouseOut d) ui
  | NodeClick d => onCore (Rev0.handleNodeClick d) ui
  | SvgClick event => onCore (svgClick event) ui
  end.

Definition run (ui : Ui) (actions : list Action) : Ui := foldl step ui actions.

(** Every tag of the panel carries the [active] class exactly when its type
    or field is selected, and no two type tags have the same label. *)
Definition tagsInSync (ui : Ui) : Prop :=
  Forall (fun tag => tag.2 = bool_decide (tag.1 ∈ Rev0.selectedTypes (core ui)))
    (typeTags ui)
  ∧ NoDup (typeTags ui).*1
  ∧ ∀ field active,
      Rev0.fieldFilterElements (core ui) !! field = Some active →
      active = bool_decide (field ∈ Rev0.selectedFields (core ui)).

(** The state once [initVisualization] has drawn [data]: no filter, no
    selection, no opacity attribute set yet, the popup hidden. *)
Definition drawn (data : Data) : Rev0.State :=
  {| Rev0.selectedTypes := ∅; Rev0.selectedFields := ∅;
     Rev0.fieldFilterElements := ∅; Rev0.searchQuery := "";
     Rev0.clickedNode := None; Rev0.hoveredNode := None;
     Rev0.nodeGroups :=
       Some (map (fun n => {| Rev0.datum := n; Rev0.opacity := None |}) (nodes data));
     Rev0.linkElements :=
       Some (map (fun l => {| Rev0.link := l; Rev0.highlighted := false;
                              Rev0.strokeOpacity := None |}) (links data));
     Rev0.popup := {| Rev0.displayed := false; Rev0.innerHTML := None |} |}.

(** The page as [init] leaves it once [data] is drawn and the filters are
    built. *)
Definition initial (data : Data) : Ui :=
  buildFilters (nodes data)
    {| core := drawn data; typeTags := []; fieldTags := []; searchInput := "" |}.

End Rev0Ui.

(** ** HTML escaping, character by character *)

Definition escapeChar (c : ascii) : string :=
  if bool_decide (c = "&"%char) then "&amp;"
  else if bool_decide (c = "<"%char) then "&lt;"
  else if bool_decide (c = ">"%char) then "&gt;"
  else if bool_decide (c = "034"%char) then "&quot;"
  else if bool_decide (c = "'"%char) then "&#39;"
  else String c EmptyString.

Fixpoint escapeAll (s : string) : string :=
  match s with
  | EmptyString => EmptyString
  | String c s' => escapeChar c +:+ escapeAll s'
  end.

(** The characters that must not reach the markup unescaped. *)
Definition isMarkupChar (c : ascii) : bool :=
  bool_decide (c = "<"%char) || bool_decide (c = ">"%char)
  || bool_decide (c = "034"%char) || bool_decide (c = "'"%char).

(** The handler leaves the three filter variables and the field tags as
    they were. *)
Definition keepsFilters (st st' : Rev0.State) : Prop :=
  Rev0.selectedTypes st' = Rev0.selectedTypes st
  ∧ Rev0.selectedFields st' = Rev0.selectedFields st
  ∧ Rev0.searchQuery st' = Rev0.searchQuery st
  ∧ Rev0.fieldFilterElements st' = Rev0.fieldFilterElements st.

(** ** Further handlers of the base revision *)

Module MainUi.

Record LinkElement := {
  link : Link;
  highlighted : bool;
  strokeOpacity : option Q
}.

(** What [showDetailPanel] writes into the panel, piece by piece. *)
Record Detail := {
  detailPhoto : option string;
  detailName : string;
  detailType : string;
  detailFields : list string;
  detailSchedule : option string;
  detailScale : JsNumber.number;
  detailDescription : option string;
  detailButton : option string
}.

(** The page around the filter state: the link lines, the type and field
    tags in document order with their [active] class, the value of the
    search box, and the detail panel. *)
Record Ui := {
  filter : Main.State;
  linkElements : option (list LinkElement);
  typeTags : list (string * bool);
  fieldTags : list (string * bool);
  searchInput : string;
  panelActive : bool;
  panelContent : option Detail
}.

Definition withFilter (ui : Ui) (st : Main.State) : Ui :=
  {| filter := st; linkElements := linkElements ui; typeTags := typeTags ui;
     fieldTags := fieldTags ui; searchInput := searchInput ui;
     panelActive := panelActive ui; panelContent := panelContent ui |}.

Definition withVariables (st : Main.State) (types fields : gset string)
    (query : string) : Main.State :=
  {| Main.selectedTypes := types; Main.selectedFields := fields;
     Main.searchQuery := query; Main.nodeElements := Main.nodeElements st |}.

(** [s && s.trim() !== ''] *)
Definition nonBlank (s : string) : bool :=
  JsString.truthy (Some s) && negb (String.eqb (JsString.trim s) "").

Definition hoverOpacity (d n : Node.t) : Q :=
  if bool_decide (Node.id n = Node.id d) then 1%Q
  else if bool_decide (Node.type n = Node.type d) then 1%Q
  else (25 # 100)%Q.

(** The handlers are attached to the circles when the graph is drawn, so
    both selections exist whenever they run. *)
Definition handleNodeHover (d : Node.t) (ui : Ui) : Ui :=
  {| filter :=
       {| Main.selectedTypes := Main.selectedTypes (filter ui);
          Main.selectedFields := Main.selectedFields (filter ui);
          Main.searchQuery := Main.searchQuery (filter ui);
          Main.nodeElements :=
            map (fun e => {| Main.datum := Main.datum e;
                             Main.opacity := Some (hoverOpacity d (Main.datum e)) |})
            <$> Main.nodeElements (filter ui) |};
     linkElements :=
       map (fun l =>
              let connected :=
                bool_decide (source (link l) = Node.id d)
                || bool_decide (target (link l) = Node.id d) in
              {| link := link l;
                 highlighted := connected;
                 strokeOpacity := Some (if connected then 1%Q else (2 # 10)%Q) |})
       <$> linkElements ui;
     typeTags := typeTags ui; fieldTags := fieldTags ui;
     searchInput := searchInput ui;
     panelActive := panelActive ui; panelContent := panelContent ui |}.

Definition handleNodeMouseOut (d : Node.t) (ui : Ui) : Ui :=
  {| filter := Main.applyFilters (filter ui);
     linkElements :=
       map (fun l => {| link := link l; highlighted := false;
                        strokeOpacity := Some (6 # 10)%Q |})
       <$> linkElements ui;
     typeTags := typeTags ui; fieldTags := fieldTags ui;
     searchInput := searchInput ui;
     panelActive := panelActive ui; panelContent := panelContent ui |}.

Definition detailOf (node : Node.t) : Detail :=
  {| detailPhoto :=
       if nonBlank (Node.photoLink node) then Some (Node.photoLink node) else None;
     detailName := Node.name node;
     detailType := Node.type node;
     detailFields := Node.fields node;
     detailSchedule :=
       match Node.schedule node with
       | [] => None
       | sch => Some (JsString.join sch ", ")
       end;
     detailScale := Node.scale node;
     detailDescription :=
       if nonBlank (Node.description node)
          && negb (String.eqb (Node.description node) "*description*")
       then Some (Node.description node) else None;
     detailButton :=
       if nonBlank (Node.previousEvent node) then Some (Node.previousEvent node)
       else None |}.

Definition showDetailPanel (node : Node.t) (ui : Ui) : Ui :=
  {| filter := filter ui; linkElements := linkElements ui;
     typeTags := typeTags ui; fieldTags := fieldTags ui;
     searchInput := searchInput ui;
     panelActive := true; panelContent := Some (detailOf node) |}.

Definition closeDetailPanel (ui : Ui) : Ui :=
  {| filter := filter ui; linkElements := linkElements ui;
     typeTags := typeTags ui; fieldTags := fieldTags ui;
     searchInput := searchInput ui;
     panelActive := false; panelContent := panelContent ui |}.

Definition handleNodeClick (d : Node.t) (ui : Ui) : Ui := showDetailPanel d ui.

(** The handler registered by [svg.on('click', ...)]. *)
Definition svgClick (targetIsBackground : bool) (ui : Ui) : Ui :=
  if targetIsBackground then closeDetailPanel ui else ui.

Definition allTypes (nodes : list Node.t) : gset string :=
  foldl (fun acc node =>
           if JsString.truthy (Some (Node.type node))
           then {[ Node.type node ]} ∪ acc else acc) ∅ nodes.

Definition allFields (nodes : list Node.t) : gset string :=
  foldl (fun acc node =>
           foldl (fun acc field => {[ field ]} ∪ acc) acc (Node.fields node))
        ∅ nodes.

Definition buildFilters (nodes : list Node.t) (ui : Ui) : Ui :=
  {| filter := filter ui; linkElements := linkElements ui;
     typeTags :=
       map (fun type => (type, false)) (merge_sort String.le (elements (allTypes nodes)));
     fieldTags :=
       map (fun field => (field, false))
         (merge_sort String.le (elements (allFields nodes)));
     searchInput := searchInput ui;
     panelActive := panelActive ui; panelContent := panelContent ui |}.

(** The set after the click on a tag that was or was not active. *)
Definition toggled (isActive : bool) (label : string) (s : gset string) : gset string :=
  if isActive then s ∖ {[ label ]} else {[ label ]} ∪ s.

(** The click handler of the type tag at position [i]. *)
Definition typeTagClick (i : nat) (ui : Ui) : Ui :=
  match typeTags ui !! i with
  | None => ui
  | Some tag =>
      {| filter :=
           Main.applyFilters
             (withVariables (filter ui)
                (toggled tag.2 tag.1 (Main.selectedTypes (filter ui)))
                (Main.selectedFields (filter ui)) (Main.searchQuery (filter ui)));
         linkElements := linkElements ui;
         typeTags := <[ i := (tag.1, negb tag.2) ]> (typeTags ui);
         fieldTags := fieldTags ui;
         searchInput := searchInput ui;
         panelActive := panelActive ui; panelContent := panelContent ui |}
  end.

(** The click handler of the field tag at position [i]. *)
Definition fieldTagClick (i : nat) (ui : Ui) : Ui :=
  match fieldTags ui !! i with
  | None => ui
  | Some tag =>
      {| filter :=
           Main.applyFilters
             (withVariables (filter ui) (Main.selectedTypes (filter ui))
                (toggled tag.2 tag.1 (Main.selectedFields (filter ui)))
                (Main.searchQuery (filter ui)));
         linkElements := linkElements ui;
         typeTags := typeTags ui;
         fieldTags := <[ i := (tag.1, negb tag.2) ]> (fieldTags ui);
         searchInput := searchInput ui;
         panelActive := panelActive ui; panelContent := panelContent ui |}
  end.

(** The [input] listener of the search box. *)
Definition searchInputChanged (value : string) (ui : Ui) : Ui :=
  {| filter :=
       Main.applyFilters
         (withVariables (filter ui) (Main.selectedTypes (filter ui))
            (Main.selectedFields (filter ui)) value);
     linkElements := linkElements ui;
     typeTags := typeTags ui; fieldTags := fieldTags ui;
     searchInput := value;
     panelActive := panelActive ui; panelContent := panelContent ui |}.

Definition resetFilters (ui : Ui) : Ui :=
  {| filter := Main.applyFilters (withVariables (filter ui) ∅ ∅ "");
     linkElements := linkElements ui;
     typeTags := map (fun tag => (tag.1, false)) (typeTags ui);
     fieldTags := map (fun tag => (tag.1, false)) (fieldTags ui);
     searchInput := "";
     panelActive := panelActive ui; panelContent := panelContent ui |}.

(** What the user can do once the page is set up. *)
Inductive Action :=
| TypeTagClick (i : nat)
| FieldTagClick (i : nat)
| SearchInput (value : string)
| ResetClick
| MouseOver (d : Node.t)
| MouseOut (d : Node.t)
| NodeClick (d : Node.t)
| SvgClick (targetIsBackground : bool)
| CloseClick.

Definition step (ui : Ui) (a : Action) : Ui :=
  match a with
  | TypeTagClick i => typeTagClick i ui
  | FieldTagClick i => fieldTagClick i ui
  | SearchInput value => searchInputChanged value ui
  | ResetClick => resetFilters ui
  | MouseOver d => handleNodeHover d ui
  | MouseOut d => handleNodeMouseOut d ui
  | NodeClick d => handleNodeClick d ui
  | SvgClick targetIsBackground => svgClick targetIsBackground ui
  | CloseClick => closeDetailPanel ui
  end.

Definition run (ui : Ui) (actions : list Action) : Ui := foldl step ui actions.

(** The page as [init] leaves it once [data] is drawn and the filters are
    built. *)
Definition initial (data : Data) : Ui :=
  buildFilters (nodes data)
    {| filter := mainState ∅ ∅ "" (nodes data);
       linkElements :=
         Some (map (fun l => {| link := l; highlighted := false;
                                strokeOpacity := None |}) (links data));
       typeTags := []; fieldTags := []; searchInput := "";
       panelActive := false; panelContent := None |}.

(** The tags of one kind carry the [active] class exactly when their label
    is in the set, and no two of them have the same label. *)
Definition inSync (tags : list (string * bool)) (s : gset string) : Prop :=
  Forall (fun tag => tag.2 = bool_decide (tag.1 ∈ s)) tags ∧ NoDup tags.*1.

Definition tagsInSync (ui : Ui) : Prop :=
  inSync (typeTags ui) (Main.selectedTypes (filter ui))
  ∧ inSync (fieldTags ui) (Main.selectedFields (filter ui)).

End MainUi.

(** * Properties *)

(** ** Sanity checks of the host-language model *)

Example split_ex1 : JsString.split "a, b,,c" "," = ["a"; " b"; ""; "c"].
Proof. reflexivity. Qed.
Example split_ex2 : JsString.split "x/d/y/d/" "/d/" = ["x"; "y"; ""].
Proof. reflexivity. Qed.
Example trim_ex : JsString.trim "  a b  " = "a b".
Proof. reflexivity. Qed.
Example lower_ex : JsString.toLowerCase "AbC-1" = "abc-1".
Proof. reflexivity. Qed.
Example parseFloat_ex1 : JsNumber.parseFloat (Some " 2.5x") = JsNumber.Num (25 * (1 # 10)).
Proof. reflexivity. Qed.
Example parseFloat_ex2 : JsNumber.parseFloat (Some "abc") = JsNumber.NaN.
Proof. reflexivity. Qed.
Example parseFloat_ex3 : JsNumber.parseFloat None = JsNumber.NaN.
Proof. reflexivity. Qed.
Example parseFloat_ex4 : JsNumber.parseFloat (Some ".") = JsNumber.NaN.
Proof. reflexivity. Qed.

(** ** Start-up and failure policy *)

(** The loader never throws, whatever the outcome of the fetch. *)
Lemma loadData_returns {E} (csv : E + list Row) :
  ∃ data, (Main.loadData csv).2 = inr data.
Proof. destruct csv as [e|rows]; eexists; reflexivity. Qed.

(** C8.  When the CSV load rejects with an error [err], [loadData] logs it
    and returns the empty result without throwing, and [init] then logs
    that no data was loaded and returns without initialising the
    visualisation, building the filters or registering any listener. *)
Theorem C8_fetch_failure_yields_empty_and_short_circuits
    {E} (err : E) :
  Main.loadData (inl err)
  = ([Main.ConsoleError "Error loading CSV:" (Some err)],
     inr {| nodes := []; links := [] |})
  ∧ Main.init (inl err : E + list Row)
    = ([Main.ConsoleError "Error loading CSV:" (Some err);
        Main.ConsoleError "No data loaded" None],
       inr tt).
Proof. split; reflexivity. Qed.

(** On a non-empty dataset the start-up does go on to draw the graph. *)
Lemma init_proceeds_on_data {E} (row : Row) (rows : list Row) :
  (Main.init (inr (row :: rows) : E + list Row)).1
  = [ Main.InitVisualization (Main.normalizeData (row :: rows));
      Main.BuildFilters;
      Main.AddEventListener "search-input" "input";
      Main.AddEventListener "reset-filters" "click";
      Main.AddEventListener "close-panel" "click";
      Main.AddEventListener "window" "resize" ].
Proof. reflexivity. Qed.

(** ** Scale of a node *)

(** C9.  A row whose [scale] column is absent, or holds a string that
    [parseFloat] does not read as a number, gives a node of scale exactly 1. *)
Theorem C9_missing_or_unparsable_scale_is_one
    (csvData : list Row) (i : nat) (row : Row) :
  csvData !! i = Some row →
  row_scale row = None ∨ JsNumber.parseFloat (row_scale row) = JsNumber.NaN →
  ∃ node, nodes (Main.normalizeData csvData) !! i = Some node
          ∧ Node.scale node = JsNumber.Num 1.
Proof.
  intros Hrow Hscale. exists (Main.nodeOfRow row). split.
  - cbn. rewrite list_lookup_fmap, Hrow. reflexivity.
  - cbn. destruct Hscale as [-> | ->]; reflexivity.
Qed.

Lemma C9_witness :
  ∃ node, nodes (Main.normalizeData
                   [mkRow "A" "Art" "" "";
                    {| row_project_name := "B"; row_type := None; row_fields := None;
                       row_schedule := None; row_connected_projects := None;
                       row_color := None; row_scale := Some "big";
                       row_description := None; row_previous_event := None;
                       row_photo_link := None |}]) !! 1%nat = Some node
          ∧ Node.scale node = JsNumber.Num 1.
Proof.
  eapply C9_missing_or_unparsable_scale_is_one.
  - reflexivity.
  - right. reflexivity.
Defined.

(** ** Horizontal bias target *)

Lemma getNodeXPosition_empty (node : Node.t) (sc : Main.PointScale) :
  Node.schedule node = [] →
  Main.getNodeXPosition node sc = ((Main.range sc).2 / 2)%Q.
Proof. intros H. unfold Main.getNodeXPosition. rewrite H. reflexivity. Qed.

(** For every width the default target is 0.425 of the width, the midpoint
    of the range is half the width, and the two differ unless the width is
    zero. *)
Lemma default_target_off_midpoint (node : Node.t) (width : Q) :
  Node.schedule node = [] →
  (Main.getNodeXPosition node (Main.createScheduleScale width) == width * (425 # 1000))%Q
  ∧ (rangeMidpoint (Main.createScheduleScale width) == width * (1 # 2))%Q
  ∧ (¬ (width == 0)%Q →
     ¬ (Main.getNodeXPosition node (Main.createScheduleScale width)
        == rangeMidpoint (Main.createScheduleScale width))%Q).
Proof.
  intros H. rewrite getNodeXPosition_empty by exact H.
  unfold rangeMidpoint. cbn [Main.createScheduleScale Main.range fst snd].
  assert (H1 : (width * (85 # 100) / 2 == width * (425 # 1000))%Q) by field.
  assert (H2 : ((width * (15 # 100) + width * (85 # 100)) / 2 == width * (1 # 2))%Q)
    by field.
  split; [exact H1 | split; [exact H2 |]].
  intros Hw Heq. rewrite H1, H2 in Heq. apply Hw.
  assert (Hd : (width * (1 # 2) - width * (425 # 1000) == 0)%Q)
    by (rewrite Heq; ring).
  assert (Hk : (width == (width * (1 # 2) - width * (425 # 1000)) * (1000 # 75))%Q)
    by field.
  rewrite Hk, Hd. reflexivity.
Qed.

(** C4.  The code departs from the claim: at width 1000 a node with an
    empty schedule is sent to 425, half of the upper end of the range
    [150, 850], whereas the midpoint of that range is 500. *)
Theorem C4_empty_schedule_target_is_not_the_midpoint :
  Node.schedule emptyScheduleNode = []
  ∧ (Main.getNodeXPosition emptyScheduleNode (Main.createScheduleScale 1000) == 425)%Q
  ∧ (rangeMidpoint (Main.createScheduleScale 1000) == 500)%Q
  ∧ ¬ (Main.getNodeXPosition emptyScheduleNode (Main.createScheduleScale 1000)
       == rangeMidpoint (Main.createScheduleScale 1000))%Q.
Proof.
  split; [reflexivity |]. split; [reflexivity |]. split; [reflexivity |].
  intros H. vm_compute in H. discriminate H.
Qed.

(** The four seasons sit at the centres of the four equal columns of the
    range: at width 1000, at 237.5, 412.5, 587.5 and 762.5. *)
Lemma season_positions :
  Forall2 (fun season x =>
             ∃ q, Main.scaleAt (Main.createScheduleScale 1000) season = Some q
                  ∧ (q == x)%Q)
    Main.SCHEDULE_ORDER [(2375 # 10)%Q; (4125 # 10)%Q; (5875 # 10)%Q; (7625 # 10)%Q].
Proof. repeat constructor; eexists; (split; [reflexivity | reflexivity]). Qed.

Lemma indexOf_None (x : string) (l : list string) :
  x ∉ l → Main.indexOf x l = None.
Proof.
  induction l as [|y l IH]; intros Hx; [reflexivity |].
  cbn. rewrite bool_decide_eq_false_2 by (intros ->; apply Hx; left).
  rewrite IH; [reflexivity |]. intros Hin. apply Hx. right. exact Hin.
Qed.

(** C10.  A node whose first schedule entry is none of the four seasons
    gets the same target as a node with an empty schedule: the lookup in
    the scale is undefined and the fallback is taken. *)
Theorem C10_unknown_season_falls_back_to_default
    (node empty : Node.t) (width : Q) (first : string) (rest : list string) :
  Node.schedule node = first :: rest →
  first ∉ Main.SCHEDULE_ORDER →
  Node.schedule empty = [] →
  Main.scaleAt (Main.createScheduleScale width) first = None
  ∧ Main.getNodeXPosition node (Main.createScheduleScale width)
    = Main.getNodeXPosition empty (Main.createScheduleScale width).
Proof.
  intros Hs Hnot He.
  assert (Hnone : Main.scaleAt (Main.createScheduleScale width) first = None).
  { unfold Main.scaleAt. cbn [Main.createScheduleScale Main.domain].
    rewrite indexOf_None by exact Hnot. reflexivity. }
  split; [exact Hnone |].
  unfold Main.getNodeXPosition. rewrite Hs, He, Hnone. reflexivity.
Qed.

Lemma C10_witness :
  Main.scaleAt (Main.createScheduleScale 1000) "Autumn" = None
  ∧ Main.getNodeXPosition (withSchedule emptyScheduleNode ["Autumn"; "Winter"])
      (Main.createScheduleScale 1000)
    = Main.getNodeXPosition emptyScheduleNode (Main.createScheduleScale 1000).
Proof.
  apply (C10_unknown_season_falls_back_to_default
           (withSchedule emptyScheduleNode ["Autumn"; "Winter"]) emptyScheduleNode
           1000 "Autumn" ["Winter"]).
  - reflexivity.
  - unfold Main.SCHEDULE_ORDER. intros H.
    repeat (apply elem_of_cons in H as [H | H]; [discriminate H |]).
    apply elem_of_nil in H. exact H.
  - reflexivity.
Defined.

(** ** The three-node example *)

(** C2, as stated, fails: B declares C, C is a node of the dataset, so the
    builder also emits the edge from B to C. *)
Lemma C2_counterexample : ¬ exampleAsStated.
Proof.
  intros (_ & Hall & _).
  assert (Hin : {| source := "B"; target := "C" |}
                ∈ links (Main.normalizeData threeNodes)).
  { vm_compute. right. left. }
  specialize (Hall _ Hin). destruct Hall as [[H _] | [_ H]]; cbn in H; discriminate H.
Qed.

(** C2, amended.  The three-node dataset yields exactly the two edges A-B
    and B-C, in this order; with the field "paint" selected and no other
    restriction, A and B stay fully visible and C alone is dimmed. *)
Theorem C2_three_nodes_example :
  let data := Main.normalizeData threeNodes in
  map Node.id (nodes data) = ["A"; "B"; "C"]
  ∧ links data
    = [ {| source := "A"; target := "B" |}; {| source := "B"; target := "C" |} ]
  ∧ mainOpacities (Main.applyFilters (mainState ∅ {[ "paint" ]} "" (nodes data)))
    = Some [("A", Some 1%Q); ("B", Some 1%Q); ("C", Some (2 # 10)%Q)].
Proof. vm_compute. auto. Qed.

(** The developed revision agrees on this example (its dimmed opacity is
    0.15, and the edge that touches C is dimmed with it). *)
Lemma three_nodes_example_rev0 :
  let data := Rev0.normalizeData threeNodes in
  let st := Rev0.applyFilters (rev0State ∅ {[ "paint" ]} "" data) in
  links data
  = [ {| source := "A"; target := "B" |}; {| source := "B"; target := "C" |} ]
  ∧ rev0Opacities st
    = Some [("A", Some 1%Q); ("B", Some 1%Q); ("C", Some (15 # 100)%Q)]
  ∧ (map Rev0.strokeOpacity <$> Rev0.linkElements st)
    = Some [Some 1%Q; Some (15 # 100)%Q].
Proof. vm_compute. auto. Qed.

(** ** Strings *)

Lemma sapp_cons (c : ascii) (s t : string) :
  String c s +:+ t = String c (s +:+ t).
Proof. reflexivity. Qed.

Lemma sapp_nil_l (s : string) : "" +:+ s = s.
Proof. reflexivity. Qed.

Lemma sapp_nil_r (s : string) : s +:+ "" = s.
Proof. induction s as [|c s IH]; [reflexivity |]. rewrite sapp_cons, IH. reflexivity. Qed.

Lemma sapp_assoc (s t u : string) : (s +:+ t) +:+ u = s +:+ t +:+ u.
Proof.
  induction s as [|c s IH]; [reflexivity |].
  rewrite !sapp_cons, IH. reflexivity.
Qed.

Lemma prefix_spec (p s : string) :
  String.prefix p s = true ↔ ∃ post, s = p +:+ post.
Proof.
  revert s. induction p as [|c p IH]; intros s.
  - split; [intros _; exists s; reflexivity | intros _; destruct s; reflexivity].
  - destruct s as [|c' s].
    + split; [discriminate | intros [post H]; discriminate H].
    + cbn [String.prefix]. destruct (ascii_dec c c') as [-> | Hne].
      * rewrite IH. split; intros [post H]; exists post.
        -- rewrite sapp_cons, <- H. reflexivity.
        -- rewrite sapp_cons in H. injection H as H. exact H.
      * split; [discriminate |]. intros [post H].
        rewrite sapp_cons in H. injection H as H1 _. congruence.
Qed.

(** [includes] decides the substring relation. *)
Lemma includes_spec (s sub : string) :
  JsString.includes s sub = true ↔ isSubstring sub s.
Proof.
  induction s as [|c s IH].
  - cbn [JsString.includes]. rewrite orb_false_r, prefix_spec. split.
    + intros [post H]. exists "", post. exact H.
    + intros ([|c pre] & post & H).
      * exists post. exact H.
      * rewrite sapp_cons in H. discriminate H.
  - cbn [JsString.includes]. rewrite orb_true_iff, prefix_spec, IH. split.
    + intros [[post H] | (pre & post & H)].
      * exists "", post. exact H.
      * exists (String c pre), post. rewrite sapp_cons, <- H. reflexivity.
    + intros ([|c' pre] & post & H).
      * left. exists post. exact H.
      * right. rewrite sapp_cons in H. injection H as _ H.
        exists pre, post. exact H.
Qed.

(** ** Filter engine *)

Lemma size_pos_nonempty (X : gset string) :
  bool_decide (0 < size X)%nat = true ↔ X ≠ ∅.
Proof.
  rewrite bool_decide_eq_true. split.
  - intros H ->. rewrite size_empty in H. lia.
  - intros H. destruct (decide (size X = 0%nat)) as [H0 | H0]; [| lia].
    apply size_empty_iff in H0. exfalso. apply H. apply leibniz_equiv. exact H0.
Qed.

Lemma no_field_selected (S : gset string) (l : list string) :
  existsb (fun field => bool_decide (field ∈ S)) l = false
  ↔ ∀ f, f ∈ l → f ∉ S.
Proof.
  induction l as [|x l IH]; cbn [existsb].
  - split; [intros _ f Hf; apply elem_of_nil in Hf; contradiction | reflexivity].
  - rewrite orb_false_iff, IH, bool_decide_eq_false. split.
    + intros [Hx Hl] f Hf. apply elem_of_cons in Hf as [-> | Hf]; auto.
    + intros H. split; [apply H; left | intros f Hf; apply H; right; exact Hf].
Qed.

Section ChainReflection.
Variables (types fields : gset string) (query : string) (d : Node.t).

Lemma typeExcluded_spec :
  bool_decide (0 < size types)%nat && negb (bool_decide (Node.type d ∈ types)) = true
  ↔ typeExcluded types d.
Proof.
  unfold typeExcluded.
  rewrite andb_true_iff, size_pos_nonempty, negb_true_iff, bool_decide_eq_false.
  reflexivity.
Qed.

Lemma fieldsExcluded_spec :
  bool_decide (0 < size fields)%nat
  && negb (existsb (fun field => bool_decide (field ∈ fields)) (Node.fields d)) = true
  ↔ fieldsExcluded fields d.
Proof.
  unfold fieldsExcluded.
  rewrite andb_true_iff, size_pos_nonempty, negb_true_iff, no_field_selected.
  reflexivity.
Qed.

Lemma searchExcluded_spec :
  JsString.truthy (Some query)
  && negb (JsString.includes (JsString.toLowerCase (Node.name d))
             (JsString.toLowerCase query)) = true
  ↔ searchExcluded query d.
Proof.
  unfold searchExcluded.
  rewrite andb_true_iff, negb_true_iff, <- not_true_iff_false, includes_spec.
  assert (Hq : JsString.truthy (Some query) = true ↔ query ≠ "").
  { destruct query; cbn; split; congruence. }
  rewrite Hq. reflexivity.
Qed.
End ChainReflection.

(** In the base revision the opacity of every node follows the priority
    chain: 0.2 when the chain dims the node, 1 otherwise. *)
Lemma main_filterOpacity_follows_chain (st : Main.State) (d : Node.t) :
  (dimmedByChain (Main.selectedTypes st) (Main.selectedFields st)
     (Main.searchQuery st) d → Main.filterOpacity st d = (2 # 10)%Q)
  ∧ (¬ dimmedByChain (Main.selectedTypes st) (Main.selectedFields st)
         (Main.searchQuery st) d → Main.filterOpacity st d = 1%Q).
Proof.
  unfold dimmedByChain, Main.filterOpacity.
  pose proof (typeExcluded_spec (Main.selectedTypes st) d) as Ht.
  pose proof (fieldsExcluded_spec (Main.selectedFields st) d) as Hf.
  pose proof (searchExcluded_spec (Main.searchQuery st) d) as Hs.
  destruct (bool_decide (0 < size (Main.selectedTypes st))%nat
            && negb (bool_decide (Node.type d ∈ Main.selectedTypes st))).
  { split; [reflexivity |]. intros H. exfalso. apply H. left. apply Ht. reflexivity. }
  assert (Hnt : ¬ typeExcluded (Main.selectedTypes st) d)
    by (intros H; apply Ht in H; discriminate H).
  destruct (bool_decide (0 < size (Main.selectedFields st))%nat
            && negb (existsb (fun field => bool_decide (field ∈ Main.selectedFields st))
                       (Node.fields d))).
  { split; [reflexivity |]. intros H. exfalso. apply H. right. left.
    split; [exact Hnt | apply Hf; reflexivity]. }
  assert (Hnf : ¬ fieldsExcluded (Main.selectedFields st) d)
    by (intros H; apply Hf in H; discriminate H).
  destruct (JsString.truthy (Some (Main.searchQuery st))
            && negb (JsString.includes (JsString.toLowerCase (Node.name d))
                       (JsString.toLowerCase (Main.searchQuery st)))).
  { split; [reflexivity |]. intros H. exfalso. apply H. right. right.
    split; [exact Hnt | split; [exact Hnf | apply Hs; reflexivity]]. }
  split; [| reflexivity].
  intros [H | [[_ H] | (_ & _ & H)]].
  - contradiction.
  - contradiction.
  - apply Hs in H. discriminate H.
Qed.

(** [applyFilters] of the base revision writes that opacity on every
    circle and leaves the filter variables alone. *)
Lemma main_applyFilters_opacities (st : Main.State) (els : list Main.NodeElement) :
  Main.nodeElements st = Some els →
  Main.nodeElements (Main.applyFilters st)
  = Some (map (fun e => {| Main.datum := Main.datum e;
                           Main.opacity := Some (Main.filterOpacity st (Main.datum e)) |})
            els).
Proof. intros H. unfold Main.applyFilters. rewrite H. reflexivity. Qed.

(** C3.  The developed revision departs from the priority chain: with the
    field "paint" selected and the search text "zzz", node A of the
    three-node dataset has a selected field and a name that does not
    contain the search text, so the chain dims it (third rule); yet
    [applyFilters] leaves A, and B likewise, fully visible, because the
    search text is consulted only while no field is selected.  The base
    revision dims all three nodes on the same input. *)
Theorem C3_rev0_skips_search_when_fields_selected :
  let data := Rev0.normalizeData threeNodes in
  let st := rev0State ∅ {[ "paint" ]} "zzz" data in
  ∃ a, nodes data !! 0%nat = Some a
       ∧ dimmedByChain (Rev0.selectedTypes st) (Rev0.selectedFields st)
           (Rev0.searchQuery st) a
       ∧ Rev0.filterOpacity st a = 1%Q
       ∧ rev0Opacities (Rev0.applyFilters st)
         = Some [("A", Some 1%Q); ("B", Some 1%Q); ("C", Some (15 # 100)%Q)]
       ∧ mainOpacities
           (Main.applyFilters
              (mainState ∅ {[ "paint" ]} "zzz" (nodes (Main.normalizeData threeNodes))))
         = Some [("A", Some (2 # 10)%Q); ("B", Some (2 # 10)%Q); ("C", Some (2 # 10)%Q)].
Proof.
  cbv zeta. eexists. split; [reflexivity |]. split.
  - right. right. split; [| split].
    + intros [H _]. apply H. reflexivity.
    + intros [_ H]. refine (H "paint" _ _).
      * vm_compute. left.
      * cbn [Rev0.selectedFields rev0State]. set_solver.
    + split; [discriminate |]. intros H. apply includes_spec in H.
      vm_compute in H. discriminate H.
  - split; [vm_compute; reflexivity |].
    split; vm_compute; reflexivity.
Qed.

(** ** Selection *)

(** C5.  While a click is active for a node [m], pointer-enter on a node
    [n] of another identity leaves the whole state as it is: no popup is
    opened, the hovered node, the opacities and the link highlights are
    unchanged. *)
Theorem C5_hover_is_inert_while_another_node_is_clicked
    (st : Rev0.State) (m n : Node.t) :
  Rev0.clickedNode st = Some m →
  Node.id n ≠ Node.id m →
  Rev0.handleNodeHover n st = st.
Proof.
  intros Hm Hne. unfold Rev0.handleNodeHover, Rev0.clickedElsewhere.
  rewrite Hm. rewrite bool_decide_eq_true_2; [reflexivity |].
  intros H. apply Hne. symmetry. exact H.
Qed.

(** In a dataset whose project names are pairwise distinct, as the data
    model requires, two different nodes have different ids, so the hover on
    any node other than the clicked one is inert. *)
Lemma hover_inert_on_other_nodes
    (ns : list Node.t) (st : Rev0.State) (m n : Node.t) :
  NoDup (map Node.id ns) → m ∈ ns → n ∈ ns →
  Rev0.clickedNode st = Some m → n ≠ m →
  Rev0.handleNodeHover n st = st.
Proof.
  intros Hnd Hm Hn Hc Hne.
  unfold Rev0.handleNodeHover, Rev0.clickedElsewhere.
  rewrite Hc. rewrite bool_decide_eq_true_2; [reflexivity |].
  intros Hid. symmetry in Hid. apply Hne.
  apply list_elem_of_lookup in Hm as [i Hi]. apply list_elem_of_lookup in Hn as [j Hj].
  assert (Hij : j = i).
  { apply (NoDup_lookup _ j i (Node.id n) Hnd).
    - rewrite list_lookup_fmap, Hj. reflexivity.
    - rewrite list_lookup_fmap, Hi. cbn. f_equal. symmetry. exact Hid. }
  subst j. congruence.
Qed.

(** Without an active click the same pointer-enter does open the popup and
    records the hovered node. *)
Lemma hover_opens_popup_when_idle (st : Rev0.State) (n : Node.t) :
  Rev0.clickedNode st = None →
  Rev0.hoveredNode (Rev0.handleNodeHover n st) = Some n
  ∧ Rev0.displayed (Rev0.popup (Rev0.handleNodeHover n st)) = true.
Proof.
  intros H. unfold Rev0.handleNodeHover, Rev0.clickedElsewhere, Rev0.showsOnHover.
  rewrite H. split; reflexivity.
Qed.

Lemma click_records_clicked (st : Rev0.State) (m : Node.t) :
  Rev0.clickedNode (Rev0.handleNodeClick m st) = Some m.
Proof. reflexivity. Qed.

Lemma C5_witness :
  let data := Rev0.normalizeData threeNodes in
  let a := Rev0.nodeOfRow (mkRow "A" "Art" "paint,sculpture" "B") in
  let c := Rev0.nodeOfRow (mkRow "C" "Music" "dance" "") in
  let st := Rev0.handleNodeClick a (rev0State ∅ ∅ "" data) in
  Rev0.handleNodeHover c st = st.
Proof.
  cbv zeta.
  apply (C5_hover_is_inert_while_another_node_is_clicked _
           (Rev0.nodeOfRow (mkRow "A" "Art" "paint,sculpture" "B"))).
  - reflexivity.
  - cbn. discriminate.
Defined.

(** ** Field-filter toggles *)

(** The opacity computed for a node depends on the three filter variables
    only. *)
Lemma rev0_filterOpacity_ext (st st' : Rev0.State) (d : Node.t) :
  Rev0.selectedTypes st' = Rev0.selectedTypes st →
  Rev0.selectedFields st' = Rev0.selectedFields st →
  Rev0.searchQuery st' = Rev0.searchQuery st →
  Rev0.filterOpacity st' d = Rev0.filterOpacity st d.
Proof. intros Ht Hf Hq. unfold Rev0.filterOpacity. rewrite Ht, Hf, Hq. reflexivity. Qed.

Lemma opacityMapOf_ext (f g : Node.t → Q) (gs gs' : list Rev0.NodeGroup) :
  (∀ d, f d = g d) →
  map Rev0.datum gs = map Rev0.datum gs' →
  Rev0.opacityMapOf f gs = Rev0.opacityMapOf g gs'.
Proof.
  intros Hfg. unfold Rev0.opacityMapOf. generalize (∅ : gmap string Q).
  revert gs'. induction gs as [|x gs IH]; intros [|y gs'] m H; try discriminate H.
  - reflexivity.
  - cbn in H. injection H as Hxy H. cbn [foldl]. rewrite Hxy, Hfg. apply IH. exact H.
Qed.

Lemma setNodeOpacities_datum (m : gmap string Q) (gs : list Rev0.NodeGroup) :
  map Rev0.datum (Rev0.setNodeOpacities m gs) = map Rev0.datum gs.
Proof.
  unfold Rev0.setNodeOpacities. rewrite map_map. apply map_ext. reflexivity.
Qed.

Lemma setNodeOpacities_again (m m' : gmap string Q) (gs : list Rev0.NodeGroup) :
  Rev0.setNodeOpacities m' (Rev0.setNodeOpacities m gs) = Rev0.setNodeOpacities m' gs.
Proof.
  unfold Rev0.setNodeOpacities. rewrite map_map. apply map_ext. reflexivity.
Qed.

Lemma filterLinks_again (m m' : gmap string Q) (ls : list Rev0.LinkElement) :
  Rev0.filterLinks m' (Rev0.filterLinks m ls) = Rev0.filterLinks m' ls.
Proof.
  unfold Rev0.filterLinks. rewrite map_map. apply map_ext. reflexivity.
Qed.

Lemma toggle_on (field : string) (st : Rev0.State) :
  field ∉ Rev0.selectedFields st →
  Rev0.toggleFieldFilter field st = Rev0.setFieldFilterState field true true st.
Proof.
  intros H. unfold Rev0.toggleFieldFilter.
  rewrite bool_decide_eq_false_2 by exact H. reflexivity.
Qed.

Lemma toggle_off (field : string) (st : Rev0.State) :
  field ∈ Rev0.selectedFields st →
  Rev0.toggleFieldFilter field st = Rev0.setFieldFilterState field false true st.
Proof.
  intros H. unfold Rev0.toggleFieldFilter.
  rewrite bool_decide_eq_true_2 by exact H. reflexivity.
Qed.

Lemma applyFilters_selectedFields (st : Rev0.State) :
  Rev0.selectedFields (Rev0.applyFilters st) = Rev0.selectedFields st.
Proof.
  unfold Rev0.applyFilters.
  destruct (Rev0.nodeGroups st), (Rev0.linkElements st); reflexivity.
Qed.

(** C7.  When the field [f] is not selected, toggling its filter on and
    then off gives back the very same set of selected fields; the opacity
    computed for every node is then the one computed before the toggles,
    and the node groups and links carry exactly the opacities that
    [applyFilters] gives them in the state before the toggles. *)
Theorem C7_toggle_field_on_then_off_restores
    (st : Rev0.State) (f : string) :
  f ∉ Rev0.selectedFields st →
  let st2 := Rev0.toggleFieldFilter f (Rev0.toggleFieldFilter f st) in
  Rev0.selectedFields st2 = Rev0.selectedFields st
  ∧ (∀ d, Rev0.filterOpacity st2 d = Rev0.filterOpacity st d)
  ∧ Rev0.nodeGroups st2 = Rev0.nodeGroups (Rev0.applyFilters st)
  ∧ Rev0.linkElements st2 = Rev0.linkElements (Rev0.applyFilters st).
Proof.
  intros Hf st2. subst st2.
  rewrite (toggle_on f st Hf).
  assert (Hin : f ∈ Rev0.selectedFields (Rev0.setFieldFilterState f true true st)).
  { cbn [Rev0.setFieldFilterState]. rewrite applyFilters_selectedFields.
    cbn [Rev0.selectedFields]. set_solver. }
  rewrite (toggle_off f _ Hin). clear Hin.
  destruct st as [types fields tags query clicked hovered groups lines pop].
  cbn [Rev0.selectedFields] in Hf.
  assert (Hset : ({[ f ]} ∪ fields) ∖ {[ f ]} = fields).
  { apply set_eq. intros x.
    rewrite elem_of_difference, elem_of_union, elem_of_singleton. split.
    - intros [[-> | Hx] Hne]; [contradiction | exact Hx].
    - intros Hx. split; [right; exact Hx | intros ->; contradiction]. }
  destruct groups as [gs|], lines as [ls|];
    cbn [Rev0.setFieldFilterState Rev0.applyFilters Rev0.selectedFields
         Rev0.selectedTypes Rev0.searchQuery Rev0.nodeGroups Rev0.linkElements
         Rev0.fieldFilterElements Rev0.clickedNode Rev0.hoveredNode Rev0.popup];
    rewrite ?Hset;
    (split; [reflexivity |]);
    (split; [intros d; apply rev0_filterOpacity_ext; cbn; auto |]);
    try (split; reflexivity).
  rewrite setNodeOpacities_again, filterLinks_again.
  match goal with
  | |- context [Rev0.opacityMapOf ?f (Rev0.setNodeOpacities ?m gs)] =>
      assert (Hmap : Rev0.opacityMapOf f (Rev0.setNodeOpacities m gs)
                     = Rev0.opacityMapOf
                         (Rev0.filterOpacity
                            {| Rev0.selectedTypes := types; Rev0.selectedFields := fields;
                               Rev0.fieldFilterElements := tags; Rev0.searchQuery := query;
                               Rev0.clickedNode := clicked; Rev0.hoveredNode := hovered;
                               Rev0.nodeGroups := Some gs; Rev0.linkElements := Some ls;
                               Rev0.popup := pop |}) gs)
  end.
  { apply opacityMapOf_ext.
    - intros d. apply rev0_filterOpacity_ext; cbn; auto.
    - apply setNodeOpacities_datum. }
  rewrite Hmap. split; reflexivity.
Qed.

Lemma C7_witness :
  let st := Rev0.toggleFieldFilter "dance"
              (rev0State ∅ ∅ "" (Rev0.normalizeData threeNodes)) in
  let st2 := Rev0.toggleFieldFilter "paint" (Rev0.toggleFieldFilter "paint" st) in
  Rev0.selectedFields st2 = Rev0.selectedFields st
  ∧ (∀ d, Rev0.filterOpacity st2 d = Rev0.filterOpacity st d)
  ∧ Rev0.nodeGroups st2 = Rev0.nodeGroups (Rev0.applyFilters st)
  ∧ Rev0.linkElements st2 = Rev0.linkElements (Rev0.applyFilters st).
Proof.
  cbv zeta.
  apply (C7_toggle_field_on_then_off_restores
           (Rev0.toggleFieldFilter "dance"
              (rev0State ∅ ∅ "" (Rev0.normalizeData threeNodes))) "paint").
  vm_compute. intros H. discriminate H.
Defined.

(** The toggles do change the picture in between: after the first toggle
    of "paint" on the three-node dataset, C is dimmed. *)
Lemma toggle_on_dims :
  rev0Opacities
    (Rev0.toggleFieldFilter "paint" (rev0State ∅ ∅ "" (Rev0.normalizeData threeNodes)))
  = Some [("A", Some 1%Q); ("B", Some 1%Q); ("C", Some (15 # 100)%Q)].
Proof. vm_compute. reflexivity. Qed.

(** ** Photo links *)

Lemma split_go_skip (sep : string) (k : nat) (cur s : string) :
  JsString.split_go sep k cur s = JsString.split_go sep 0 cur (PhotoSpec.drop k s).
Proof.
  revert k. induction s as [|c s IH]; intros [|k]; try reflexivity.
  cbn [JsString.split_go PhotoSpec.drop]. apply IH.
Qed.

Lemma includes_nil_sep (sep : string) :
  JsString.includes "" sep = true → sep = "".
Proof. destruct sep; [reflexivity | discriminate]. Qed.

(** The first piece of a split ends where the separator first occurs, and
    the remaining pieces are those of the text after that occurrence. *)
Lemma split_go_first (c0 : ascii) (sep0 cur s : string) :
  let sep := String c0 sep0 in
  JsString.includes s sep = true →
  ∃ before,
    JsString.split_go sep 0 cur s
    = (cur +:+ before) :: JsString.split_go sep 0 "" (PhotoSpec.afterFirst sep s).
Proof.
  intros sep. revert cur. induction s as [|c s IH]; intros cur Hinc.
  - apply includes_nil_sep in Hinc. discriminate Hinc.
  - cbn [JsString.includes] in Hinc.
    cbn [JsString.split_go PhotoSpec.afterFirst].
    destruct (String.prefix sep (String c s)) eqn:Hp.
    + exists "". rewrite sapp_nil_r, split_go_skip. subst sep.
      cbn [String.length PhotoSpec.drop]. rewrite Nat.sub_succ, Nat.sub_0_r.
      reflexivity.
    + cbn [orb] in Hinc. destruct (IH (cur +:+ String c "") Hinc) as [before Hb].
      exists (String c before). rewrite Hb, sapp_assoc. reflexivity.
Qed.

Lemma split_go_nonempty (sep : string) (k : nat) (cur s : string) :
  ∃ x l, JsString.split_go sep k cur s = x :: l.
Proof.
  revert k cur. induction s as [|c s IH]; intros k cur; [eexists _, _; reflexivity |].
  cbn [JsString.split_go]. destruct k as [|k]; [| apply IH].
  destruct (String.prefix sep (String c s)); [eexists _, _; reflexivity | apply IH].
Qed.

(** Splitting at a single character: the first piece stops at its first
    occurrence. *)
Lemma split_go_char_hd (c : ascii) (cur s : string) :
  hd "" (JsString.split_go (String c "") 0 cur s)
  = cur +:+ PhotoSpec.upTo (fun x => bool_decide (x = c)) s.
Proof.
  revert cur. induction s as [|x s IH]; intros cur.
  - cbn. rewrite sapp_nil_r. reflexivity.
  - cbn [JsString.split_go PhotoSpec.upTo String.prefix].
    destruct (ascii_dec c x) as [<- | Hne].
    + rewrite bool_decide_eq_true_2 by reflexivity.
      destruct s; cbn; rewrite sapp_nil_r; reflexivity.
    + rewrite bool_decide_eq_false_2 by congruence.
      rewrite IH, sapp_assoc. reflexivity.
Qed.

(** Cutting the first piece of a split at the separator's first character
    is cutting the whole text there. *)
Lemma upTo_split_go_hd (c0 : ascii) (sep0 s : string) :
  PhotoSpec.upTo (fun x => bool_decide (x = c0))
    (hd "" (JsString.split_go (String c0 sep0) 0 "" s))
  = PhotoSpec.upTo (fun x => bool_decide (x = c0)) s.
Proof.
  assert (Hgen : ∀ s cur,
             hd "" (JsString.split_go (String c0 sep0) 0 cur s)
             = cur +:+ hd "" (JsString.split_go (String c0 sep0) 0 "" s)).
  { clear s. induction s as [|x s IH]; intros cur.
    - cbn. rewrite sapp_nil_r. reflexivity.
    - cbn [JsString.split_go].
      destruct (String.prefix (String c0 sep0) (String x s)).
      + cbn. rewrite sapp_nil_r. reflexivity.
      + rewrite (IH (cur +:+ String x "")), (IH ("" +:+ String x "")).
        rewrite sapp_assoc. reflexivity. }
  induction s as [|x s IH]; [reflexivity |].
  cbn [JsString.split_go].
  destruct (String.prefix (String c0 sep0) (String x s)) eqn:Hp.
  - cbn [hd PhotoSpec.upTo]. cbn [String.prefix] in Hp.
    destruct (ascii_dec c0 x) as [<- | Hne]; [| discriminate Hp].
    rewrite bool_decide_eq_true_2 by reflexivity. reflexivity.
  - rewrite Hgen. change ("" +:+ String x "") with (String x "").
    rewrite sapp_cons. cbn [PhotoSpec.upTo].
    destruct (bool_decide (x = c0)); [reflexivity |].
    change ("" +:+ ?t) with t. rewrite IH. reflexivity.
Qed.

Lemma upTo_upTo (s : string) :
  PhotoSpec.upTo (fun x => bool_decide (x = "?"%char))
    (PhotoSpec.upTo (fun x => bool_decide (x = "/"%char)) s)
  = PhotoSpec.upTo PhotoSpec.isSlashOrQuery s.
Proof.
  induction s as [|x s IH]; [reflexivity |].
  cbn [PhotoSpec.upTo]. unfold PhotoSpec.isSlashOrQuery at 1.
  destruct (bool_decide (x = "/"%char)); [reflexivity |].
  cbn [PhotoSpec.upTo orb]. destruct (bool_decide (x = "?"%char)); [reflexivity |].
  rewrite IH. reflexivity.
Qed.

(** A text with a character that is not white space does not trim to the
    empty string. *)
Lemma trimEnd_nonempty (c : ascii) (pre post : string) :
  JsString.is_white c = false →
  JsString.trimEnd (pre +:+ String c post) ≠ "".
Proof.
  intros Hc. induction pre as [|x pre IH].
  - change ("" +:+ ?t) with t. cbn [JsString.trimEnd].
    destruct (JsString.trimEnd post); [rewrite Hc |]; discriminate.
  - rewrite sapp_cons. cbn [JsString.trimEnd].
    destruct (JsString.trimEnd (pre +:+ String c post)); [contradiction | discriminate].
Qed.

Lemma trimStart_keeps (c : ascii) (pre post : string) :
  JsString.is_white c = false →
  ∃ pre', JsString.trimStart (pre +:+ String c post) = pre' +:+ String c post.
Proof.
  intros Hc. induction pre as [|x pre IH].
  - exists "". change ("" +:+ ?t) with t. cbn [JsString.trimStart]. rewrite Hc. reflexivity.
  - rewrite sapp_cons. cbn [JsString.trimStart].
    destruct (JsString.is_white x); [exact IH |].
    exists (String x pre). reflexivity.
Qed.

Lemma trim_nonempty (c : ascii) (pre post : string) :
  JsString.is_white c = false →
  JsString.trim (pre +:+ String c post) ≠ "".
Proof.
  intros Hc. unfold JsString.trim.
  destruct (trimStart_keeps c pre post Hc) as [pre' ->].
  apply trimEnd_nonempty. exact Hc.
Qed.

Lemma drive_link_not_blank (s : string) :
  JsString.includes s "drive.google.com" = true →
  JsString.truthy (Some s) && negb (String.eqb (JsString.trim s) "") = true.
Proof.
  intros H. apply includes_spec in H. destruct H as (pre & post & ->).
  apply andb_true_iff. split.
  - destruct pre; reflexivity.
  - apply negb_true_iff, String.eqb_neq.
    change ("drive.google.com" +:+ post) with (String "d" ("rive.google.com" +:+ post)).
    apply trim_nonempty. reflexivity.
Qed.

(** C6.  The photo link computed for a row is the one the specification
    describes: a link that contains both "drive.google.com" and "/d/" becomes
    the thumbnail address whose file identifier is the text after the first
    "/d/" cut at the next "/" or "?"; any other link is kept as it is; an
    empty or absent link gives the empty string; and the share link of the
    example gives the thumbnail address of XYZ123. *)
Theorem C6_photo_link_normalization (v : option string) :
  Rev0.photoLink v = PhotoSpec.normalized v
  ∧ Rev0.photoLink None = ""
  ∧ Rev0.photoLink (Some "") = ""
  ∧ Rev0.photoLink (Some "https://drive.google.com/file/d/XYZ123/view?usp=sharing")
    = "https://drive.google.com/thumbnail?id=XYZ123&sz=w1000".
Proof.
  split; [| repeat split; reflexivity].
  destruct v as [s|]; [| reflexivity].
  unfold PhotoSpec.normalized, Rev0.photoLink.
  destruct s as [|c s]; [reflexivity |].
  cbn [JsString.or_default].
  destruct (JsString.includes (String c s) "drive.google.com") eqn:Hd.
  2:{ cbn [andb]. destruct (_ && _); reflexivity. }
  rewrite (drive_link_not_blank _ Hd).
  destruct (JsString.includes (String c s) "/d/") eqn:Hs; [| reflexivity].
  cbn [andb]. change (JsString.split ?x "/d/") with (JsString.split_go "/d/" 0 "" x).
  destruct (split_go_first "/" "d/" "" (String c s) Hs) as [before Hb].
  rewrite Hb.
  destruct (split_go_nonempty "/d/" 0 "" (PhotoSpec.afterFirst "/d/" (String c s)))
    as (x & l & Hx).
  assert (Hhd : x = hd "" (JsString.split_go "/d/" 0 ""
                             (PhotoSpec.afterFirst "/d/" (String c s))))
    by (rewrite Hx; reflexivity).
  rewrite Hx. cbn [length Nat.ltb Nat.leb nth].
  change (JsString.split ?y "/") with (JsString.split_go "/" 0 "" y).
  change (JsString.split ?y "?") with (JsString.split_go "?" 0 "" y).
  rewrite !split_go_char_hd, !sapp_nil_l.
  rewrite Hhd, upTo_split_go_hd, upTo_upTo. reflexivity.
Qed.

(** ** Graph builder *)

Lemma ltb_asym (a b : string) : String.ltb a b = true → String.ltb b a = false.
Proof.
  unfold String.ltb. rewrite (String.compare_antisym b a).
  destruct (String.compare a b); cbn; congruence.
Qed.

Lemma ltb_total (a b : string) :
  String.ltb a b = false → String.ltb b a = false → a = b.
Proof.
  unfold String.ltb. rewrite (String.compare_antisym b a).
  destruct (String.compare a b) eqn:H; cbn; try congruence.
  intros _ _. apply String.compare_eq_iff. exact H.
Qed.

(** Sorting makes the key independent of the order of the endpoints. *)
Lemma linkId_sym (a b : string) : linkId a b = linkId b a.
Proof.
  unfold linkId, JsString.sort2.
  destruct (String.ltb b a) eqn:Hba.
  - rewrite (ltb_asym _ _ Hba). reflexivity.
  - destruct (String.ltb a b) eqn:Hab; [reflexivity |].
    rewrite (ltb_total _ _ Hab Hba). reflexivity.
Qed.

Lemma joins_key (a b : string) (e : Link) : joins a b e → keyOf e = linkId a b.
Proof.
  unfold keyOf. intros [[-> ->] | [-> ->]]; [reflexivity | apply linkId_sym].
Qed.

Lemma foldl_declarations (m : gmap string Node.t) (ns : list Node.t)
    (acc : gset string * list Link) :
  foldl (addLinksOf m) acc ns
  = foldl (fun acc d => addLink m d.1 acc d.2) acc (declarations ns).
Proof.
  revert acc. induction ns as [|n ns IH]; intros acc; [reflexivity |].
  cbn [foldl declarations flat_map]. rewrite foldl_app, <- IH. f_equal.
  unfold addLinksOf. generalize (Node.connectedProjects n). clear.
  intros cs. revert acc. induction cs as [|c cs IH]; intros acc; [reflexivity |].
  cbn [foldl map]. apply IH.
Qed.

Lemma buildProjectMap_lookup (ns : list Node.t) (c : string) (t : Node.t) :
  buildProjectMap ns !! c = Some t → t ∈ ns ∧ Node.id t = c.
Proof.
  unfold buildProjectMap.
  assert (H : ∀ (m : gmap string Node.t),
             (∀ k v, m !! k = Some v → v ∈ ns ∧ Node.id v = k) →
             ∀ l, (∀ n, n ∈ l → n ∈ ns) →
             ∀ k v, foldl (fun m n => <[ Node.id n := n ]> m) m l !! k = Some v →
                    v ∈ ns ∧ Node.id v = k).
  { intros m Hm l. revert m Hm. induction l as [|n l IH]; intros m Hm Hl k v.
    - apply Hm.
    - cbn [foldl]. apply IH.
      + intros k' v'. destruct (decide (Node.id n = k')) as [<- | Hne].
        * rewrite lookup_insert_eq. intros [= <-]. split; [apply Hl; left | reflexivity].
        * rewrite lookup_insert_ne by exact Hne. apply Hm.
      + intros n' Hn'. apply Hl. right. exact Hn'. }
  apply (H ∅); [| auto].
  intros k v Hkv. rewrite lookup_empty in Hkv. discriminate Hkv.
Qed.

(** Every name that is the id of a node resolves, to a node of that id. *)
Lemma buildProjectMap_resolves (ns : list Node.t) (n : Node.t) :
  n ∈ ns → ∃ t, buildProjectMap ns !! Node.id n = Some t ∧ Node.id t = Node.id n.
Proof.
  intros Hn.
  assert (H : ∀ l (m : gmap string Node.t),
             (n ∈ l ∨ is_Some (m !! Node.id n)) →
             is_Some (foldl (fun m n => <[ Node.id n := n ]> m) m l !! Node.id n)).
  { induction l as [|x l IH]; intros m [Hl | Hm].
    - apply elem_of_nil in Hl. contradiction.
    - exact Hm.
    - cbn [foldl]. apply IH. apply elem_of_cons in Hl as [-> | Hl].
      + right. rewrite lookup_insert_eq. eauto.
      + left. exact Hl.
    - cbn [foldl]. apply IH. right.
      destruct (decide (Node.id x = Node.id n)) as [-> | Hne].
      + rewrite lookup_insert_eq. eauto.
      + rewrite lookup_insert_ne by exact Hne. exact Hm. }
  destruct (H ns ∅ (or_introl Hn)) as [t Ht]. exists t. split; [exact Ht |].
  apply (buildProjectMap_lookup ns). exact Ht.
Qed.

Section Builder.
Variable m : gmap string Node.t.

Lemma builderInv_init : builderInv (∅, []).
Proof.
  split; [| split].
  - intros l Hl. apply elem_of_nil in Hl. contradiction.
  - intros k. split.
    + intros Hk. apply not_elem_of_empty in Hk. contradiction.
    + intros (l & Hl & _). apply elem_of_nil in Hl. contradiction.
  - constructor.
Qed.

Lemma addLink_cases (n : Node.t) (acc : gset string * list Link) (c : string) :
  addLink m n acc c = acc
  ∨ ∃ t, m !! c = Some t ∧ Node.id t ≠ Node.id n
         ∧ (linkId (Node.id n) (Node.id t) ∉ acc.1)
         ∧ (addLink m n acc c
            = ({[ linkId (Node.id n) (Node.id t) ]} ∪ acc.1,
               acc.2 ++ [ {| source := Node.id n; target := Node.id t |} ])).
Proof.
  unfold addLink. destruct (m !! c) as [t|]; [| left; reflexivity].
  destruct (bool_decide (Node.id t ≠ Node.id n)) eqn:Hne; [| left; reflexivity].
  destruct (bool_decide (linkId (Node.id n) (Node.id t) ∈ acc.1)) eqn:Hin;
    [left; reflexivity |].
  right. exists t. apply bool_decide_eq_true in Hne.
  apply bool_decide_eq_false in Hin. auto.
Qed.

Lemma addLink_inv (n : Node.t) (acc : gset string * list Link) (c : string) :
  builderInv acc → builderInv (addLink m n acc c).
Proof.
  intros (Hloop & Hset & Hnd).
  destruct (addLink_cases n acc c) as [-> | (t & _ & Hne & Hnew & ->)];
    [repeat split; assumption || apply Hset |].
  split; [| split]; cbn [fst snd].
  - intros l Hl. apply elem_of_app in Hl as [Hl | Hl]; [apply Hloop; exact Hl |].
    apply list_elem_of_singleton in Hl as ->. cbn. congruence.
  - intros k. rewrite elem_of_union, elem_of_singleton, Hset. split.
    + intros [-> | (l & Hl & ->)].
      * eexists. split; [apply elem_of_app; right; left | reflexivity].
      * exists l. split; [apply elem_of_app; left; exact Hl | reflexivity].
    + intros (l & Hl & ->). apply elem_of_app in Hl as [Hl | Hl].
      * right. exists l. auto.
      * apply list_elem_of_singleton in Hl as ->. left. reflexivity.
  - rewrite map_app. apply NoDup_app. split; [exact Hnd | split].
    + intros k Hk Hk'. apply list_elem_of_singleton in Hk' as ->.
      apply Hnew, Hset. apply list_elem_of_fmap in Hk as (l & Hkl & Hl).
      exists l. split; [exact Hl | exact Hkl].
    + apply NoDup_singleton.
Qed.

Lemma fold_inv (ds : list (Node.t * string)) (acc : gset string * list Link) :
  builderInv acc →
  builderInv (foldl (fun acc d => addLink m d.1 acc d.2) acc ds).
Proof.
  revert acc. induction ds as [|d ds IH]; intros acc H; [exact H |].
  cbn [foldl]. apply IH, addLink_inv, H.
Qed.

(** Keys are never removed from [linkSet]. *)
Lemma addLink_mono (n : Node.t) (acc : gset string * list Link) (c k : string) :
  k ∈ acc.1 → k ∈ (addLink m n acc c).1.
Proof.
  intros Hk. destruct (addLink_cases n acc c) as [-> | (t & _ & _ & _ & ->)];
    [exact Hk |].
  cbn [fst]. apply elem_of_union. right. exact Hk.
Qed.

Lemma fold_mono (ds : list (Node.t * string)) (acc : gset string * list Link)
    (k : string) :
  k ∈ acc.1 → k ∈ (foldl (fun acc d => addLink m d.1 acc d.2) acc ds).1.
Proof.
  revert acc. induction ds as [|d ds IH]; intros acc H; [exact H |].
  cbn [foldl]. apply IH, addLink_mono, H.
Qed.

(** Once a declaration that resolves to another node has been visited,
    its key is in [linkSet]. *)
Lemma addLink_records (n t : Node.t) (acc : gset string * list Link) (c : string) :
  m !! c = Some t → Node.id t ≠ Node.id n →
  linkId (Node.id n) (Node.id t) ∈ (addLink m n acc c).1.
Proof.
  intros Ht Hne. unfold addLink. rewrite Ht.
  rewrite bool_decide_eq_true_2 by exact Hne.
  destruct (bool_decide (linkId (Node.id n) (Node.id t) ∈ acc.1)) eqn:Hin.
  - apply bool_decide_eq_true in Hin. exact Hin.
  - cbn [fst]. apply elem_of_union. left. apply elem_of_singleton. reflexivity.
Qed.

Lemma fold_records (ds : list (Node.t * string)) (acc : gset string * list Link)
    (n t : Node.t) (c : string) :
  (n, c) ∈ ds → m !! c = Some t → Node.id t ≠ Node.id n →
  linkId (Node.id n) (Node.id t)
  ∈ (foldl (fun acc d => addLink m d.1 acc d.2) acc ds).1.
Proof.
  revert acc. induction ds as [|d ds IH]; intros acc Hin Ht Hne.
  - apply elem_of_nil in Hin. contradiction.
  - cbn [foldl]. apply elem_of_cons in Hin as [<- | Hin].
    + apply fold_mono. cbn [fst snd]. apply addLink_records; assumption.
    + apply IH; assumption.
Qed.

(** Both endpoints of every link are ids of nodes that were visited or
    resolved. *)
Lemma fold_endpoints (P : string → Prop) (ds : list (Node.t * string))
    (acc : gset string * list Link) :
  (∀ d, d ∈ ds → P (Node.id d.1)) →
  (∀ c t, m !! c = Some t → P (Node.id t)) →
  (∀ l, l ∈ acc.2 → P (source l) ∧ P (target l)) →
  ∀ l, l ∈ (foldl (fun acc d => addLink m d.1 acc d.2) acc ds).2 →
       P (source l) ∧ P (target l).
Proof.
  intros Hds Hm. revert acc. induction ds as [|d ds IH]; intros acc Hacc; [exact Hacc |].
  cbn [foldl]. apply IH.
  - intros d' Hd'. apply Hds. right. exact Hd'.
  - destruct (addLink_cases d.1 acc d.2) as [-> | (t & Ht & _ & _ & ->)];
      [exact Hacc |].
    cbn [snd]. intros l Hl. apply elem_of_app in Hl as [Hl | Hl]; [apply Hacc, Hl |].
    apply list_elem_of_singleton in Hl as ->. cbn. split.
    + apply Hds. left.
    + apply (Hm _ _ Ht).
Qed.
End Builder.

Lemma buildLinks_inv (ns : list Node.t) :
  ∃ linkSet, builderInv (linkSet, buildLinks ns)
             ∧ ∀ n t c, (n, c) ∈ declarations ns →
                        buildProjectMap ns !! c = Some t → Node.id t ≠ Node.id n →
                        linkId (Node.id n) (Node.id t) ∈ linkSet.
Proof.
  unfold buildLinks. rewrite foldl_declarations.
  exists (foldl (fun acc d => addLink (buildProjectMap ns) d.1 acc d.2) (∅, [])
            (declarations ns)).1.
  split.
  - rewrite <- surjective_pairing. apply fold_inv, builderInv_init.
  - intros n t c. apply fold_records.
Qed.

(** No edge joins a node to itself. *)
Lemma buildLinks_no_self_loops (ns : list Node.t) (e : Link) :
  e ∈ buildLinks ns → source e ≠ target e.
Proof.
  destruct (buildLinks_inv ns) as (S & (Hloop & _) & _). apply Hloop.
Qed.

(** No two edges join the same unordered pair of ids. *)
Lemma buildLinks_no_duplicate_pairs (ns : list Node.t) (i j : nat) (e1 e2 : Link) :
  buildLinks ns !! i = Some e1 →
  buildLinks ns !! j = Some e2 →
  joins (source e1) (target e1) e2 →
  i = j.
Proof.
  intros H1 H2 Hj.
  destruct (buildLinks_inv ns) as (S & (_ & _ & Hnd) & _). cbn [snd] in Hnd.
  apply (NoDup_lookup _ i j (keyOf e1) Hnd).
  - rewrite list_lookup_fmap, H1. reflexivity.
  - rewrite list_lookup_fmap, H2. cbn. f_equal. apply joins_key. exact Hj.
Qed.

Lemma declarations_elem (ns : list Node.t) (n : Node.t) (c : string) :
  (n, c) ∈ declarations ns ↔ n ∈ ns ∧ c ∈ Node.connectedProjects n.
Proof.
  unfold declarations. rewrite list_elem_of_In, in_flat_map. split.
  - intros (x & Hx & Hc). apply in_map_iff in Hc as (c' & [= <- <-] & Hc').
    split; apply list_elem_of_In; assumption.
  - intros [Hn Hc]. exists n. split; [apply list_elem_of_In, Hn |].
    apply in_map_iff. exists c. split; [reflexivity | apply list_elem_of_In, Hc].
Qed.

(** The endpoints of every edge are ids of nodes of the dataset. *)
Lemma buildLinks_endpoints (P : string → Prop) (ns : list Node.t) (e : Link) :
  (∀ x, x ∈ ns → P (Node.id x)) →
  e ∈ buildLinks ns → P (source e) ∧ P (target e).
Proof.
  intros HP. unfold buildLinks. rewrite foldl_declarations.
  apply (fold_endpoints (buildProjectMap ns) P).
  - intros [n c] Hd. apply declarations_elem in Hd as [Hn _]. apply HP, Hn.
  - intros c t Ht. apply buildProjectMap_lookup in Ht as [Ht _]. apply HP, Ht.
  - intros l Hl. apply elem_of_nil in Hl. contradiction.
Qed.

Lemma noBar_cons (x : ascii) (s : string) :
  noBar (String x s) → x ≠ "|"%char ∧ noBar s.
Proof.
  unfold noBar. cbn [JsString.includes String.prefix].
  destruct (ascii_dec "|" x) as [<- | Hne].
  - destruct s; discriminate.
  - cbn [orb]. intros H. split; [congruence | exact H].
Qed.

(** Joining with the separator is injective on names free of it. *)
Lemma join_bar_inj (a b c d : string) :
  noBar a → noBar c →
  a +:+ "|" +:+ b = c +:+ "|" +:+ d → a = c ∧ b = d.
Proof.
  revert c. induction a as [|x a IH]; intros [|y c] Ha Hc H.
  - rewrite !sapp_nil_l in H. injection H as H. auto.
  - rewrite sapp_nil_l, sapp_cons in H. injection H as Hy _.
    apply noBar_cons in Hc as [Hc _]. congruence.
  - rewrite sapp_nil_l, sapp_cons in H. injection H as Hx _.
    apply noBar_cons in Ha as [Ha _]. congruence.
  - rewrite !sapp_cons in H. injection H as -> H.
    apply noBar_cons in Ha as [_ Ha]. apply noBar_cons in Hc as [_ Hc].
    destruct (IH c Ha Hc H) as [-> ->]. auto.
Qed.

Lemma linkId_join (a b : string) :
  (linkId a b = a +:+ "|" +:+ b) ∨ (linkId a b = b +:+ "|" +:+ a).
Proof.
  unfold linkId, JsString.sort2. destruct (String.ltb b a); [right | left]; reflexivity.
Qed.

(** On names free of the separator, equal keys mean the same unordered
    pair. *)
Lemma linkId_inj (a b c d : string) :
  noBar a → noBar b → noBar c → noBar d →
  linkId a b = linkId c d → (a = c ∧ b = d) ∨ (a = d ∧ b = c).
Proof.
  intros Ha Hb Hc Hd H.
  destruct (linkId_join a b) as [E1 | E1], (linkId_join c d) as [E2 | E2];
    rewrite E1, E2 in H; apply join_bar_inj in H; try assumption;
    destruct H as [-> ->]; auto.
Qed.

(** When no project name contains the separator, a declared connection
    that resolves to another node has an edge. *)
Lemma buildLinks_edge_exists (ns : list Node.t) (n t : Node.t) (c : string) :
  (∀ x, x ∈ ns → noBar (Node.id x)) →
  n ∈ ns → c ∈ Node.connectedProjects n →
  buildProjectMap ns !! c = Some t → Node.id t ≠ Node.id n →
  ∃ e, e ∈ buildLinks ns ∧ joins (Node.id n) (Node.id t) e.
Proof.
  intros Hbar Hn Hc Ht Hne.
  destruct (buildLinks_inv ns) as (S & (_ & Hset & _) & Hrec). cbn [fst snd] in Hset.
  assert (Hk : linkId (Node.id n) (Node.id t) ∈ S).
  { apply (Hrec n t c); [apply declarations_elem; auto | exact Ht | exact Hne]. }
  apply Hset in Hk as (e & He & Hk). exists e. split; [exact He |].
  destruct (buildLinks_endpoints noBar ns e Hbar He) as [Hs Htg].
  apply buildProjectMap_lookup in Ht as [Ht _].
  unfold keyOf in Hk. symmetry in Hk.
  apply linkId_inj in Hk; [| exact Hs | exact Htg | apply Hbar, Hn | apply Hbar, Ht].
  destruct Hk as [[H1 H2] | [H1 H2]]; [left | right]; split; assumption.
Qed.

Lemma joins_same (a b : string) (e e' : Link) :
  joins a b e → joins a b e' → joins (source e) (target e) e'.
Proof.
  intros [[<- <-] | [<- <-]] [[H1 H2] | [H1 H2]]; unfold joins; auto.
Qed.

Lemma joins_swap (a b : string) (e : Link) : joins a b e → joins b a e.
Proof. unfold joins. tauto. Qed.

(** When no project name contains the separator, a connection between two
    distinct nodes, declared by the one, by the other or by both, yields
    exactly one edge. *)
Lemma buildLinks_exactly_one_edge (ns : list Node.t) (x y : Node.t) :
  (∀ n, n ∈ ns → noBar (Node.id n)) →
  x ∈ ns → y ∈ ns → Node.id x ≠ Node.id y →
  Node.id y ∈ Node.connectedProjects x ∨ Node.id x ∈ Node.connectedProjects y →
  ∃ i e, buildLinks ns !! i = Some e
         ∧ joins (Node.id x) (Node.id y) e
         ∧ ∀ j e', buildLinks ns !! j = Some e' →
                   joins (Node.id x) (Node.id y) e' → j = i.
Proof.
  intros Hbar Hx Hy Hne Hdecl.
  assert (Hex : ∃ e, e ∈ buildLinks ns ∧ joins (Node.id x) (Node.id y) e).
  { destruct Hdecl as [Hd | Hd].
    - destruct (buildProjectMap_resolves ns y Hy) as (t & Ht & Hid).
      destruct (buildLinks_edge_exists ns x t (Node.id y) Hbar Hx Hd Ht) as (e & He & Hj).
      + congruence.
      + exists e. rewrite Hid in Hj. auto.
    - destruct (buildProjectMap_resolves ns x Hx) as (t & Ht & Hid).
      destruct (buildLinks_edge_exists ns y t (Node.id x) Hbar Hy Hd Ht) as (e & He & Hj).
      + congruence.
      + exists e. rewrite Hid in Hj. split; [exact He | apply joins_swap, Hj]. }
  destruct Hex as (e & He & Hj).
  apply list_elem_of_lookup in He as [i Hi].
  exists i, e. split; [exact Hi | split; [exact Hj |]].
  intros j e' Hj' Hjoin. symmetry.
  apply (buildLinks_no_duplicate_pairs ns i j e e' Hi Hj').
  apply (joins_same _ _ _ _ Hj Hjoin).
Qed.

(** C1.  The code departs from the claim on names that contain the
    separator of the link key.  In the dataset [barNames] the project "a"
    declares "b|c" and the project "a|b" declares "c"; both declarations
    resolve to another node, yet the two pairs share the key "a|b|c", so
    only the first edge is emitted and no edge joins "a|b" and "c". *)
Theorem C1_separator_collision_drops_an_edge :
  let data := Main.normalizeData barNames in
  links data = [ {| source := "a"; target := "b|c" |} ]
  ∧ (∃ x y, x ∈ nodes data ∧ y ∈ nodes data
            ∧ Node.id x = "a|b" ∧ Node.id y = "c"
            ∧ Node.id y ∈ Node.connectedProjects x
            ∧ buildProjectMap (nodes data) !! "c" = Some y)
  ∧ linkId "a" "b|c" = linkId "a|b" "c"
  ∧ ¬ ∃ e, e ∈ links data ∧ joins "a|b" "c" e.
Proof.
  cbv zeta.
  assert (Hl : links (Main.normalizeData barNames)
               = [ {| source := "a"; target := "b|c" |} ])
    by (vm_compute; reflexivity).
  split; [exact Hl |]. split; [| split].
  - exists (Main.nodeOfRow (mkRow "a|b" "Art" "" "c")),
           (Main.nodeOfRow (mkRow "c" "Art" "" "")).
    split; [do 2 right; left |].
    split; [do 3 right; left |].
    split; [reflexivity |]. split; [reflexivity |].
    split; [vm_compute; left | vm_compute; reflexivity].
  - vm_compute. reflexivity.
  - intros (e & He & Hj). rewrite Hl in He.
    apply list_elem_of_singleton in He as ->.
    destruct Hj as [[H _] | [H _]]; cbn in H; discriminate H.
Qed.

(** * Further properties of the code *)

(** ** Graph builder, on every dataset *)

Lemma in_pair_l (a b : string) : a ∈ ({[ a; b ]} : gset string).
Proof. apply elem_of_union. left. apply elem_of_singleton. reflexivity. Qed.

Lemma in_pair_r (a b : string) : b ∈ ({[ a; b ]} : gset string).
Proof. apply elem_of_union. right. apply elem_of_singleton. reflexivity. Qed.

Lemma endpoints_joins (e1 e2 : Link) :
  endpoints e1 = endpoints e2 → joins (source e1) (target e1) e2.
Proof.
  unfold endpoints, joins. intros H.
  pose proof (in_pair_l (source e2) (target e2)) as H1.
  pose proof (in_pair_r (source e2) (target e2)) as H2.
  pose proof (in_pair_l (source e1) (target e1)) as H3.
  pose proof (in_pair_r (source e1) (target e1)) as H4.
  rewrite <- H in H1, H2. rewrite H in H3, H4.
  apply elem_of_union in H1, H2, H3, H4.
  rewrite !elem_of_singleton in H1, H2, H3, H4.
  destruct H1, H2, H3, H4; auto; left; split; congruence.
Qed.

Lemma NoDup_fmap_coarser {A B C : Type} (f : A → B) (g : A → C) (l : list A) :
  (∀ x y, g x = g y → f x = f y) → NoDup (f <$> l) → NoDup (g <$> l).
Proof.
  intros Hfg. induction l as [|x l IH]; intros Hnd; [constructor |].
  cbn in *. apply NoDup_cons in Hnd as [Hx Hnd]. apply NoDup_cons. split.
  - intros Hin. apply Hx. apply list_elem_of_fmap in Hin as (y & Hy & Hin).
    apply list_elem_of_fmap. exists y. split; [apply Hfg, Hy | exact Hin].
  - apply IH, Hnd.
Qed.

(** X1.  On every dataset, in both revisions, no edge of [normalizeData]
    joins a node to itself. *)
Theorem X1_links_have_no_self_loops (csvData : list Row) :
  Forall (fun e => source e ≠ target e) (links (Main.normalizeData csvData))
  ∧ Forall (fun e => source e ≠ target e) (links (Rev0.normalizeData csvData)).
Proof.
  split; apply Forall_forall; intros e He; eapply buildLinks_no_self_loops, He.
Qed.

(** X2.  On every dataset, in both revisions, no two edges of
    [normalizeData] join the same unordered pair of ids, whether the
    connection was declared by one endpoint or by both. *)
Theorem X2_links_have_no_duplicate_pairs (csvData : list Row) :
  NoDup (endpoints <$> links (Main.normalizeData csvData))
  ∧ NoDup (endpoints <$> links (Rev0.normalizeData csvData)).
Proof.
  assert (H : ∀ ns, NoDup (endpoints <$> buildLinks ns)).
  { intros ns. destruct (buildLinks_inv ns) as (S & (_ & _ & Hnd) & _).
    cbn [snd] in Hnd. apply (NoDup_fmap_coarser keyOf); [| exact Hnd].
    intros x y Hxy. symmetry. apply joins_key, endpoints_joins, Hxy. }
  split; apply H.
Qed.

Lemma fold_links_origin (m : gmap string Node.t) (P : Link → Prop)
    (ds : list (Node.t * string)) (acc : gset string * list Link) :
  (∀ d t, d ∈ ds → m !! d.2 = Some t →
          P {| source := Node.id d.1; target := Node.id t |}) →
  (∀ l, l ∈ acc.2 → P l) →
  ∀ l, l ∈ (foldl (fun acc d => addLink m d.1 acc d.2) acc ds).2 → P l.
Proof.
  revert acc. induction ds as [|d ds IH]; intros acc Hds Hacc; [exact Hacc |].
  cbn [foldl]. apply IH.
  - intros d' t Hd'. apply Hds. right. exact Hd'.
  - destruct (addLink_cases m d.1 acc d.2) as [-> | (t & Ht & _ & _ & ->)];
      [exact Hacc |].
    cbn [snd]. intros l Hl. apply elem_of_app in Hl as [Hl | Hl]; [apply Hacc, Hl |].
    apply list_elem_of_singleton in Hl as ->. apply Hds; [left | exact Ht].
Qed.

Lemma buildLinks_declared (ns : list Node.t) (e : Link) :
  e ∈ buildLinks ns → declaredIn ns e.
Proof.
  unfold buildLinks. rewrite foldl_declarations.
  apply (fold_links_origin (buildProjectMap ns) (declaredIn ns)).
  - intros [n c] t Hd Ht. cbn [fst snd] in *.
    apply declarations_elem in Hd as [Hn Hc].
    apply buildProjectMap_lookup in Ht as [Ht Hid].
    split; [exists n | exists t]; cbn; rewrite ?Hid; auto.
  - intros l Hl. apply elem_of_nil in Hl. contradiction.
Qed.

(** X3.  Every edge of [normalizeData] was declared and resolves: its
    source is a node that lists the target among its connected projects,
    and the target is the id of a node of the dataset.  A name that matches
    no project never becomes an endpoint. *)
Theorem X3_links_are_declared_and_resolved (csvData : list Row) :
  Forall (declaredIn (nodes (Main.normalizeData csvData)))
    (links (Main.normalizeData csvData))
  ∧ Forall (declaredIn (nodes (Rev0.normalizeData csvData)))
      (links (Rev0.normalizeData csvData)).
Proof.
  split; apply Forall_forall; intros e He; apply buildLinks_declared, He.
Qed.

(** X4.  In a dataset none of whose project names contains the character
    "|", a connection between two nodes of different ids that is declared by
    the one, by the other or by both yields exactly one edge. *)
Theorem X4_exactly_one_edge_without_separator
    (csvData : list Row) (x y : Node.t) :
  let data := Main.normalizeData csvData in
  Forall (fun n => noBar (Node.id n)) (nodes data) →
  x ∈ nodes data → y ∈ nodes data → Node.id x ≠ Node.id y →
  Node.id y ∈ Node.connectedProjects x ∨ Node.id x ∈ Node.connectedProjects y →
  ∃ i e, links data !! i = Some e
         ∧ joins (Node.id x) (Node.id y) e
         ∧ ∀ j e', links data !! j = Some e' →
                   joins (Node.id x) (Node.id y) e' → j = i.
Proof.
  intros data Hbar Hx Hy Hne Hdecl.
  apply (buildLinks_exactly_one_edge (nodes data) x y); try assumption.
  apply Forall_forall. exact Hbar.
Qed.

Lemma X4_witness :
  let data := Main.normalizeData threeNodes in
  ∃ i e, links data !! i = Some e
         ∧ joins "B" "C" e
         ∧ ∀ j e', links data !! j = Some e' → joins "B" "C" e' → j = i.
Proof.
  cbv zeta.
  apply (X4_exactly_one_edge_without_separator threeNodes
           (Main.nodeOfRow (mkRow "B" "Music" "paint" "A,C"))
           (Main.nodeOfRow (mkRow "C" "Music" "dance" ""))).
  - repeat constructor.
  - right. left.
  - right. right. left.
  - cbn. discriminate.
  - left. vm_compute. right. left.
Defined.

(** ** Data loader *)

Lemma trimStart_startsClean (s : string) : startsClean (JsString.trimStart s).
Proof.
  induction s as [|c s IH]; [exact I |].
  cbn [JsString.trimStart]. destruct (JsString.is_white c) eqn:Hc; [exact IH | exact Hc].
Qed.

Lemma trimStart_fixed (s : string) : startsClean s → JsString.trimStart s = s.
Proof. destruct s as [|c s]; [reflexivity |]. cbn. intros ->. reflexivity. Qed.

Lemma trimEnd_startsClean (s : string) : startsClean s → startsClean (JsString.trimEnd s).
Proof.
  destruct s as [|c s]; [exact (fun H => H) |]. cbn [startsClean JsString.trimEnd].
  intros Hc. destruct (JsString.trimEnd s); [rewrite Hc |]; exact Hc.
Qed.

Lemma trimEnd_idem (s : string) :
  JsString.trimEnd (JsString.trimEnd s) = JsString.trimEnd s.
Proof.
  induction s as [|c s IH]; [reflexivity |].
  cbn [JsString.trimEnd]. destruct (JsString.trimEnd s) as [|c' r] eqn:Hr.
  - destruct (JsString.is_white c) eqn:Hc; [reflexivity |].
    cbn [JsString.trimEnd]. rewrite Hc. reflexivity.
  - cbn [JsString.trimEnd]. cbn [JsString.trimEnd] in IH.
    destruct (JsString.trimEnd r) as [|c'' r'] eqn:Hr'.
    + destruct (JsString.is_white c'); [discriminate IH |].
      injection IH as <-. reflexivity.
    + injection IH as <-. reflexivity.
Qed.

(** Trimming twice is trimming once. *)
Lemma trim_idem (s : string) : JsString.trim (JsString.trim s) = JsString.trim s.
Proof.
  unfold JsString.trim.
  rewrite (trimStart_fixed (JsString.trimEnd (JsString.trimStart s))).
  - apply trimEnd_idem.
  - apply trimEnd_startsClean, trimStart_startsClean.
Qed.

(** X5.  Every token that the loader keeps from a multi-valued column
    (fields, schedule, connected projects) is non-empty and carries no white
    space at either end; an absent or empty column gives no token, and blank
    tokens between commas are dropped. *)
Theorem X5_column_tokens_are_clean (v : option string) :
  Forall cleanToken (splitColumn v)
  ∧ splitColumn None = []
  ∧ splitColumn (Some "") = []
  ∧ splitColumn (Some " a ,, b c ,  ") = ["a"; "b c"].
Proof.
  split; [| repeat split; reflexivity].
  destruct v as [[|c s]|]; try constructor.
  unfold splitColumn. apply Forall_forall. intros x Hx.
  apply list_elem_of_In, filter_In in Hx as [Hin Hlen].
  apply in_map_iff in Hin as (y & <- & _). split.
  - intros H. rewrite H in Hlen. discriminate Hlen.
  - apply trim_idem.
Qed.

(** X6.  Whatever the [scale] column holds, the scale of the node is a
    number other than zero, never [NaN]: an absent, unparsable or zero value
    is replaced by 1. *)
Theorem X6_node_scale_is_never_nan_or_zero (row : Row) :
  usableScale (Node.scale (Main.nodeOfRow row))
  ∧ usableScale (Node.scale (Rev0.nodeOfRow row))
  ∧ Node.scale (Main.nodeOfRow (mkRow "A" "Art" "" "")) = JsNumber.Num 1.
Proof.
  assert (H : usableScale
                (JsNumber.or_default (JsNumber.parseFloat (row_scale row))
                   (JsNumber.Num 1))).
  { unfold JsNumber.or_default.
    destruct (JsNumber.parseFloat (row_scale row)) as [|q|b]; cbn.
    - discriminate.
    - destruct (Qeq_bool q 0) eqn:Hq; cbn; [discriminate |].
      apply Qeq_bool_neq. exact Hq.
    - exact I. }
  split; [exact H | split; [exact H | reflexivity]].
Qed.

(** The photo link of a row follows the rule of [PhotoSpec]. *)
Lemma photoLink_normalized (v : option string) :
  Rev0.photoLink v = PhotoSpec.normalized v.
Proof.
  destruct v as [s|]; [| reflexivity].
  unfold PhotoSpec.normalized, Rev0.photoLink.
  destruct s as [|c s]; [reflexivity |].
  cbn [JsString.or_default].
  destruct (JsString.includes (String c s) "drive.google.com") eqn:Hd.
  2:{ cbn [andb]. destruct (_ && _); reflexivity. }
  rewrite (drive_link_not_blank _ Hd).
  destruct (JsString.includes (String c s) "/d/") eqn:Hs; [| reflexivity].
  cbn [andb]. change (JsString.split ?x "/d/") with (JsString.split_go "/d/" 0 "" x).
  destruct (split_go_first "/" "d/" "" (String c s) Hs) as [before Hb].
  rewrite Hb.
  destruct (split_go_nonempty "/d/" 0 "" (PhotoSpec.afterFirst "/d/" (String c s)))
    as (x & l & Hx).
  assert (Hhd : x = hd "" (JsString.split_go "/d/" 0 ""
                             (PhotoSpec.afterFirst "/d/" (String c s))))
    by (rewrite Hx; reflexivity).
  rewrite Hx. cbn [length Nat.ltb Nat.leb nth].
  change (JsString.split ?y "/") with (JsString.split_go "/" 0 "" y).
  change (JsString.split ?y "?") with (JsString.split_go "?" 0 "" y).
  rewrite !split_go_char_hd, !sapp_nil_l.
  rewrite Hhd, upTo_split_go_hd, upTo_upTo. reflexivity.
Qed.

Lemma upTo_no_slash (s : string) :
  Forall (fun c => c ≠ "/"%char)
    (String.list_ascii_of_string (PhotoSpec.upTo PhotoSpec.isSlashOrQuery s)).
Proof.
  induction s as [|c s IH]; [constructor |].
  cbn [PhotoSpec.upTo]. unfold PhotoSpec.isSlashOrQuery at 1.
  destruct (bool_decide (c = "/"%char)) eqn:Hc; [constructor |].
  cbn [orb]. destruct (bool_decide (c = "?"%char)); [constructor |].
  cbn. constructor; [| exact IH]. apply bool_decide_eq_false in Hc. exact Hc.
Qed.

Lemma no_slash_no_sep (s : string) :
  Forall (fun c => c ≠ "/"%char) (String.list_ascii_of_string s) →
  JsString.includes (s +:+ "&sz=w1000") "/d/" = false.
Proof.
  induction s as [|c s IH]; intros H; [reflexivity |].
  apply Forall_cons in H as [Hc H]. rewrite sapp_cons.
  cbn [JsString.includes String.prefix].
  destruct (ascii_dec "/" c) as [<- | _]; [contradiction |].
  cbn [orb]. apply IH, H.
Qed.

Lemma thumbnail_no_sep (s : string) :
  JsString.includes
    (PhotoSpec.thumbnail (PhotoSpec.upTo PhotoSpec.isSlashOrQuery s)) "/d/" = false.
Proof.
  unfold PhotoSpec.thumbnail.
  pose proof (no_slash_no_sep _ (upTo_no_slash s)) as H.
  revert H. generalize (PhotoSpec.upTo PhotoSpec.isSlashOrQuery s +:+ "&sz=w1000").
  intros t Ht.
  change ("https://drive.google.com/thumbnail?id=" +:+ t)
    with (String "h" (String "t" (String "t" (String "p" (String "s" (String ":"
          (String "/" (String "/" (String "d" (String "r" (String "i" (String "v"
          (String "e" (String "." (String "g" (String "o" (String "o" (String "g"
          (String "l" (String "e" (String "." (String "c" (String "o" (String "m"
          (String "/" (String "t" (String "h" (String "u" (String "m" (String "b"
          (String "n" (String "a" (String "i" (String "l" (String "?" (String "i"
          (String "d" (String "=" t)))))))))))))))))))))))))))))))))))))).
  cbn. exact Ht.
Qed.

(** X7.  Photo-link rewriting is idempotent: the link stored in a node is
    left as it is when it is run through the rewriting again, so a thumbnail
    address is never rewritten a second time. *)
Theorem X7_photo_link_rewriting_is_idempotent (v : option string) :
  Rev0.photoLink (Some (Rev0.photoLink v)) = Rev0.photoLink v.
Proof.
  rewrite !photoLink_normalized.
  destruct v as [s|]; [| reflexivity].
  cbn [PhotoSpec.normalized].
  destruct (JsString.includes s "drive.google.com" && JsString.includes s "/d/") eqn:H.
  - rewrite thumbnail_no_sep, andb_false_r. reflexivity.
  - rewrite H. reflexivity.
Qed.


(** ** Layout targets *)

(** Evaluates the closed rational constants of a goal about the schedule
    scale, so that linear arithmetic applies. *)
Ltac norm_consts :=
  repeat match goal with
         | |- context [Main.Qmax1 ?c] =>
             let v := eval vm_compute in (Main.Qmax1 c) in
             change (Main.Qmax1 c) with v
         end;
  unfold Qdiv;
  repeat match goal with
         | |- context [Qinv ?c] =>
             let v := eval vm_compute in (Qinv c) in change (Qinv c) with v
         | |- context [inject_Z ?z] =>
             let v := eval vm_compute in (inject_Z z) in change (inject_Z z) with v
         end.

Lemma reversed_false (w : Q) :
  (0 < w)%Q → Main.reversed (Main.createScheduleScale w) = false.
Proof.
  intros H. unfold Main.reversed. cbn [Main.createScheduleScale Main.range fst snd].
  apply negb_false_iff, Qle_bool_iff. lra.
Qed.

(** The position of the season at index [i] of [SCHEDULE_ORDER]. *)
Lemma scaleAt_season (w : Q) (i : nat) (s : string) :
  (0 < w)%Q → Main.SCHEDULE_ORDER !! i = Some s →
  ∃ q, Main.scaleAt (Main.createScheduleScale w) s = Some q
       ∧ (q == w * (15 # 100) + w * (7 # 80) + w * (7 # 40) * inject_Z (Z.of_nat i))%Q.
Proof.
  intros Hw Hs.
  assert (Hi : Main.indexOf s Main.SCHEDULE_ORDER = Some i).
  { unfold Main.SCHEDULE_ORDER in *.
    do 4 (destruct i as [|i]; [injection Hs as <-; reflexivity |]).
    discriminate Hs. }
  unfold Main.scaleAt. cbn [Main.createScheduleScale Main.domain]. rewrite Hi.
  eexists. split; [reflexivity |].
  unfold Main.scaleStart, Main.scaleStep, Main.scaleLo, Main.scaleHi.
  rewrite (reversed_false w Hw).
  cbn [Main.createScheduleScale Main.range Main.domain Main.padding fst snd length
       Main.SCHEDULE_ORDER].
  generalize (inject_Z (Z.of_nat i)). intros k. norm_consts. lra.
Qed.

(** X9.  For a positive width the horizontal target of every node, whatever
    its schedule, lies within the range of the schedule scale, between 0.15
    and 0.85 of the width. *)
Theorem X9_target_lies_within_the_scale_range (node : Node.t) (width : Q) :
  (0 < width)%Q →
  (width * (15 # 100)
   <= Main.getNodeXPosition node (Main.createScheduleScale width)
   <= width * (85 # 100))%Q.
Proof.
  intros Hw.
  assert (Hd : (width * (15 # 100) <= width * (85 # 100) / 2 <= width * (85 # 100))%Q)
    by (norm_consts; lra).
  unfold Main.getNodeXPosition.
  destruct (Node.schedule node) as [|first rest];
    cbn [Main.createScheduleScale Main.range snd]; [exact Hd |].
  destruct (Main.indexOf first Main.SCHEDULE_ORDER) as [i|] eqn:Hi.
  - assert (Hl : Main.SCHEDULE_ORDER !! i = Some first ∧ (i < 4)%nat).
    { unfold Main.SCHEDULE_ORDER, Main.indexOf in Hi.
      repeat case_bool_decide; simplify_eq/=; auto with lia. }
    destruct Hl as [Hl Hlt].
    destruct (scaleAt_season width i first Hw Hl) as (q & -> & Hq).
    unfold Main.orElse. destruct (Qeq_bool q 0); [exact Hd |].
    rewrite Hq.
    assert (Hk : (0 <= inject_Z (Z.of_nat i) <= 3)%Q).
    { split.
      - change 0%Q with (inject_Z 0). rewrite <- Zle_Qle. lia.
      - change 3%Q with (inject_Z 3). rewrite <- Zle_Qle. lia. }
    revert Hk. generalize (inject_Z (Z.of_nat i)). intros k Hk. nra.
  - unfold Main.scaleAt. cbn [Main.createScheduleScale Main.domain]. rewrite Hi.
    exact Hd.
Qed.

Lemma X9_witness :
  (1000 * (15 # 100)
   <= Main.getNodeXPosition (withSchedule emptyScheduleNode ["Fall"])
        (Main.createScheduleScale 1000)
   <= 1000 * (85 # 100))%Q.
Proof.
  apply (X9_target_lies_within_the_scale_range
           (withSchedule emptyScheduleNode ["Fall"]) 1000).
  reflexivity.
Defined.

(** X10.  For a positive width the target of a node whose first schedule
    entry is one of the four seasons lies strictly inside the background
    column that the developed revision draws for that season; the targets
    therefore increase from Winter to Fall. *)
Theorem X10_season_target_lies_in_its_column (width : Q) :
  (0 < width)%Q →
  Forall (fun col =>
            ∀ node rest,
              Node.schedule node = Rev0Layout.season col :: rest →
              (Rev0Layout.x col
               < Main.getNodeXPosition node (Main.createScheduleScale width)
               < Rev0Layout.nextX col)%Q)
    (Rev0Layout.backgroundColumns width).
Proof.
  intros Hw. unfold Rev0Layout.backgroundColumns.
  apply Forall_forall. intros col Hcol.
  apply list_elem_of_lookup in Hcol as [i Hi].
  rewrite list_lookup_imap in Hi.
  destruct (Main.SCHEDULE_ORDER !! i) as [s|] eqn:Hs; [| discriminate Hi].
  injection Hi as <-. intros node rest Hn.
  cbn [Rev0Layout.columnOf Rev0Layout.season Rev0Layout.x Rev0Layout.nextX] in *.
  assert (Hlt : (i < 4)%nat) by (apply lookup_lt_Some in Hs; exact Hs).
  destruct (scaleAt_season width i s Hw Hs) as (q & Hat & Hq).
  unfold Main.getNodeXPosition. rewrite Hn, Hat.
  assert (Hk : (0 <= inject_Z (Z.of_nat i) <= 3)%Q).
  { split.
    - change 0%Q with (inject_Z 0). rewrite <- Zle_Qle. lia.
    - change 3%Q with (inject_Z 3). rewrite <- Zle_Qle. lia. }
  assert (Hk1 : (inject_Z (Z.of_nat (i + 1)) == inject_Z (Z.of_nat i) + 1)%Q).
  { rewrite Nat2Z.inj_add, inject_Z_plus. reflexivity. }
  unfold Main.orElse. destruct (Qeq_bool q 0) eqn:Hz.
  - apply Qeq_bool_eq in Hz. rewrite Hq in Hz. exfalso.
    revert Hk Hz. generalize (inject_Z (Z.of_nat i)). intros k Hk Hz. nra.
  - rewrite Hq, Hk1. cbn [length Main.SCHEDULE_ORDER].
    revert Hk. generalize (inject_Z (Z.of_nat i)). intros k Hk.
    norm_consts. nra.
Qed.

Lemma X10_witness :
  Forall (fun col =>
            ∀ node rest,
              Node.schedule node = Rev0Layout.season col :: rest →
              (Rev0Layout.x col
               < Main.getNodeXPosition node (Main.createScheduleScale 1000)
               < Rev0Layout.nextX col)%Q)
    (Rev0Layout.backgroundColumns 1000).
Proof. apply (X10_season_target_lies_in_its_column 1000). reflexivity. Defined.

(** ** Filter engine, further *)

Lemma chain_none (types fields : gset string) (query : string) (d : Node.t) :
  ¬ dimmedByChain types fields query d
  ↔ ¬ typeExcluded types d ∧ ¬ fieldsExcluded fields d ∧ ¬ searchExcluded query d.
Proof. unfold dimmedByChain. tauto. Qed.

(** X11.  In the base revision the three restrictions combine as a
    conjunction: for every node and every filter state the opacity is 1
    exactly when the node passes the type restriction, the field
    restriction and the search restriction, and 0.2 otherwise. *)
Theorem X11_main_filter_is_a_conjunction (st : Main.State) (d : Node.t) :
  (Main.filterOpacity st d = 1%Q ∨ Main.filterOpacity st d = (2 # 10)%Q)
  ∧ (Main.filterOpacity st d = 1%Q
     ↔ ¬ typeExcluded (Main.selectedTypes st) d
       ∧ ¬ fieldsExcluded (Main.selectedFields st) d
       ∧ ¬ searchExcluded (Main.searchQuery st) d).
Proof.
  destruct (main_filterOpacity_follows_chain st d) as [Hdim Hvis].
  rewrite <- chain_none. split.
  - unfold Main.filterOpacity. repeat destruct (_ && _); auto.
  - split.
    + intros H1 Hc. rewrite (Hdim Hc) in H1. discriminate H1.
    + exact Hvis.
Qed.

(** The opacity that the developed revision computes, in full. *)
Lemma rev0_filterOpacity_visible_iff (st : Rev0.State) (d : Node.t) :
  (Rev0.filterOpacity st d = 1%Q ∨ Rev0.filterOpacity st d = (15 # 100)%Q)
  ∧ (Rev0.filterOpacity st d = 1%Q
     ↔ ¬ typeExcluded (Rev0.selectedTypes st) d
       ∧ ((Rev0.selectedFields st ≠ ∅ ∧ ¬ fieldsExcluded (Rev0.selectedFields st) d)
          ∨ (Rev0.selectedFields st = ∅ ∧ ¬ searchExcluded (Rev0.searchQuery st) d))).
Proof.
  unfold Rev0.filterOpacity.
  pose proof (typeExcluded_spec (Rev0.selectedTypes st) d) as Ht.
  pose proof (searchExcluded_spec (Rev0.searchQuery st) d) as Hs.
  pose proof (size_pos_nonempty (Rev0.selectedFields st)) as Hne.
  pose proof (no_field_selected (Rev0.selectedFields st) (Node.fields d)) as Hno.
  destruct (bool_decide (0 < size (Rev0.selectedTypes st))%nat
            && negb (bool_decide (Node.type d ∈ Rev0.selectedTypes st))).
  { split; [right; reflexivity |]. split; [discriminate |].
    intros [H _]. exfalso. apply H, Ht. reflexivity. }
  assert (Hnt : ¬ typeExcluded (Rev0.selectedTypes st) d)
    by (intros H; apply Ht in H; discriminate H).
  destruct (bool_decide (0 < size (Rev0.selectedFields st))%nat).
  - assert (Hf : Rev0.selectedFields st ≠ ∅) by (apply Hne; reflexivity).
    destruct (existsb _ (Node.fields d)); cbn [negb].
    + split; [left; reflexivity |]. split; [| reflexivity].
      intros _. split; [exact Hnt |]. left. split; [exact Hf |].
      intros [_ H]. apply Hno in H. discriminate H.
    + split; [right; reflexivity |]. split; [discriminate |].
      intros [_ [[_ H] | [H _]]]; [| contradiction].
      exfalso. apply H. split; [exact Hf | apply Hno; reflexivity].
  - assert (Hf : Rev0.selectedFields st = ∅).
    { destruct (decide (Rev0.selectedFields st = ∅)) as [H | H]; [exact H |].
      apply Hne in H. discriminate H. }
    destruct (JsString.truthy (Some (Rev0.searchQuery st))
              && negb (JsString.includes (JsString.toLowerCase (Node.name d))
                         (JsString.toLowerCase (Rev0.searchQuery st)))).
    + split; [right; reflexivity |]. split; [discriminate |].
      intros [_ [[H _] | [_ H]]]; [contradiction |].
      exfalso. apply H, Hs. reflexivity.
    + split; [left; reflexivity |]. split; [| reflexivity].
      intros _. split; [exact Hnt |]. right. split; [exact Hf |].
      intros H. apply Hs in H. discriminate H.
Qed.

(** X12.  In the developed revision the opacity of a node is 1 exactly when
    the node passes the type restriction and, if some field is selected, has
    a selected field (the search text is then not consulted) or, if no field
    is selected, passes the search restriction; it is 0.15 otherwise. *)
Theorem X12_rev0_filter_in_full (st : Rev0.State) (d : Node.t) :
  (Rev0.filterOpacity st d = 1%Q ∨ Rev0.filterOpacity st d = (15 # 100)%Q)
  ∧ (Rev0.filterOpacity st d = 1%Q
     ↔ ¬ typeExcluded (Rev0.selectedTypes st) d
       ∧ ((Rev0.selectedFields st ≠ ∅ ∧ ¬ fieldsExcluded (Rev0.selectedFields st) d)
          ∨ (Rev0.selectedFields st = ∅ ∧ ¬ searchExcluded (Rev0.searchQuery st) d))).
Proof. apply rev0_filterOpacity_visible_iff. Qed.

(** Recomputing the filter on the outcome of an earlier recomputation gives
    what recomputing on the original elements gives: [applyFilters]
    overwrites every opacity and reads none. *)
Lemma applyFilters_overwrites
    (T1 F1 T F : gset string) (g1 g : gmap string bool) (Q1 Q : string)
    (c1 h1 c h : option Node.t) (gs : option (list Rev0.NodeGroup))
    (ls : option (list Rev0.LinkElement)) (p1 p : Rev0.Popup) :
  let a := Rev0.applyFilters
             {| Rev0.selectedTypes := T1; Rev0.selectedFields := F1;
                Rev0.fieldFilterElements := g1; Rev0.searchQuery := Q1;
                Rev0.clickedNode := c1; Rev0.hoveredNode := h1;
                Rev0.nodeGroups := gs; Rev0.linkElements := ls; Rev0.popup := p1 |} in
  Rev0.applyFilters
    {| Rev0.selectedTypes := T; Rev0.selectedFields := F;
       Rev0.fieldFilterElements := g; Rev0.searchQuery := Q;
       Rev0.clickedNode := c; Rev0.hoveredNode := h;
       Rev0.nodeGroups := Rev0.nodeGroups a; Rev0.linkElements := Rev0.linkElements a;
       Rev0.popup := p |}
  = Rev0.applyFilters
      {| Rev0.selectedTypes := T; Rev0.selectedFields := F;
         Rev0.fieldFilterElements := g; Rev0.searchQuery := Q;
         Rev0.clickedNode := c; Rev0.hoveredNode := h;
         Rev0.nodeGroups := gs; Rev0.linkElements := ls; Rev0.popup := p |}.
Proof.
  destruct gs as [gs|], ls as [ls|]; try reflexivity.
  cbn [Rev0.applyFilters Rev0.nodeGroups Rev0.linkElements Rev0.selectedTypes
       Rev0.selectedFields Rev0.fieldFilterElements Rev0.searchQuery
       Rev0.clickedNode Rev0.hoveredNode Rev0.popup].
  rewrite setNodeOpacities_again, filterLinks_again.
  match goal with
  | |- context [Rev0.opacityMapOf ?f (Rev0.setNodeOpacities ?m gs)] =>
      rewrite (opacityMapOf_ext f
                 (Rev0.filterOpacity
                    {| Rev0.selectedTypes := T; Rev0.selectedFields := F;
                       Rev0.fieldFilterElements := g; Rev0.searchQuery := Q;
                       Rev0.clickedNode := c; Rev0.hoveredNode := h;
                       Rev0.nodeGroups := Some gs; Rev0.linkElements := Some ls;
                       Rev0.popup := p |})
                 (Rev0.setNodeOpacities m gs) gs)
  end.
  - reflexivity.
  - intros d. apply rev0_filterOpacity_ext; reflexivity.
  - apply setNodeOpacities_datum.
Qed.

(** X13.  Recomputing the filter is idempotent in both revisions: a second
    [applyFilters] changes nothing. *)
Theorem X13_applyFilters_is_idempotent (st : Rev0.State) (st' : Main.State) :
  Rev0.applyFilters (Rev0.applyFilters st) = Rev0.applyFilters st
  ∧ Main.applyFilters (Main.applyFilters st') = Main.applyFilters st'.
Proof.
  split.
  - destruct st as [T F g Q c h gs ls p].
    pose proof (applyFilters_overwrites T F T F g g Q Q c h c h gs ls p p) as H.
    cbv zeta in H. etrans; [| exact H]. f_equal.
    destruct gs as [gs|], ls as [ls|]; reflexivity.
  - destruct st' as [T F Q els]. destruct els as [els|]; [| reflexivity].
    cbn [Main.applyFilters Main.nodeElements Main.selectedTypes Main.selectedFields
         Main.searchQuery].
    do 2 f_equal. rewrite map_map. apply map_ext. intros e. reflexivity.
Qed.

Lemma opacityMapOf_snoc (f : Node.t → Q) (gs : list Rev0.NodeGroup) (x : Rev0.NodeGroup) :
  Rev0.opacityMapOf f (gs ++ [x])
  = <[ Node.id (Rev0.datum x) := f (Rev0.datum x) ]> (Rev0.opacityMapOf f gs).
Proof. unfold Rev0.opacityMapOf. rewrite foldl_app. reflexivity. Qed.

(** With pairwise distinct ids, the opacity map holds for every node the
    opacity computed for that very node. *)
Lemma opacityMapOf_lookup (f : Node.t → Q) (gs : list Rev0.NodeGroup) (g : Rev0.NodeGroup) :
  NoDup (map (fun g => Node.id (Rev0.datum g)) gs) → g ∈ gs →
  Rev0.opacityMapOf f gs !! Node.id (Rev0.datum g) = Some (f (Rev0.datum g)).
Proof.
  induction gs as [|x gs IH] using rev_ind; intros Hnd Hg.
  - apply elem_of_nil in Hg. contradiction.
  - rewrite opacityMapOf_snoc. rewrite map_app in Hnd.
    apply NoDup_app in Hnd as (Hnd & Hdis & _).
    apply elem_of_app in Hg as [Hg | Hg].
    + rewrite lookup_insert_ne; [apply IH; assumption |].
      intros Heq. apply (Hdis (Node.id (Rev0.datum g))).
      * apply list_elem_of_fmap. exists g. auto.
      * rewrite <- Heq. left.
    + apply list_elem_of_singleton in Hg as ->. apply lookup_insert_eq.
Qed.

Lemma getOr1_filterOpacity (st : Rev0.State) (m : gmap string Q) (k : string)
    (d : Node.t) :
  m !! k = Some (Rev0.filterOpacity st d) → Rev0.getOr1 m k = Rev0.filterOpacity st d.
Proof.
  intros H. unfold Rev0.getOr1. rewrite H.
  destruct (rev0_filterOpacity_visible_iff st d) as [[-> | ->] _]; reflexivity.
Qed.

(** X14.  When the ids of the drawn nodes are pairwise distinct,
    [applyFilters] of the developed revision gives every node group the
    opacity computed for its own node, and every link between two drawn
    nodes the smaller of the opacities of its two endpoints, so that a link
    is dimmed as soon as one endpoint is. *)
Theorem X14_opacities_with_unique_ids
    (st : Rev0.State) (gs : list Rev0.NodeGroup) (ls : list Rev0.LinkElement) :
  Rev0.nodeGroups st = Some gs →
  Rev0.linkElements st = Some ls →
  NoDup (map (fun g => Node.id (Rev0.datum g)) gs) →
  Rev0.nodeGroups (Rev0.applyFilters st)
  = Some (map (fun g => {| Rev0.datum := Rev0.datum g;
                           Rev0.opacity := Some (Rev0.filterOpacity st (Rev0.datum g)) |})
            gs)
  ∧ ∃ ls', Rev0.linkElements (Rev0.applyFilters st) = Some ls'
           ∧ ∀ i l a b,
               ls !! i = Some l → a ∈ gs → b ∈ gs →
               source (Rev0.link l) = Node.id (Rev0.datum a) →
               target (Rev0.link l) = Node.id (Rev0.datum b) →
               Rev0.strokeOpacity <$> ls' !! i
               = Some (Some (Rev0.Qmin2 (Rev0.filterOpacity st (Rev0.datum a))
                                        (Rev0.filterOpacity st (Rev0.datum b)))).
Proof.
  intros Hgs Hls Hnd. unfold Rev0.applyFilters. rewrite Hgs, Hls.
  cbn [Rev0.nodeGroups Rev0.linkElements]. split.
  - f_equal. unfold Rev0.setNodeOpacities. apply map_ext_in. intros g Hg.
    f_equal. f_equal. apply getOr1_filterOpacity, opacityMapOf_lookup; [exact Hnd |].
    apply list_elem_of_In, Hg.
  - eexists. split; [reflexivity |]. intros i l a b Hl Ha Hb Hsrc Htgt.
    unfold Rev0.filterLinks. rewrite list_lookup_fmap, Hl. cbn.
    rewrite Hsrc, Htgt.
    rewrite (getOr1_filterOpacity st _ _ (Rev0.datum a))
      by (apply opacityMapOf_lookup; assumption).
    rewrite (getOr1_filterOpacity st _ _ (Rev0.datum b))
      by (apply opacityMapOf_lookup; assumption).
    reflexivity.
Qed.

Lemma X14_witness :
  let st := rev0State ∅ {[ "paint" ]} "" (Rev0.normalizeData threeNodes) in
  ∃ gs ls,
    Rev0.nodeGroups st = Some gs ∧ Rev0.linkElements st = Some ls
    ∧ Rev0.nodeGroups (Rev0.applyFilters st)
      = Some (map (fun g => {| Rev0.datum := Rev0.datum g;
                               Rev0.opacity :=
                                 Some (Rev0.filterOpacity st (Rev0.datum g)) |}) gs)
    ∧ ∃ ls', Rev0.linkElements (Rev0.applyFilters st) = Some ls'
             ∧ ∀ i l a b,
                 ls !! i = Some l → a ∈ gs → b ∈ gs →
                 source (Rev0.link l) = Node.id (Rev0.datum a) →
                 target (Rev0.link l) = Node.id (Rev0.datum b) →
                 Rev0.strokeOpacity <$> ls' !! i
                 = Some (Some (Rev0.Qmin2 (Rev0.filterOpacity st (Rev0.datum a))
                                          (Rev0.filterOpacity st (Rev0.datum b)))).
Proof.
  cbv zeta. eexists _, _. split; [reflexivity |]. split; [reflexivity |].
  apply X14_opacities_with_unique_ids.
  - reflexivity.
  - reflexivity.
  - apply (bool_decide_unpack _). vm_compute. exact I.
Defined.

Lemma applyFilters_filters (st : Rev0.State) :
  Rev0.selectedTypes (Rev0.applyFilters st) = Rev0.selectedTypes st
  ∧ Rev0.selectedFields (Rev0.applyFilters st) = Rev0.selectedFields st
  ∧ Rev0.searchQuery (Rev0.applyFilters st) = Rev0.searchQuery st
  ∧ Rev0.fieldFilterElements (Rev0.applyFilters st) = Rev0.fieldFilterElements st.
Proof.
  unfold Rev0.applyFilters.
  destruct (Rev0.nodeGroups st), (Rev0.linkElements st); repeat split; reflexivity.
Qed.

(** X15.  Selected fields combine as a union: once some field is selected,
    selecting a further field never dims a node that was fully visible. *)
Theorem X15_selecting_a_further_field_never_dims
    (st : Rev0.State) (f : string) (d : Node.t) :
  Rev0.selectedFields st ≠ ∅ →
  f ∉ Rev0.selectedFields st →
  Rev0.filterOpacity st d = 1%Q →
  Rev0.filterOpacity (Rev0.toggleFieldFilter f st) d = 1%Q.
Proof.
  intros Hne Hf Hvis. rewrite (toggle_on f st Hf).
  destruct (applyFilters_filters
              (Rev0.setFieldFilterState f true false st)) as (Ht & Hfs & Hq & _).
  change (Rev0.applyFilters (Rev0.setFieldFilterState f true false st))
    with (Rev0.setFieldFilterState f true true st) in Ht, Hfs, Hq.
  apply rev0_filterOpacity_visible_iff in Hvis as [Hnt Hvis].
  apply rev0_filterOpacity_visible_iff. rewrite Ht, Hfs, Hq.
  cbn [Rev0.setFieldFilterState Rev0.selectedTypes Rev0.selectedFields
       Rev0.searchQuery].
  split; [exact Hnt |]. left.
  destruct Hvis as [[_ Hnf] | [He _]]; [| contradiction].
  split.
  - intros He. apply (not_elem_of_empty (C := gset string) f).
    rewrite <- He. apply elem_of_union. left. apply elem_of_singleton. reflexivity.
  - intros [_ Hall]. apply Hnf. split; [exact Hne |].
    intros x Hx Hin. apply (Hall x Hx). apply elem_of_union. right. exact Hin.
Qed.

Lemma X15_witness :
  let st := Rev0.toggleFieldFilter "dance"
              (rev0State ∅ ∅ "" (Rev0.normalizeData threeNodes)) in
  Rev0.filterOpacity (Rev0.toggleFieldFilter "paint" st)
    (Rev0.nodeOfRow (mkRow "C" "Music" "dance" "")) = 1%Q.
Proof.
  cbv zeta. apply X15_selecting_a_further_field_never_dims.
  - vm_compute. intros H. discriminate H.
  - vm_compute. intros H. discriminate H.
  - vm_compute. reflexivity.
Defined.

(** X16.  Toggling a field filter twice is the same as recomputing the
    filter once, whether the field was selected or not, provided the
    sidebar tag of the field, if there is one, carries the [active] class
    exactly when the field is selected: the selected fields, the tags and
    every other part of the state are restored. *)
Theorem X16_two_toggles_equal_one_recomputation (st : Rev0.State) (f : string) :
  (∀ active, Rev0.fieldFilterElements st !! f = Some active →
             active = bool_decide (f ∈ Rev0.selectedFields st)) →
  Rev0.toggleFieldFilter f (Rev0.toggleFieldFilter f st) = Rev0.applyFilters st.
Proof.
  intros Hsync. destruct st as [T F g Q c h gs ls p].
  cbn [Rev0.fieldFilterElements Rev0.selectedFields] in Hsync.
  unfold Rev0.toggleFieldFilter at 2.
  cbn [Rev0.selectedFields Rev0.setFieldFilterState Rev0.selectedTypes
       Rev0.fieldFilterElements Rev0.searchQuery Rev0.clickedNode Rev0.hoveredNode
       Rev0.nodeGroups Rev0.linkElements Rev0.popup].
  set (b1 := negb (bool_decide (f ∈ F))).
  set (F1 := if b1 then {[ f ]} ∪ F else F ∖ {[ f ]}).
  set (g1 := match g !! f with Some _ => <[ f := b1 ]> g | None => g end).
  assert (HF1 : bool_decide (f ∈ F1) = b1).
  { subst F1 b1. destruct (decide (f ∈ F)) as [Hin | Hin].
    - rewrite (bool_decide_eq_true_2 _ Hin). cbn [negb].
      apply bool_decide_eq_false_2. rewrite elem_of_difference, elem_of_singleton.
      intros [_ H]. apply H. reflexivity.
    - rewrite (bool_decide_eq_false_2 _ Hin). cbn [negb].
      apply bool_decide_eq_true_2, elem_of_union. left.
      apply elem_of_singleton. reflexivity. }
  assert (HF2 : (if negb b1 then {[ f ]} ∪ F1 else F1 ∖ {[ f ]}) = F).
  { subst F1 b1. apply set_eq. intros x. destruct (decide (f ∈ F)) as [Hin | Hin].
    - rewrite (bool_decide_eq_true_2 _ Hin). cbn [negb].
      rewrite elem_of_union, elem_of_difference, !elem_of_singleton.
      split; [intros [-> | [H _]]; assumption |].
      intros Hx. destruct (decide (x = f)) as [-> | Hne]; auto.
    - rewrite (bool_decide_eq_false_2 _ Hin). cbn [negb].
      rewrite elem_of_difference, elem_of_union, !elem_of_singleton.
      split; [intros [[-> | H] Hne]; [contradiction | exact H] |].
      intros Hx. split; [right; exact Hx | intros ->; contradiction]. }
  assert (Hg2 : match g1 !! f with Some _ => <[ f := negb b1 ]> g1 | None => g1 end = g).
  { subst g1. destruct (g !! f) as [a|] eqn:Hgf.
    - rewrite lookup_insert_eq, insert_insert_eq. apply insert_id.
      rewrite Hgf. f_equal. rewrite (Hsync a eq_refl). subst b1.
      rewrite negb_involutive. reflexivity.
    - rewrite Hgf. reflexivity. }
  unfold Rev0.toggleFieldFilter, Rev0.setFieldFilterState.
  destruct (applyFilters_filters
              {| Rev0.selectedTypes := T; Rev0.selectedFields := F1;
                 Rev0.fieldFilterElements := g1; Rev0.searchQuery := Q;
                 Rev0.clickedNode := c; Rev0.hoveredNode := h;
                 Rev0.nodeGroups := gs; Rev0.linkElements := ls; Rev0.popup := p |})
    as (Ht & Hf & Hq & Hg).
  rewrite Ht, Hf, Hq, Hg.
  cbn [Rev0.selectedTypes Rev0.selectedFields Rev0.searchQuery Rev0.fieldFilterElements].
  rewrite HF1, HF2, Hg2.
  assert (Hrest : ∀ a, a = Rev0.applyFilters
                            {| Rev0.selectedTypes := T; Rev0.selectedFields := F1;
                               Rev0.fieldFilterElements := g1; Rev0.searchQuery := Q;
                               Rev0.clickedNode := c; Rev0.hoveredNode := h;
                               Rev0.nodeGroups := gs; Rev0.linkElements := ls;
                               Rev0.popup := p |} →
                       Rev0.clickedNode a = c ∧ Rev0.hoveredNode a = h ∧ Rev0.popup a = p).
  { intros a ->. destruct gs, ls; repeat split; reflexivity. }
  destruct (Hrest _ eq_refl) as (-> & -> & ->).
  apply (applyFilters_overwrites T F1 T F g1 g Q Q c h c h gs ls p p).
Qed.

Lemma X16_witness :
  let st := Rev0.toggleFieldFilter "paint"
              (Rev0Ui.core (Rev0Ui.initial (Rev0.normalizeData threeNodes))) in
  Rev0.toggleFieldFilter "paint" (Rev0.toggleFieldFilter "paint" st)
  = Rev0.applyFilters st.
Proof.
  cbv zeta. apply X16_two_toggles_equal_one_recomputation.
  intros active H. vm_compute in H. injection H as <-. vm_compute. reflexivity.
Defined.

(** ** Filter panel *)

Lemma keepsFilters_applyFilters (st : Rev0.State) :
  keepsFilters st (Rev0.applyFilters st).
Proof. apply applyFilters_filters. Qed.

Lemma keepsFilters_hover (d : Node.t) (st : Rev0.State) :
  keepsFilters st (Rev0.handleNodeHover d st).
Proof.
  unfold Rev0.handleNodeHover.
  destruct (Rev0.clickedElsewhere st d); [repeat split |].
  destruct (Rev0.showsOnHover st d); repeat split.
Qed.

Lemma keepsFilters_click (d : Node.t) (st : Rev0.State) :
  keepsFilters st (Rev0.handleNodeClick d st).
Proof. repeat split. Qed.

Lemma keepsFilters_mouseOut (d : Node.t) (st : Rev0.State) :
  keepsFilters st (Rev0Ui.handleNodeMouseOut d st).
Proof.
  unfold Rev0Ui.handleNodeMouseOut.
  set (st2 := Rev0.applyFilters _).
  assert (H : keepsFilters st st2).
  { subst st2. destruct (applyFilters_filters
      (Rev0Ui.withLinks (Rev0Ui.withSelection st (Rev0.clickedNode st) None)
         (Rev0Ui.resetLinks <$>
            Rev0.linkElements (Rev0Ui.withSelection st (Rev0.clickedNode st) None))))
      as (H1 & H2 & H3 & H4).
    repeat split; assumption. }
  destruct (Rev0.clickedNode _) as [c|]; [destruct (bool_decide _); exact H |].
  exact H.
Qed.

Lemma keepsFilters_svgClick (event : Rev0Ui.ClickEvent) (st : Rev0.State) :
  keepsFilters st (Rev0Ui.svgClick event st).
Proof.
  unfold Rev0Ui.svgClick.
  destruct (_ && _); [repeat split |].
  destruct (Rev0Ui.targetIsBackground event); repeat split.
Qed.

Lemma tagsInSync_onCore (f : Rev0.State → Rev0.State) (ui : Rev0Ui.Ui) :
  keepsFilters (Rev0Ui.core ui) (f (Rev0Ui.core ui)) →
  Rev0Ui.tagsInSync ui → Rev0Ui.tagsInSync (Rev0Ui.onCore f ui).
Proof.
  intros (Ht & Hf & _ & Hg) (H1 & H2 & H3). unfold Rev0Ui.tagsInSync.
  cbn [Rev0Ui.onCore Rev0Ui.core Rev0Ui.typeTags]. rewrite Ht, Hf, Hg. auto.
Qed.

Lemma fst_insert_same (l : list (string * bool)) (i : nat) (t : string) (b b' : bool) :
  l !! i = Some (t, b) → (<[ i := (t, b') ]> l).*1 = l.*1.
Proof.
  intros H. rewrite list_fmap_insert. apply list_insert_id.
  rewrite list_lookup_fmap, H. reflexivity.
Qed.

Lemma tagsInSync_typeTagClick (i : nat) (ui : Rev0Ui.Ui) :
  Rev0Ui.tagsInSync ui → Rev0Ui.tagsInSync (Rev0Ui.typeTagClick i ui).
Proof.
  intros (H1 & H2 & H3). unfold Rev0Ui.typeTagClick.
  destruct (Rev0Ui.typeTags ui !! i) as [[t b]|] eqn:Hi; [| repeat split; assumption].
  cbn [fst snd]. unfold Rev0Ui.tagsInSync.
  cbn [Rev0Ui.core Rev0Ui.typeTags].
  destruct (applyFilters_filters
              (Rev0Ui.withFilters (Rev0Ui.core ui)
                 (if b then Rev0.selectedTypes (Rev0Ui.core ui) ∖ {[ t ]}
                  else {[ t ]} ∪ Rev0.selectedTypes (Rev0Ui.core ui))
                 (Rev0.selectedFields (Rev0Ui.core ui))
                 (Rev0.fieldFilterElements (Rev0Ui.core ui))
                 (Rev0.searchQuery (Rev0Ui.core ui)))) as (Ht & Hf & _ & Hg).
  rewrite Ht, Hf, Hg. cbn [Rev0Ui.withFilters Rev0.selectedTypes Rev0.selectedFields
                           Rev0.fieldFilterElements].
  pose proof (proj1 (Forall_lookup _ _) H1 i _ Hi) as Hb. cbn [fst snd] in Hb.
  split; [| split; [rewrite (fst_insert_same _ _ _ _ _ Hi); exact H2 | exact H3]].
  apply Forall_lookup. intros j [t' b'] Hj. cbn [fst snd].
  destruct (decide (j = i)) as [-> | Hne].
  - rewrite list_lookup_insert_eq in Hj by (apply lookup_lt_Some in Hi; exact Hi).
    injection Hj as <- <-. rewrite Hb.
    destruct (decide (t ∈ Rev0.selectedTypes (Rev0Ui.core ui))) as [Hin | Hin].
    + rewrite (bool_decide_eq_true_2 _ Hin). cbn [negb]. symmetry.
      apply bool_decide_eq_false_2. rewrite elem_of_difference, elem_of_singleton.
      intros [_ H]. apply H. reflexivity.
    + rewrite (bool_decide_eq_false_2 _ Hin). cbn [negb]. symmetry.
      apply bool_decide_eq_true_2, elem_of_union. left.
      apply elem_of_singleton. reflexivity.
  - rewrite list_lookup_insert_ne in Hj by congruence.
    pose proof (proj1 (Forall_lookup _ _) H1 j _ Hj) as Hb'. cbn [fst snd] in Hb'.
    assert (Htt : t' ≠ t).
    { intros ->. apply Hne. apply (NoDup_lookup _ j i t H2).
      - rewrite list_lookup_fmap, Hj. reflexivity.
      - rewrite list_lookup_fmap, Hi. reflexivity. }
    rewrite Hb'. apply bool_decide_ext. destruct b.
    + rewrite elem_of_difference, elem_of_singleton. tauto.
    + rewrite elem_of_union, elem_of_singleton. tauto.
Qed.

Lemma tagsInSync_toggleField (f : string) (ui : Rev0Ui.Ui) :
  Rev0Ui.tagsInSync ui →
  Rev0Ui.tagsInSync (Rev0Ui.onCore (Rev0.toggleFieldFilter f) ui).
Proof.
  intros (H1 & H2 & H3). unfold Rev0Ui.tagsInSync.
  cbn [Rev0Ui.onCore Rev0Ui.core Rev0Ui.typeTags].
  unfold Rev0.toggleFieldFilter.
  set (b := negb (bool_decide (f ∈ Rev0.selectedFields (Rev0Ui.core ui)))).
  destruct (applyFilters_filters
              (Rev0.setFieldFilterState f b false (Rev0Ui.core ui)))
    as (Ht & Hf & _ & Hg).
  change (Rev0.applyFilters (Rev0.setFieldFilterState f b false (Rev0Ui.core ui)))
    with (Rev0.setFieldFilterState f b true (Rev0Ui.core ui)) in Ht, Hf, Hg.
  rewrite Ht, Hf, Hg.
  cbn [Rev0.setFieldFilterState Rev0.selectedTypes Rev0.selectedFields
       Rev0.fieldFilterElements].
  split; [exact H1 | split; [exact H2 |]].
  set (S := Rev0.selectedFields (Rev0Ui.core ui)) in *.
  assert (Hfb : b = bool_decide (f ∈ (if b then {[ f ]} ∪ S else S ∖ {[ f ]}))).
  { subst b. destruct (decide (f ∈ S)) as [Hin | Hin].
    - rewrite (bool_decide_eq_true_2 _ Hin). cbn [negb]. symmetry.
      apply bool_decide_eq_false_2. rewrite elem_of_difference, elem_of_singleton.
      intros [_ H]. apply H. reflexivity.
    - rewrite (bool_decide_eq_false_2 _ Hin). cbn [negb]. symmetry.
      apply bool_decide_eq_true_2, elem_of_union. left.
      apply elem_of_singleton. reflexivity. }
  assert (Hother : ∀ x, x ≠ f →
            bool_decide (x ∈ (if b then {[ f ]} ∪ S else S ∖ {[ f ]}))
            = bool_decide (x ∈ S)).
  { intros x Hx. apply bool_decide_ext. destruct b.
    - rewrite elem_of_union, elem_of_singleton. tauto.
    - rewrite elem_of_difference, elem_of_singleton. tauto. }
  intros x a Hx. destruct (decide (x = f)) as [-> | Hne].
  - destruct (Rev0.fieldFilterElements (Rev0Ui.core ui) !! f) as [a0|] eqn:Hf0.
    + rewrite lookup_insert_eq in Hx. injection Hx as <-. exact Hfb.
    + rewrite Hf0 in Hx. discriminate Hx.
  - rewrite (Hother x Hne). apply H3.
    destruct (Rev0.fieldFilterElements (Rev0Ui.core ui) !! f);
      [rewrite lookup_insert_ne in Hx by congruence |]; exact Hx.
Qed.

Lemma tagsInSync_search (value : string) (ui : Rev0Ui.Ui) :
  Rev0Ui.tagsInSync ui → Rev0Ui.tagsInSync (Rev0Ui.searchInputChanged value ui).
Proof.
  intros (H1 & H2 & H3). unfold Rev0Ui.tagsInSync, Rev0Ui.searchInputChanged.
  cbn [Rev0Ui.core Rev0Ui.typeTags].
  destruct (applyFilters_filters
              (Rev0Ui.withFilters (Rev0Ui.core ui) (Rev0.selectedTypes (Rev0Ui.core ui))
                 (Rev0.selectedFields (Rev0Ui.core ui))
                 (Rev0.fieldFilterElements (Rev0Ui.core ui)) value))
    as (Ht & Hf & _ & Hg).
  rewrite Ht, Hf, Hg. auto.
Qed.

Lemma tagsInSync_reset (ui : Rev0Ui.Ui) :
  NoDup (Rev0Ui.typeTags ui).*1 → Rev0Ui.tagsInSync (Rev0Ui.resetFilters ui).
Proof.
  intros H2. unfold Rev0Ui.tagsInSync, Rev0Ui.resetFilters.
  cbn [Rev0Ui.core Rev0Ui.typeTags].
  destruct (applyFilters_filters
              (Rev0Ui.withFilters (Rev0Ui.core ui) ∅ ∅
                 ((fun _ => false) <$> Rev0.fieldFilterElements (Rev0Ui.core ui)) ""))
    as (Ht & Hf & _ & Hg).
  rewrite Ht, Hf, Hg.
  cbn [Rev0Ui.withFilters Rev0.selectedTypes Rev0.selectedFields
       Rev0.fieldFilterElements].
  split; [| split].
  - apply Forall_forall. intros tag Htag.
    apply list_elem_of_fmap in Htag as (tag0 & -> & _). reflexivity.
  - rewrite <- list_fmap_compose. exact H2.
  - intros x a Hx. rewrite lookup_fmap in Hx.
    destruct (Rev0.fieldFilterElements (Rev0Ui.core ui) !! x); [| discriminate Hx].
    injection Hx as <-. reflexivity.
Qed.

Lemma tagsInSync_step (ui : Rev0Ui.Ui) (a : Rev0Ui.Action) :
  Rev0Ui.tagsInSync ui → Rev0Ui.tagsInSync (Rev0Ui.step ui a).
Proof.
  intros H. destruct a as [i | f | v | | d | d | d | e]; cbn [Rev0Ui.step].
  - apply tagsInSync_typeTagClick, H.
  - apply tagsInSync_toggleField, H.
  - apply tagsInSync_search, H.
  - apply tagsInSync_reset, H.
  - apply tagsInSync_onCore; [apply keepsFilters_hover | exact H].
  - apply tagsInSync_onCore; [apply keepsFilters_mouseOut | exact H].
  - apply tagsInSync_onCore; [apply keepsFilters_click | exact H].
  - apply tagsInSync_onCore; [apply keepsFilters_svgClick | exact H].
Qed.

Lemma NoDup_sortedMembers (s : gset string) : NoDup (Rev0Ui.sortedMembers s).
Proof.
  unfold Rev0Ui.sortedMembers. rewrite merge_sort_Permutation. apply NoDup_elements.
Qed.

Lemma elem_of_sortedMembers (s : gset string) (x : string) :
  x ∈ Rev0Ui.sortedMembers s ↔ x ∈ s.
Proof.
  unfold Rev0Ui.sortedMembers. rewrite merge_sort_Permutation. apply elem_of_elements.
Qed.

Lemma fold_insert_lookup (g : string → bool) (l : list string) (m : gmap string bool)
    (k : string) (a : bool) :
  (∀ k a, m !! k = Some a → a = g k) →
  foldl (fun m field => <[ field := g field ]> m) m l !! k = Some a → a = g k.
Proof.
  revert m. induction l as [|x l IH]; intros m Hm; [apply Hm |].
  cbn [foldl]. apply IH. intros k' a'.
  destruct (decide (x = k')) as [-> | Hne].
  - rewrite lookup_insert_eq. intros [= <-]. reflexivity.
  - rewrite lookup_insert_ne by exact Hne. apply Hm.
Qed.

Lemma fst_tag_labels (l : list string) :
  (map (fun type => (type, false)) l).*1 = l.
Proof. induction l as [|x l IH]; [reflexivity |]. cbn. f_equal. exact IH. Qed.

Lemma tagsInSync_initial (data : Data) : Rev0Ui.tagsInSync (Rev0Ui.initial data).
Proof.
  unfold Rev0Ui.initial, Rev0Ui.buildFilters, Rev0Ui.tagsInSync.
  cbn [Rev0Ui.core Rev0Ui.typeTags Rev0Ui.withFilters Rev0.selectedTypes
       Rev0.selectedFields Rev0.fieldFilterElements Rev0Ui.drawn].
  split; [| split].
  - apply Forall_forall. intros tag Htag.
    apply list_elem_of_fmap in Htag as (t & -> & _). reflexivity.
  - rewrite fst_tag_labels. apply NoDup_sortedMembers.
  - intros x a Hx.
    refine (fold_insert_lookup (fun field => bool_decide (field ∈ (∅ : gset string)))
              _ ∅ x a _ Hx).
    intros k a' H. rewrite lookup_empty in H. discriminate H.
Qed.

(** X17.  Whatever the user does after the page is set up (clicks on type
    and field tags, typing in the search box, reset, hovering, clicking
    nodes or the background), every tag of the filter panel carries the
    [active] class exactly when its type or field is selected. *)
Theorem X17_tags_always_reflect_the_selection
    (data : Data) (actions : list Rev0Ui.Action) :
  Rev0Ui.tagsInSync (Rev0Ui.run (Rev0Ui.initial data) actions).
Proof.
  unfold Rev0Ui.run.
  generalize (tagsInSync_initial data). generalize (Rev0Ui.initial data).
  induction actions as [|a actions IH]; intros ui H; [exact H |].
  cbn [foldl]. apply IH, tagsInSync_step, H.
Qed.

Lemma rev0_filterOpacity_unrestricted (st : Rev0.State) (d : Node.t) :
  Rev0.selectedTypes st = ∅ → Rev0.selectedFields st = ∅ → Rev0.searchQuery st = "" →
  Rev0.filterOpacity st d = 1%Q.
Proof.
  intros Ht Hf Hq. unfold Rev0.filterOpacity. rewrite Ht, Hf, Hq, size_empty.
  reflexivity.
Qed.

Lemma opacityMapOf_const (f : Node.t → Q) (gs : list Rev0.NodeGroup) (k : string) :
  (∀ d, f d = 1%Q) → Rev0.getOr1 (Rev0.opacityMapOf f gs) k = 1%Q.
Proof.
  intros Hf. unfold Rev0.getOr1.
  assert (H : ∀ q, Rev0.opacityMapOf f gs !! k = Some q → q = 1%Q).
  { unfold Rev0.opacityMapOf.
    assert (Hgen : ∀ (m : gmap string Q),
               (∀ q, m !! k = Some q → q = 1%Q) →
               ∀ q, foldl (fun m n => <[ Node.id (Rev0.datum n) := f (Rev0.datum n) ]> m)
                      m gs !! k = Some q → q = 1%Q).
    { induction gs as [|x gs IH]; intros m Hm; [exact Hm |].
      cbn [foldl]. apply IH. intros q.
      destruct (decide (Node.id (Rev0.datum x) = k)) as [<- | Hne].
      - rewrite lookup_insert_eq. intros [= <-]. apply Hf.
      - rewrite lookup_insert_ne by exact Hne. apply Hm. }
    apply Hgen. intros q Hq. rewrite lookup_empty in Hq. discriminate Hq. }
  destruct (Rev0.opacityMapOf f gs !! k) as [q|]; [| reflexivity].
  rewrite (H q eq_refl). reflexivity.
Qed.

(** X18.  Whatever the state, [resetFilters] empties the selected types,
    the selected fields and the search text, clears the search box and the
    [active] class of every tag, and leaves every drawn node and every drawn
    link with opacity 1. *)
Theorem X18_reset_restores_full_visibility (ui : Rev0Ui.Ui) :
  let ui' := Rev0Ui.resetFilters ui in
  Rev0.selectedTypes (Rev0Ui.core ui') = ∅
  ∧ Rev0.selectedFields (Rev0Ui.core ui') = ∅
  ∧ Rev0.searchQuery (Rev0Ui.core ui') = ""
  ∧ Rev0Ui.searchInput ui' = ""
  ∧ Forall (fun tag => tag.2 = false) (Rev0Ui.typeTags ui')
  ∧ map_Forall (fun _ active => active = false)
      (Rev0.fieldFilterElements (Rev0Ui.core ui'))
  ∧ ∀ gs ls,
      Rev0.nodeGroups (Rev0Ui.core ui) = Some gs →
      Rev0.linkElements (Rev0Ui.core ui) = Some ls →
      Rev0.nodeGroups (Rev0Ui.core ui')
      = Some (map (fun g => {| Rev0.datum := Rev0.datum g;
                               Rev0.opacity := Some 1%Q |}) gs)
      ∧ Rev0.linkElements (Rev0Ui.core ui')
        = Some (map (fun l => {| Rev0.link := Rev0.link l;
                                 Rev0.highlighted := Rev0.highlighted l;
                                 Rev0.strokeOpacity := Some 1%Q |}) ls).
Proof.
  cbv zeta. unfold Rev0Ui.resetFilters. cbn [Rev0Ui.core Rev0Ui.typeTags Rev0Ui.searchInput].
  set (st0 := Rev0Ui.withFilters (Rev0Ui.core ui) ∅ ∅
                ((fun _ => false) <$> Rev0.fieldFilterElements (Rev0Ui.core ui)) "").
  destruct (applyFilters_filters st0) as (Ht & Hf & Hq & Hg).
  rewrite Ht, Hf, Hq, Hg.
  split; [reflexivity |]. split; [reflexivity |]. split; [reflexivity |].
  split; [reflexivity |]. split; [| split].
  - apply Forall_forall. intros tag Htag.
    apply list_elem_of_fmap in Htag as (tag0 & -> & _). reflexivity.
  - intros k a Hk. subst st0. cbn [Rev0Ui.withFilters Rev0.fieldFilterElements] in Hk.
    rewrite lookup_fmap in Hk.
    destruct (Rev0.fieldFilterElements (Rev0Ui.core ui) !! k); [| discriminate Hk].
    injection Hk as <-. reflexivity.
  - intros gs ls Hgs Hls. unfold Rev0.applyFilters.
    assert (H1 : ∀ d, Rev0.filterOpacity st0 d = 1%Q)
      by (intros d; apply rev0_filterOpacity_unrestricted; reflexivity).
    subst st0. cbn [Rev0Ui.withFilters Rev0.nodeGroups Rev0.linkElements].
    rewrite Hgs, Hls. cbn [Rev0.nodeGroups Rev0.linkElements]. split; f_equal.
    + unfold Rev0.setNodeOpacities. apply map_ext. intros g.
      rewrite (opacityMapOf_const _ _ _ H1). reflexivity.
    + unfold Rev0.filterLinks. apply map_ext. intros l.
      rewrite !(opacityMapOf_const _ _ _ H1). reflexivity.
Qed.

Lemma elem_of_allTypes (ns : list Node.t) (t : string) :
  t ∈ Rev0Ui.allTypes ns ↔ t ≠ "" ∧ ∃ n, n ∈ ns ∧ Node.type n = t.
Proof.
  unfold Rev0Ui.allTypes. induction ns as [|x ns IH] using rev_ind.
  - cbn. split; [intros H; apply not_elem_of_empty in H; contradiction |].
    intros (_ & n & Hn & _). apply elem_of_nil in Hn. contradiction.
  - rewrite foldl_app. cbn [foldl].
    assert (Hx : JsString.truthy (Some (Node.type x)) = true ↔ Node.type x ≠ "")
      by (destruct (Node.type x); cbn; split; congruence).
    destruct (JsString.truthy (Some (Node.type x))) eqn:Htr.
    + rewrite elem_of_union, elem_of_singleton, IH. split.
      * intros [-> | (Hne & n & Hn & Ht)].
        -- split; [apply Hx; reflexivity |]. exists x.
           split; [apply elem_of_app; right; left | reflexivity].
        -- split; [exact Hne |]. exists n. split; [apply elem_of_app; left |]; auto.
      * intros (Hne & n & Hn & Ht). apply elem_of_app in Hn as [Hn | Hn].
        -- right. split; [exact Hne |]. exists n. auto.
        -- apply list_elem_of_singleton in Hn as ->. left. symmetry. exact Ht.
    + rewrite IH. split.
      * intros (Hne & n & Hn & Ht). split; [exact Hne |]. exists n.
        split; [apply elem_of_app; left |]; auto.
      * intros (Hne & n & Hn & Ht). split; [exact Hne |].
        apply elem_of_app in Hn as [Hn | Hn]; [exists n; auto |].
        apply list_elem_of_singleton in Hn as ->. exfalso.
        assert (Hc : Node.type x ≠ "") by congruence.
        apply Hx in Hc. discriminate Hc.
Qed.

Lemma fold_add_fields (fs : list string) (acc : gset string) (f : string) :
  f ∈ foldl (fun acc field => {[ field ]} ∪ acc) acc fs ↔ f ∈ acc ∨ f ∈ fs.
Proof.
  revert acc. induction fs as [|x fs IH]; intros acc.
  - cbn. split; [auto | intros [H | H]; [exact H | apply elem_of_nil in H; contradiction]].
  - cbn [foldl]. rewrite IH, elem_of_union, elem_of_singleton, elem_of_cons. tauto.
Qed.

Lemma elem_of_allFields (ns : list Node.t) (f : string) :
  f ∈ Rev0Ui.allFields ns ↔ ∃ n, n ∈ ns ∧ f ∈ Node.fields n.
Proof.
  unfold Rev0Ui.allFields. induction ns as [|x ns IH] using rev_ind.
  - cbn. split; [intros H; apply not_elem_of_empty in H; contradiction |].
    intros (n & Hn & _). apply elem_of_nil in Hn. contradiction.
  - rewrite foldl_app. cbn [foldl]. rewrite fold_add_fields, IH. split.
    + intros [(n & Hn & Hf) | Hf].
      * exists n. split; [apply elem_of_app; left |]; auto.
      * exists x. split; [apply elem_of_app; right; left | exact Hf].
    + intros (n & Hn & Hf). apply elem_of_app in Hn as [Hn | Hn].
      * left. exists n. auto.
      * apply list_elem_of_singleton in Hn as ->. right. exact Hf.
Qed.

Lemma sortedMembers_sorted (s : gset string) :
  StronglySorted String.le (Rev0Ui.sortedMembers s).
Proof. apply StronglySorted_merge_sort; apply _. Qed.

Lemma fold_insert_tags (g : string → bool) (l : list string) (m : gmap string bool)
    (k : string) :
  foldl (fun m field => <[ field := g field ]> m) m l !! k
  = if decide (k ∈ l) then Some (g k) else m !! k.
Proof.
  revert m. induction l as [|x l IH]; intros m.
  - cbn. destruct (decide (k ∈ [])) as [H | _]; [| reflexivity].
    apply elem_of_nil in H. contradiction.
  - cbn [foldl]. rewrite IH.
    destruct (decide (k ∈ l)) as [Hl | Hl].
    + rewrite decide_True by (right; exact Hl). reflexivity.
    + destruct (decide (x = k)) as [-> | Hne].
      * rewrite decide_True by left. apply lookup_insert_eq.
      * rewrite lookup_insert_ne by exact Hne.
        rewrite decide_False; [reflexivity |].
        intros H. apply elem_of_cons in H as [H | H]; [congruence | contradiction].
Qed.

(** X19.  [buildFilters] creates one type tag for every non-empty type that
    occurs in the nodes and one field tag for every field that occurs, each
    once and in ascending order; the type tags start without the [active]
    class and a field tag starts with it exactly when its field is already
    selected. *)
Theorem X19_buildFilters_tags (nodes : list Node.t) (ui : Rev0Ui.Ui) :
  let ui' := Rev0Ui.buildFilters nodes ui in
  StronglySorted String.le (Rev0Ui.typeTags ui').*1
  ∧ NoDup (Rev0Ui.typeTags ui').*1
  ∧ (∀ t, t ∈ (Rev0Ui.typeTags ui').*1 ↔ t ≠ "" ∧ ∃ n, n ∈ nodes ∧ Node.type n = t)
  ∧ Forall (fun tag => tag.2 = false) (Rev0Ui.typeTags ui')
  ∧ StronglySorted String.le (Rev0Ui.fieldTags ui')
  ∧ NoDup (Rev0Ui.fieldTags ui')
  ∧ (∀ f, f ∈ Rev0Ui.fieldTags ui' ↔ ∃ n, n ∈ nodes ∧ f ∈ Node.fields n)
  ∧ (∀ f, Rev0.fieldFilterElements (Rev0Ui.core ui') !! f
          = if decide (f ∈ Rev0Ui.fieldTags ui')
            then Some (bool_decide (f ∈ Rev0.selectedFields (Rev0Ui.core ui)))
            else None).
Proof.
  cbv zeta. unfold Rev0Ui.buildFilters.
  cbn [Rev0Ui.typeTags Rev0Ui.fieldTags Rev0Ui.core Rev0Ui.withFilters
       Rev0.fieldFilterElements].
  rewrite fst_tag_labels.
  split; [apply sortedMembers_sorted |]. split; [apply NoDup_sortedMembers |].
  split; [intros t; rewrite elem_of_sortedMembers; apply elem_of_allTypes |].
  split.
  { apply Forall_forall. intros tag Htag.
    apply list_elem_of_fmap in Htag as (t & -> & _). reflexivity. }
  split; [apply sortedMembers_sorted |]. split; [apply NoDup_sortedMembers |].
  split; [intros f; rewrite elem_of_sortedMembers; apply elem_of_allFields |].
  intros f.
  rewrite (fold_insert_tags
             (fun field => bool_decide (field ∈ Rev0.selectedFields (Rev0Ui.core ui)))).
  destruct (decide _); [reflexivity | apply lookup_empty].
Qed.

(** ** Selection, further *)

(** [connectedIds] holds the node itself and the other endpoint of every
    link that touches it. *)
Lemma connectedIdsOf_spec (d : Node.t) (ls : list Rev0.LinkElement) (k : string) :
  k ∈ Rev0.connectedIdsOf d ls
  ↔ k = Node.id d ∨ ∃ l, l ∈ ls ∧ joins (Node.id d) k (Rev0.link l).
Proof.
  unfold Rev0.connectedIdsOf. induction ls as [|x ls IH] using rev_ind.
  - cbn. rewrite elem_of_singleton. split; [auto |].
    intros [H | (l & Hl & _)]; [exact H | apply elem_of_nil in Hl; contradiction].
  - rewrite foldl_app. cbn [foldl].
    set (acc := foldl _ _ ls) in *.
    assert (Hstep : k ∈ (if bool_decide (target (Rev0.link x) = Node.id d)
                         then {[ source (Rev0.link x) ]}
                              ∪ (if bool_decide (source (Rev0.link x) = Node.id d)
                                 then {[ target (Rev0.link x) ]} ∪ acc else acc)
                         else if bool_decide (source (Rev0.link x) = Node.id d)
                              then {[ target (Rev0.link x) ]} ∪ acc else acc)
                    ↔ k ∈ acc ∨ joins (Node.id d) k (Rev0.link x)).
    { unfold joins.
      destruct (decide (target (Rev0.link x) = Node.id d)) as [Et | Et],
               (decide (source (Rev0.link x) = Node.id d)) as [Es | Es];
        rewrite ?(bool_decide_eq_true_2 _ Et), ?(bool_decide_eq_false_2 _ Et),
                ?(bool_decide_eq_true_2 _ Es), ?(bool_decide_eq_false_2 _ Es),
                ?elem_of_union, ?elem_of_singleton;
        intuition congruence. }
    rewrite Hstep, IH. split.
    + intros [[H | (l & Hl & Hj)] | Hj]; [left; exact H | right | right].
      * exists l. split; [apply elem_of_app; left |]; auto.
      * exists x. split; [apply elem_of_app; right; left | exact Hj].
    + intros [H | (l & Hl & Hj)]; [left; left; exact H |].
      apply elem_of_app in Hl as [Hl | Hl].
      * left. right. exists l. auto.
      * apply list_elem_of_singleton in Hl as ->. right. exact Hj.
Qed.

Lemma getOr1_lookup (m : gmap string Q) (k : string) (q : Q) :
  m !! k = Some q → Qeq_bool q 0 = false → Rev0.getOr1 m k = q.
Proof. intros H Hq. unfold Rev0.getOr1. rewrite H, Hq. reflexivity. Qed.

(** With pairwise distinct ids, every node group gets the opacity chosen
    for its own node, when that opacity is never zero. *)
Lemma setNodeOpacities_own (f : Node.t → Q) (gs : list Rev0.NodeGroup) :
  NoDup (map (fun g => Node.id (Rev0.datum g)) gs) →
  (∀ n, Qeq_bool (f n) 0 = false) →
  Rev0.setNodeOpacities (Rev0.opacityMapOf f gs) gs
  = map (fun g => {| Rev0.datum := Rev0.datum g;
                     Rev0.opacity := Some (f (Rev0.datum g)) |}) gs.
Proof.
  intros Hnd Hf. unfold Rev0.setNodeOpacities. apply map_ext_in. intros g Hg.
  f_equal. f_equal. apply getOr1_lookup; [| apply Hf].
  apply opacityMapOf_lookup; [exact Hnd | apply list_elem_of_In, Hg].
Qed.

Lemma clickOpacity_nonzero (d : Node.t) (S : gset string) (n : Node.t) :
  Qeq_bool (Rev0.clickOpacity d S n) 0 = false.
Proof. unfold Rev0.clickOpacity. repeat destruct (bool_decide _); reflexivity. Qed.

Lemma hoverOpacity_nonzero (d : Node.t) (S : gset string) (n : Node.t) :
  Qeq_bool (Rev0.hoverOpacity d S n) 0 = false.
Proof. unfold Rev0.hoverOpacity. repeat destruct (bool_decide _); reflexivity. Qed.

(** X20.  When the ids of the drawn nodes are pairwise distinct, a click on
    a node leaves at opacity 1 exactly the node itself and the nodes that
    share a link with it, and dims every other node to 0.15, whatever its
    type and whatever the filters are. *)
Theorem X20_click_highlights_node_and_neighbours
    (st : Rev0.State) (d : Node.t)
    (gs : list Rev0.NodeGroup) (ls : list Rev0.LinkElement) :
  Rev0.nodeGroups st = Some gs →
  Rev0.linkElements st = Some ls →
  NoDup (map (fun g => Node.id (Rev0.datum g)) gs) →
  ∃ gs', Rev0.nodeGroups (Rev0.handleNodeClick d st) = Some gs'
         ∧ Forall2 (fun g g' =>
                      Rev0.datum g' = Rev0.datum g
                      ∧ (Rev0.opacity g' = Some 1%Q
                         ∨ Rev0.opacity g' = Some (15 # 100)%Q)
                      ∧ (Rev0.opacity g' = Some 1%Q
                         ↔ Node.id (Rev0.datum g) = Node.id d
                           ∨ ∃ l, l ∈ ls
                                  ∧ joins (Node.id d) (Node.id (Rev0.datum g))
                                      (Rev0.link l)))
              gs gs'.
Proof.
  intros Hgs Hls Hnd. unfold Rev0.handleNodeClick, Rev0.showPopup, Rev0.withPopup.
  cbn [Rev0.nodeGroups]. rewrite Hgs, Hls. cbn [default fmap option_fmap option_map].
  eexists. split; [reflexivity |].
  rewrite (setNodeOpacities_own _ _ Hnd (clickOpacity_nonzero d _)).
  apply Forall2_fmap_r, Forall_Forall2_diag, Forall_forall. intros g _.
  cbn [Rev0.datum Rev0.opacity]. split; [reflexivity |].
  pose proof (connectedIdsOf_spec d ls (Node.id (Rev0.datum g))) as Hc.
  unfold Rev0.clickOpacity.
  destruct (decide (Node.id (Rev0.datum g) = Node.id d)) as [Eid | Eid].
  { rewrite (bool_decide_eq_true_2 _ Eid).
    split; [left; reflexivity |]. split; auto. }
  rewrite (bool_decide_eq_false_2 _ Eid).
  destruct (decide (Node.id (Rev0.datum g) ∈ Rev0.connectedIdsOf d ls)) as [Ein | Ein].
  - rewrite (bool_decide_eq_true_2 _ Ein).
    split; [left; reflexivity |]. split; [| reflexivity]. intros _. apply Hc, Ein.
  - rewrite (bool_decide_eq_false_2 _ Ein).
    split; [right; reflexivity |]. split; [discriminate |].
    intros Hn. exfalso. apply Ein, Hc, Hn.
Qed.

Lemma X20_witness :
  let st := rev0State ∅ ∅ "" (Rev0.normalizeData threeNodes) in
  let a := Rev0.nodeOfRow (mkRow "A" "Art" "paint,sculpture" "B") in
  ∃ gs ls gs',
    Rev0.nodeGroups st = Some gs ∧ Rev0.linkElements st = Some ls
    ∧ Rev0.nodeGroups (Rev0.handleNodeClick a st) = Some gs'
    ∧ Forall2 (fun g g' =>
                 Rev0.datum g' = Rev0.datum g
                 ∧ (Rev0.opacity g' = Some 1%Q ∨ Rev0.opacity g' = Some (15 # 100)%Q)
                 ∧ (Rev0.opacity g' = Some 1%Q
                    ↔ Node.id (Rev0.datum g) = Node.id a
                      ∨ ∃ l, l ∈ ls
                             ∧ joins (Node.id a) (Node.id (Rev0.datum g)) (Rev0.link l)))
         gs gs'.
Proof.
  cbv zeta.
  destruct (X20_click_highlights_node_and_neighbours
              (rev0State ∅ ∅ "" (Rev0.normalizeData threeNodes))
              (Rev0.nodeOfRow (mkRow "A" "Art" "paint,sculpture" "B"))
              _ _ eq_refl eq_refl) as (gs' & H1 & H2).
  - apply (bool_decide_unpack _). vm_compute. exact I.
  - eexists _, _, gs'. split; [reflexivity |]. split; [reflexivity |].
    split; [exact H1 | exact H2].
Defined.

(** X21.  When the ids of the drawn nodes are pairwise distinct and no click
    is active, hovering a node leaves at opacity 1 the node itself, the
    nodes that share a link with it and the nodes of its type, dims every
    other node to 0.15, records the node as hovered and shows the popup. *)
Theorem X21_hover_highlights_neighbours_and_type
    (st : Rev0.State) (d : Node.t)
    (gs : list Rev0.NodeGroup) (ls : list Rev0.LinkElement) :
  Rev0.clickedNode st = None →
  Rev0.nodeGroups st = Some gs →
  Rev0.linkElements st = Some ls →
  NoDup (map (fun g => Node.id (Rev0.datum g)) gs) →
  Rev0.hoveredNode (Rev0.handleNodeHover d st) = Some d
  ∧ Rev0.displayed (Rev0.popup (Rev0.handleNodeHover d st)) = true
  ∧ ∃ gs', Rev0.nodeGroups (Rev0.handleNodeHover d st) = Some gs'
           ∧ Forall2 (fun g g' =>
                        Rev0.datum g' = Rev0.datum g
                        ∧ (Rev0.opacity g' = Some 1%Q
                           ∨ Rev0.opacity g' = Some (15 # 100)%Q)
                        ∧ (Rev0.opacity g' = Some 1%Q
                           ↔ Node.id (Rev0.datum g) = Node.id d
                             ∨ (∃ l, l ∈ ls
                                     ∧ joins (Node.id d) (Node.id (Rev0.datum g))
                                         (Rev0.link l))
                             ∨ Node.type (Rev0.datum g) = Node.type d))
                gs gs'.
Proof.
  intros Hc Hgs Hls Hnd.
  unfold Rev0.handleNodeHover, Rev0.clickedElsewhere, Rev0.showsOnHover.
  rewrite Hc. unfold Rev0.showPopup, Rev0.withPopup.
  cbn [Rev0.nodeGroups Rev0.hoveredNode Rev0.popup Rev0.displayed].
  rewrite Hgs, Hls. cbn [default fmap option_fmap option_map].
  split; [reflexivity |]. split; [reflexivity |].
  eexists. split; [reflexivity |].
  rewrite (setNodeOpacities_own _ _ Hnd (hoverOpacity_nonzero d _)).
  apply Forall2_fmap_r, Forall_Forall2_diag, Forall_forall. intros g _.
  cbn [Rev0.datum Rev0.opacity]. split; [reflexivity |].
  pose proof (connectedIdsOf_spec d ls (Node.id (Rev0.datum g))) as Hcon.
  unfold Rev0.hoverOpacity.
  destruct (decide (Node.id (Rev0.datum g) = Node.id d)) as [Eid | Eid].
  { rewrite (bool_decide_eq_true_2 _ Eid).
    split; [left; reflexivity |]. split; auto. }
  rewrite (bool_decide_eq_false_2 _ Eid).
  destruct (decide (Node.id (Rev0.datum g) ∈ Rev0.connectedIdsOf d ls)) as [Ein | Ein].
  { rewrite (bool_decide_eq_true_2 _ Ein).
    split; [left; reflexivity |]. split; [| reflexivity]. intros _.
    apply Hcon in Ein. destruct Ein; auto. }
  rewrite (bool_decide_eq_false_2 _ Ein).
  destruct (decide (Node.type (Rev0.datum g) = Node.type d)) as [Ety | Ety].
  - rewrite (bool_decide_eq_true_2 _ Ety).
    split; [left; reflexivity |]. split; auto.
  - rewrite (bool_decide_eq_false_2 _ Ety).
    split; [right; reflexivity |]. split; [discriminate |].
    intros [Hn | [Hn | Hn]]; exfalso; [contradiction | | contradiction].
    apply Ein, Hcon. right. exact Hn.
Qed.

Lemma X21_witness :
  let st := rev0State ∅ ∅ "" (Rev0.normalizeData threeNodes) in
  let b := Rev0.nodeOfRow (mkRow "B" "Music" "paint" "A,C") in
  Rev0.hoveredNode (Rev0.handleNodeHover b st) = Some b
  ∧ Rev0.displayed (Rev0.popup (Rev0.handleNodeHover b st)) = true.
Proof.
  cbv zeta.
  destruct (X21_hover_highlights_neighbours_and_type
              (rev0State ∅ ∅ "" (Rev0.normalizeData threeNodes))
              (Rev0.nodeOfRow (mkRow "B" "Music" "paint" "A,C"))
              _ _ eq_refl eq_refl eq_refl) as (H1 & H2 & _).
  - apply (bool_decide_unpack _). vm_compute. exact I.
  - split; [exact H1 | exact H2].
Defined.

Lemma highlightLinks_link (d : Node.t) (m : gmap string Q) (ls : list Rev0.LinkElement) :
  Rev0Ui.resetLinks (Rev0.highlightLinks d m ls) = Rev0Ui.resetLinks ls.
Proof.
  unfold Rev0Ui.resetLinks, Rev0.highlightLinks. rewrite map_map.
  apply map_ext. reflexivity.
Qed.

Lemma filterLinks_resetLinks (m : gmap string Q) (ls : list Rev0.LinkElement) :
  Rev0.filterLinks m (Rev0Ui.resetLinks ls)
  = map (fun l => {| Rev0.link := Rev0.link l; Rev0.highlighted := false;
                     Rev0.strokeOpacity := Rev0.strokeOpacity l |})
      (Rev0.filterLinks m ls).
Proof.
  unfold Rev0.filterLinks, Rev0Ui.resetLinks. rewrite !map_map.
  apply map_ext. reflexivity.
Qed.

(** X22.  Hover followed by mouse-out, with no click active, brings the
    drawing back to what the filters prescribe: the node opacities are those
    of [applyFilters], the links carry the filter's opacities and no
    highlight, no node is hovered and the popup is hidden; the filters are
    untouched. *)
Theorem X22_hover_then_mouse_out_restores_filter_view
    (st : Rev0.State) (d : Node.t)
    (gs : list Rev0.NodeGroup) (ls : list Rev0.LinkElement) :
  Rev0.clickedNode st = None →
  Rev0.nodeGroups st = Some gs →
  Rev0.linkElements st = Some ls →
  let st' := Rev0Ui.handleNodeMouseOut d (Rev0.handleNodeHover d st) in
  keepsFilters st st'
  ∧ Rev0.clickedNode st' = None
  ∧ Rev0.hoveredNode st' = None
  ∧ Rev0.displayed (Rev0.popup st') = false
  ∧ Rev0.nodeGroups st' = Rev0.nodeGroups (Rev0.applyFilters st)
  ∧ Rev0.linkElements st'
    = (map (fun l => {| Rev0.link := Rev0.link l; Rev0.highlighted := false;
                        Rev0.strokeOpacity := Rev0.strokeOpacity l |}))
      <$> Rev0.linkElements (Rev0.applyFilters st).
Proof.
  intros Hc Hgs Hls st'. subst st'.
  destruct st as [T F g Q c h ogs ols p]. cbn in Hc, Hgs, Hls. subst c ogs ols.
  unfold Rev0.handleNodeHover, Rev0.clickedElsewhere, Rev0.showsOnHover.
  cbn [Rev0.clickedNode Rev0.nodeGroups Rev0.linkElements default fmap option_fmap
       option_map Rev0.selectedTypes Rev0.selectedFields Rev0.fieldFilterElements
       Rev0.searchQuery Rev0.popup].
  unfold Rev0.showPopup, Rev0.withPopup, Rev0Ui.handleNodeMouseOut,
    Rev0Ui.withSelection, Rev0Ui.withLinks, Rev0.hidePopup, Rev0.withPopup.
  cbn [Rev0.clickedNode Rev0.nodeGroups Rev0.linkElements default fmap option_fmap
       option_map Rev0.selectedTypes Rev0.selectedFields Rev0.fieldFilterElements
       Rev0.searchQuery Rev0.popup Rev0.hoveredNode].
  unfold Rev0.applyFilters.
  cbn [Rev0.clickedNode Rev0.nodeGroups Rev0.linkElements Rev0.selectedTypes
       Rev0.selectedFields Rev0.fieldFilterElements Rev0.searchQuery Rev0.popup
       Rev0.hoveredNode Rev0.displayed].
  split; [repeat split |]. split; [reflexivity |]. split; [reflexivity |].
  split; [reflexivity |].
  rewrite highlightLinks_link, filterLinks_resetLinks, setNodeOpacities_again.
  match goal with
  | |- context [Rev0.opacityMapOf ?f (Rev0.setNodeOpacities ?m gs)] =>
      rewrite (opacityMapOf_ext f
                 (Rev0.filterOpacity
                    {| Rev0.selectedTypes := T; Rev0.selectedFields := F;
                       Rev0.fieldFilterElements := g; Rev0.searchQuery := Q;
                       Rev0.clickedNode := None; Rev0.hoveredNode := h;
                       Rev0.nodeGroups := Some gs; Rev0.linkElements := Some ls;
                       Rev0.popup := p |})
                 (Rev0.setNodeOpacities m gs) gs)
  end.
  - split; reflexivity.
  - intros n. apply rev0_filterOpacity_ext; reflexivity.
  - apply setNodeOpacities_datum.
Qed.

Lemma X22_witness :
  let st := rev0State ∅ {[ "paint" ]} "" (Rev0.normalizeData threeNodes) in
  let b := Rev0.nodeOfRow (mkRow "B" "Music" "paint" "A,C") in
  let st' := Rev0Ui.handleNodeMouseOut b (Rev0.handleNodeHover b st) in
  Rev0.displayed (Rev0.popup st') = false
  ∧ Rev0.nodeGroups st' = Rev0.nodeGroups (Rev0.applyFilters st).
Proof.
  cbv zeta.
  destruct (X22_hover_then_mouse_out_restores_filter_view
              (rev0State ∅ {[ "paint" ]} "" (Rev0.normalizeData threeNodes))
              (Rev0.nodeOfRow (mkRow "B" "Music" "paint" "A,C"))
              _ _ eq_refl eq_refl eq_refl) as (_ & _ & _ & H1 & H2 & _).
  split; [exact H1 | exact H2].
Defined.

(** X23.  While a click is active, mouse-out of any node keeps the popup
    and the clicked node as they are; it clears the hovered node and
    replaces the node opacities by those the filters prescribe, so the
    dimming that the click applied is given up. *)
Theorem X23_mouse_out_keeps_popup_while_clicked
    (st : Rev0.State) (c d : Node.t) :
  Rev0.clickedNode st = Some c →
  let st' := Rev0Ui.handleNodeMouseOut d st in
  Rev0.popup st' = Rev0.popup st
  ∧ Rev0.clickedNode st' = Some c
  ∧ Rev0.hoveredNode st' = None
  ∧ keepsFilters st st'
  ∧ Rev0.nodeGroups st' = Rev0.nodeGroups (Rev0.applyFilters st).
Proof.
  intros Hc st'. subst st'.
  split; [| split; [| split; [| split; [apply keepsFilters_mouseOut |]]]];
    unfold Rev0Ui.handleNodeMouseOut;
    cbn [Rev0Ui.withSelection Rev0.clickedNode]; rewrite Hc;
    destruct st as [T F g Q c0 h ogs ols p];
    destruct (bool_decide (Node.id c = Node.id d));
    destruct ogs as [gs|], ols as [ls|]; try reflexivity;
    cbn in Hc; subst c0; try reflexivity.
  all: cbn [Rev0Ui.withLinks Rev0Ui.withSelection Rev0.applyFilters Rev0.nodeGroups
            Rev0.linkElements fmap option_fmap option_map Rev0.selectedTypes
            Rev0.selectedFields Rev0.fieldFilterElements Rev0.searchQuery
            Rev0.clickedNode Rev0.hoveredNode Rev0.popup];
    f_equal; f_equal; apply opacityMapOf_ext; [| reflexivity];
    intros n; apply rev0_filterOpacity_ext; reflexivity.
Qed.

Lemma X23_witness :
  let a := Rev0.nodeOfRow (mkRow "A" "Art" "paint,sculpture" "B") in
  let c := Rev0.nodeOfRow (mkRow "C" "Music" "dance" "") in
  let st := Rev0.handleNodeClick a (rev0State ∅ ∅ "" (Rev0.normalizeData threeNodes)) in
  Rev0.popup (Rev0Ui.handleNodeMouseOut c st) = Rev0.popup st
  ∧ Rev0.nodeGroups (Rev0Ui.handleNodeMouseOut c st)
    = Rev0.nodeGroups (Rev0.applyFilters st).
Proof.
  cbv zeta.
  destruct (X23_mouse_out_keeps_popup_while_clicked
              (Rev0.handleNodeClick
                 (Rev0.nodeOfRow (mkRow "A" "Art" "paint,sculpture" "B"))
                 (rev0State ∅ ∅ "" (Rev0.normalizeData threeNodes)))
              (Rev0.nodeOfRow (mkRow "A" "Art" "paint,sculpture" "B"))
              (Rev0.nodeOfRow (mkRow "C" "Music" "dance" ""))
              eq_refl) as (H1 & _ & _ & _ & H2).
  split; [exact H1 | exact H2].
Defined.

(** X24.  A click on the drawing never recomputes anything: for every
    event and state it leaves the node opacities, the link opacities and the
    filters as they are.  A click on the background (with the popup not on
    the event path) clears the clicked and the hovered node and hides the
    popup, so the dimming of an earlier node click stays in place: after a
    click on A of the three-node dataset and a click on the background, C is
    still at 0.15. *)
Theorem X24_background_click_keeps_opacities
    (event : Rev0Ui.ClickEvent) (st : Rev0.State) :
  Rev0.nodeGroups (Rev0Ui.svgClick event st) = Rev0.nodeGroups st
  ∧ Rev0.linkElements (Rev0Ui.svgClick event st) = Rev0.linkElements st
  ∧ keepsFilters st (Rev0Ui.svgClick event st)
  ∧ (let st' := Rev0Ui.svgClick {| Rev0Ui.pathHasPopup := false;
                                   Rev0Ui.targetIsBackground := true |} st in
     Rev0.clickedNode st' = None ∧ Rev0.hoveredNode st' = None
     ∧ Rev0.displayed (Rev0.popup st') = false)
  ∧ rev0Opacities
      (Rev0Ui.svgClick {| Rev0Ui.pathHasPopup := false;
                          Rev0Ui.targetIsBackground := true |}
         (Rev0.handleNodeClick (Rev0.nodeOfRow (mkRow "A" "Art" "paint,sculpture" "B"))
            (rev0State ∅ ∅ "" (Rev0.normalizeData threeNodes))))
    = Some [("A", Some 1%Q); ("B", Some 1%Q); ("C", Some (15 # 100)%Q)].
Proof.
  split; [| split; [| split; [apply keepsFilters_svgClick | split]]].
  - unfold Rev0Ui.svgClick. destruct (_ && _); [reflexivity |].
    destruct (Rev0Ui.targetIsBackground event); reflexivity.
  - unfold Rev0Ui.svgClick. destruct (_ && _); [reflexivity |].
    destruct (Rev0Ui.targetIsBackground event); reflexivity.
  - unfold Rev0Ui.svgClick. cbn [Rev0Ui.pathHasPopup Rev0Ui.targetIsBackground].
    rewrite andb_false_r. repeat split.
  - vm_compute. reflexivity.
Qed.

(** ** HTML escaping *)

Lemma replaceChar_app (c : ascii) (r a b : string) :
  Rev0.replaceChar c r (a +:+ b) = Rev0.replaceChar c r a +:+ Rev0.replaceChar c r b.
Proof.
  induction a as [|x a IH]; [reflexivity |].
  rewrite sapp_cons. cbn [Rev0.replaceChar]. rewrite IH, sapp_assoc. reflexivity.
Qed.

Lemma replaceChar_one (c x : ascii) (r : string) :
  Rev0.replaceChar c r (String x "") = if bool_decide (x = c) then r else String x "".
Proof. cbn [Rev0.replaceChar]. apply sapp_nil_r. Qed.

Lemma escape_one (x : ascii) : Rev0.escapeHtml (String x "") = escapeChar x.
Proof.
  unfold Rev0.escapeHtml, escapeChar. rewrite replaceChar_one.
  destruct (decide (x = "&"%char)) as [-> | H1]; [reflexivity |].
  rewrite (bool_decide_eq_false_2 _ H1), replaceChar_one.
  destruct (decide (x = "<"%char)) as [-> | H2]; [reflexivity |].
  rewrite (bool_decide_eq_false_2 _ H2), replaceChar_one.
  destruct (decide (x = ">"%char)) as [-> | H3]; [reflexivity |].
  rewrite (bool_decide_eq_false_2 _ H3), replaceChar_one.
  destruct (decide (x = "034"%char)) as [-> | H4]; [reflexivity |].
  rewrite (bool_decide_eq_false_2 _ H4), replaceChar_one.
  reflexivity.
Qed.

Lemma escapeHtml_app (a b : string) :
  Rev0.escapeHtml (a +:+ b) = Rev0.escapeHtml a +:+ Rev0.escapeHtml b.
Proof. unfold Rev0.escapeHtml. rewrite !replaceChar_app. reflexivity. Qed.

(** The five successive replacements amount to one pass that replaces each
    character on its own; the entities written for one character are not
    touched by the later replacements. *)
Lemma escapeHtml_escapeAll (s : string) : Rev0.escapeHtml s = escapeAll s.
Proof.
  induction s as [|x s IH]; [reflexivity |].
  change (String x s) with (String x "" +:+ s).
  rewrite escapeHtml_app, escape_one, IH. reflexivity.
Qed.

Lemma chars_app (a b : string) :
  String.list_ascii_of_string (a +:+ b)
  = String.list_ascii_of_string a ++ String.list_ascii_of_string b.
Proof.
  induction a as [|x a IH]; [reflexivity |].
  rewrite sapp_cons. cbn. rewrite IH. reflexivity.
Qed.

Lemma escapeChar_clean (c : ascii) :
  Forall (fun x => isMarkupChar x = false) (String.list_ascii_of_string (escapeChar c)).
Proof.
  unfold escapeChar.
  destruct (decide (c = "&"%char)) as [-> | H1]; [repeat constructor |].
  rewrite (bool_decide_eq_false_2 _ H1).
  destruct (decide (c = "<"%char)) as [-> | H2]; [repeat constructor |].
  rewrite (bool_decide_eq_false_2 _ H2).
  destruct (decide (c = ">"%char)) as [-> | H3]; [repeat constructor |].
  rewrite (bool_decide_eq_false_2 _ H3).
  destruct (decide (c = "034"%char)) as [-> | H4]; [repeat constructor |].
  rewrite (bool_decide_eq_false_2 _ H4).
  destruct (decide (c = "'"%char)) as [-> | H5]; [repeat constructor |].
  rewrite (bool_decide_eq_false_2 _ H5).
  repeat constructor. unfold isMarkupChar.
  rewrite (bool_decide_eq_false_2 _ H2), (bool_decide_eq_false_2 _ H3),
    (bool_decide_eq_false_2 _ H4), (bool_decide_eq_false_2 _ H5). reflexivity.
Qed.

(** X25.  [escapeHtml] replaces every character on its own (the ampersand,
    the angle brackets and the two quotes by their entities, any other
    character by itself), and its result contains no angle bracket and no
    quote, whatever the input. *)
Theorem X25_escapeHtml_leaves_no_markup (str : string) :
  Rev0.escapeHtml str = escapeAll str
  ∧ Forall (fun x => isMarkupChar x = false)
      (String.list_ascii_of_string (Rev0.escapeHtml str)).
Proof.
  split; [apply escapeHtml_escapeAll |].
  rewrite escapeHtml_escapeAll. induction str as [|c s IH]; [constructor |].
  cbn [escapeAll]. rewrite chars_app. apply Forall_app. split; [apply escapeChar_clean | exact IH].
Qed.

Lemma escapeChar_cases (c : ascii) :
  (c = "&"%char ∧ escapeChar c = "&amp;")
  ∨ (c = "<"%char ∧ escapeChar c = "&lt;")
  ∨ (c = ">"%char ∧ escapeChar c = "&gt;")
  ∨ (c = "034"%char ∧ escapeChar c = "&quot;")
  ∨ (c = "'"%char ∧ escapeChar c = "&#39;")
  ∨ (c ≠ "&"%char ∧ escapeChar c = String c "").
Proof.
  unfold escapeChar.
  destruct (decide (c = "&"%char)) as [-> | H1]; [left; split; reflexivity |].
  rewrite (bool_decide_eq_false_2 _ H1).
  destruct (decide (c = "<"%char)) as [-> | H2]; [right; left; split; reflexivity |].
  rewrite (bool_decide_eq_false_2 _ H2).
  destruct (decide (c = ">"%char)) as [-> | H3];
    [right; right; left; split; reflexivity |].
  rewrite (bool_decide_eq_false_2 _ H3).
  destruct (decide (c = "034"%char)) as [-> | H4];
    [right; right; right; left; split; reflexivity |].
  rewrite (bool_decide_eq_false_2 _ H4).
  destruct (decide (c = "'"%char)) as [-> | H5];
    [right; right; right; right; left; split; reflexivity |].
  rewrite (bool_decide_eq_false_2 _ H5).
  right; right; right; right; right. split; [exact H1 | reflexivity].
Qed.

(** No escaped form of a character is the beginning of another one. *)
Lemma escapeChar_prefix_free (c1 c2 : ascii) (t1 t2 : string) :
  escapeChar c1 +:+ t1 = escapeChar c2 +:+ t2 → c1 = c2 ∧ t1 = t2.
Proof.
  destruct (escapeChar_cases c1)
    as [[E1 ->] | [[E1 ->] | [[E1 ->] | [[E1 ->] | [[E1 ->] | [E1 ->]]]]]];
  destruct (escapeChar_cases c2)
    as [[E2 ->] | [[E2 ->] | [[E2 ->] | [[E2 ->] | [[E2 ->] | [E2 ->]]]]]];
  rewrite ?sapp_cons, ?sapp_nil_l; intros H; simplify_eq; auto.
Qed.

Lemma escapeChar_nonempty (c : ascii) (t : string) : escapeChar c +:+ t ≠ "".
Proof.
  destruct (escapeChar_cases c)
    as [[_ ->] | [[_ ->] | [[_ ->] | [[_ ->] | [[_ ->] | [_ ->]]]]]];
    rewrite sapp_cons; discriminate.
Qed.

(** X26.  [escapeHtml] loses nothing: two different strings never have the
    same escaped form. *)
Theorem X26_escapeHtml_is_injective (s1 s2 : string) :
  Rev0.escapeHtml s1 = Rev0.escapeHtml s2 → s1 = s2.
Proof.
  rewrite !escapeHtml_escapeAll. revert s2.
  induction s1 as [|c1 s1 IH]; intros [|c2 s2] H; cbn [escapeAll] in H.
  - reflexivity.
  - symmetry in H. apply escapeChar_nonempty in H. contradiction.
  - apply escapeChar_nonempty in H. contradiction.
  - apply escapeChar_prefix_free in H as [-> H]. f_equal. apply IH, H.
Qed.

Lemma X26_witness : "a<b" = "a<b".
Proof. apply X26_escapeHtml_is_injective. reflexivity. Defined.

(** ** Handlers of the base revision *)

Lemma main_applyFilters_variables (st : Main.State) :
  Main.selectedTypes (Main.applyFilters st) = Main.selectedTypes st
  ∧ Main.selectedFields (Main.applyFilters st) = Main.selectedFields st
  ∧ Main.searchQuery (Main.applyFilters st) = Main.searchQuery st.
Proof.
  unfold Main.applyFilters. destruct (Main.nodeElements st); repeat split; reflexivity.
Qed.

(** A click on a tag keeps the tags of its kind in step with the set. *)
Lemma toggled_inSync (tags : list (string * bool)) (s : gset string) (i : nat)
    (tag : string * bool) :
  MainUi.inSync tags s → tags !! i = Some tag →
  MainUi.inSync (<[ i := (tag.1, negb tag.2) ]> tags) (MainUi.toggled tag.2 tag.1 s).
Proof.
  intros [H1 H2] Hi. destruct tag as [t b]. cbn [fst snd].
  pose proof (proj1 (Forall_lookup _ _) H1 i _ Hi) as Hb. cbn [fst snd] in Hb.
  split; [| rewrite (fst_insert_same _ _ _ _ _ Hi); exact H2].
  apply Forall_lookup. intros j [t' b'] Hj. cbn [fst snd]. unfold MainUi.toggled.
  destruct (decide (j = i)) as [-> | Hne].
  - rewrite list_lookup_insert_eq in Hj by (apply lookup_lt_Some in Hi; exact Hi).
    injection Hj as <- <-. rewrite Hb.
    destruct (decide (t ∈ s)) as [Hin | Hin].
    + rewrite (bool_decide_eq_true_2 _ Hin). cbn [negb]. symmetry.
      apply bool_decide_eq_false_2. rewrite elem_of_difference, elem_of_singleton.
      intros [_ H]. apply H. reflexivity.
    + rewrite (bool_decide_eq_false_2 _ Hin). cbn [negb]. symmetry.
      apply bool_decide_eq_true_2, elem_of_union. left.
      apply elem_of_singleton. reflexivity.
  - rewrite list_lookup_insert_ne in Hj by congruence.
    pose proof (proj1 (Forall_lookup _ _) H1 j _ Hj) as Hb'. cbn [fst snd] in Hb'.
    assert (Htt : t' ≠ t).
    { intros ->. apply Hne. apply (NoDup_lookup _ j i t H2).
      - rewrite list_lookup_fmap, Hj. reflexivity.
      - rewrite list_lookup_fmap, Hi. reflexivity. }
    rewrite Hb'. apply bool_decide_ext. destruct b.
    + rewrite elem_of_difference, elem_of_singleton. tauto.
    + rewrite elem_of_union, elem_of_singleton. tauto.
Qed.

Lemma cleared_inSync (tags : list (string * bool)) :
  NoDup tags.*1 → MainUi.inSync (map (fun tag => (tag.1, false)) tags) ∅.
Proof.
  intros H. split.
  - apply Forall_forall. intros tag Htag.
    apply list_elem_of_fmap in Htag as (tag0 & -> & _). reflexivity.
  - rewrite <- list_fmap_compose. exact H.
Qed.

Lemma fresh_inSync (s : gset string) :
  MainUi.inSync (map (fun label => (label, false)) (merge_sort String.le (elements s))) ∅.
Proof.
  split.
  - apply Forall_forall. intros tag Htag.
    apply list_elem_of_fmap in Htag as (t & -> & _). reflexivity.
  - rewrite fst_tag_labels, merge_sort_Permutation. apply NoDup_elements.
Qed.

Lemma main_tagsInSync_step (ui : MainUi.Ui) (a : MainUi.Action) :
  MainUi.tagsInSync ui → MainUi.tagsInSync (MainUi.step ui a).
Proof.
  intros [Ht Hf]. unfold MainUi.tagsInSync.
  destruct a as [i | i | v | | d | d | d | b |]; cbn [MainUi.step].
  - unfold MainUi.typeTagClick.
    destruct (MainUi.typeTags ui !! i) as [tag|] eqn:Hi; [| split; assumption].
    cbn [MainUi.filter MainUi.typeTags MainUi.fieldTags].
    destruct (main_applyFilters_variables
                (MainUi.withVariables (MainUi.filter ui)
                   (MainUi.toggled tag.2 tag.1 (Main.selectedTypes (MainUi.filter ui)))
                   (Main.selectedFields (MainUi.filter ui))
                   (Main.searchQuery (MainUi.filter ui)))) as (-> & -> & _).
    split; [apply toggled_inSync; assumption | exact Hf].
  - unfold MainUi.fieldTagClick.
    destruct (MainUi.fieldTags ui !! i) as [tag|] eqn:Hi; [| split; assumption].
    cbn [MainUi.filter MainUi.typeTags MainUi.fieldTags].
    destruct (main_applyFilters_variables
                (MainUi.withVariables (MainUi.filter ui)
                   (Main.selectedTypes (MainUi.filter ui))
                   (MainUi.toggled tag.2 tag.1 (Main.selectedFields (MainUi.filter ui)))
                   (Main.searchQuery (MainUi.filter ui)))) as (-> & -> & _).
    split; [exact Ht | apply toggled_inSync; assumption].
  - unfold MainUi.searchInputChanged.
    cbn [MainUi.filter MainUi.typeTags MainUi.fieldTags].
    destruct (main_applyFilters_variables
                (MainUi.withVariables (MainUi.filter ui)
                   (Main.selectedTypes (MainUi.filter ui))
                   (Main.selectedFields (MainUi.filter ui)) v)) as (-> & -> & _).
    split; assumption.
  - unfold MainUi.resetFilters.
    cbn [MainUi.filter MainUi.typeTags MainUi.fieldTags].
    destruct (main_applyFilters_variables
                (MainUi.withVariables (MainUi.filter ui) ∅ ∅ "")) as (-> & -> & _).
    split; apply cleared_inSync; [apply Ht | apply Hf].
  - split; assumption.
  - cbn [MainUi.handleNodeMouseOut MainUi.filter MainUi.typeTags MainUi.fieldTags].
    destruct (main_applyFilters_variables (MainUi.filter ui)) as (-> & -> & _).
    split; assumption.
  - split; assumption.
  - destruct b; split; assumption.
  - split; assumption.
Qed.

(** X27.  In the base revision, where both kinds of tags toggle on their
    own [active] class, every type tag and every field tag carries the class
    exactly when its label is selected, whatever the user does after the
    page is set up. *)
Theorem X27_main_tags_always_reflect_the_selection
    (data : Data) (actions : list MainUi.Action) :
  MainUi.tagsInSync (MainUi.run (MainUi.initial data) actions).
Proof.
  unfold MainUi.run.
  assert (H0 : MainUi.tagsInSync (MainUi.initial data)) by (split; apply fresh_inSync).
  revert H0. generalize (MainUi.initial data).
  induction actions as [|a actions IH]; intros ui H; [exact H |].
  cbn [foldl]. apply IH, main_tagsInSync_step, H.
Qed.

(** X28.  In the base revision a hover leaves no trace after the mouse-out:
    the node opacities are again those the filters prescribe, every link is
    without highlight at stroke opacity 0.6, and the filters, the tags and
    the detail panel are as before the hover. *)
Theorem X28_main_hover_then_mouse_out (d : Node.t) (ui : MainUi.Ui) :
  let ui' := MainUi.handleNodeMouseOut d (MainUi.handleNodeHover d ui) in
  MainUi.filter ui' = Main.applyFilters (MainUi.filter ui)
  ∧ MainUi.linkElements ui'
    = map (fun l => {| MainUi.link := MainUi.link l; MainUi.highlighted := false;
                       MainUi.strokeOpacity := Some (6 # 10)%Q |})
      <$> MainUi.linkElements ui
  ∧ MainUi.typeTags ui' = MainUi.typeTags ui
  ∧ MainUi.fieldTags ui' = MainUi.fieldTags ui
  ∧ MainUi.panelActive ui' = MainUi.panelActive ui
  ∧ MainUi.panelContent ui' = MainUi.panelContent ui.
Proof.
  cbv zeta. destruct ui as [[T F Q els] ls tt ft si pa pc].
  cbn [MainUi.handleNodeMouseOut MainUi.handleNodeHover MainUi.filter
       MainUi.linkElements MainUi.typeTags MainUi.fieldTags MainUi.panelActive
       MainUi.panelContent Main.selectedTypes Main.selectedFields Main.searchQuery
       Main.nodeElements].
  split; [| split; [| repeat split]].
  - destruct els as [els|]; [| reflexivity].
    cbn [fmap option_fmap option_map Main.applyFilters Main.nodeElements
         Main.selectedTypes Main.selectedFields Main.searchQuery].
    do 2 f_equal. rewrite map_map. apply map_ext. intros e. reflexivity.
  - destruct ls as [ls|]; [| reflexivity].
    cbn [fmap option_fmap option_map]. f_equal. rewrite map_map.
    apply map_ext. intros l. reflexivity.
Qed.

Lemma main_filterOpacity_unrestricted (st : Main.State) (d : Node.t) :
  Main.selectedTypes st = ∅ → Main.selectedFields st = ∅ → Main.searchQuery st = "" →
  Main.filterOpacity st d = 1%Q.
Proof.
  intros Ht Hf Hq. unfold Main.filterOpacity. rewrite Ht, Hf, Hq, size_empty.
  reflexivity.
Qed.

(** X29.  In the base revision [resetFilters] empties the selected types,
    the selected fields and the search text, clears the search box and the
    [active] class of every tag, and leaves every drawn node at opacity 1,
    whatever the state was. *)
Theorem X29_main_reset_restores_full_visibility (ui : MainUi.Ui) :
  let ui' := MainUi.resetFilters ui in
  Main.selectedTypes (MainUi.filter ui') = ∅
  ∧ Main.selectedFields (MainUi.filter ui') = ∅
  ∧ Main.searchQuery (MainUi.filter ui') = ""
  ∧ MainUi.searchInput ui' = ""
  ∧ Forall (fun tag => tag.2 = false) (MainUi.typeTags ui')
  ∧ Forall (fun tag => tag.2 = false) (MainUi.fieldTags ui')
  ∧ Main.nodeElements (MainUi.filter ui')
    = map (fun e => {| Main.datum := Main.datum e; Main.opacity := Some 1%Q |})
      <$> Main.nodeElements (MainUi.filter ui).
Proof.
  cbv zeta. unfold MainUi.resetFilters.
  cbn [MainUi.filter MainUi.typeTags MainUi.fieldTags MainUi.searchInput].
  destruct (main_applyFilters_variables
              (MainUi.withVariables (MainUi.filter ui) ∅ ∅ "")) as (-> & -> & ->).
  split; [reflexivity |]. split; [reflexivity |]. split; [reflexivity |].
  split; [reflexivity |]. split; [| split].
  - apply Forall_forall. intros tag Htag.
    apply list_elem_of_fmap in Htag as (tag0 & -> & _). reflexivity.
  - apply Forall_forall. intros tag Htag.
    apply list_elem_of_fmap in Htag as (tag0 & -> & _). reflexivity.
  - unfold Main.applyFilters, MainUi.withVariables. cbn [Main.nodeElements].
    destruct (Main.nodeElements (MainUi.filter ui)) as [els|]; [| reflexivity].
    cbn [Main.nodeElements fmap option_fmap option_map]. apply (f_equal Some).
    apply map_ext. intros e.
    rewrite main_filterOpacity_unrestricted by reflexivity. reflexivity.
Qed.

(** X30.  The two revisions keep the same nodes fully visible whenever no
    field is selected or the search box is empty: their filters differ only
    when a field restriction and a search text are active together. *)
Theorem X30_revisions_agree_without_field_and_search_together
    (st : Main.State) (st' : Rev0.State) (d : Node.t) :
  Rev0.selectedTypes st' = Main.selectedTypes st →
  Rev0.selectedFields st' = Main.selectedFields st →
  Rev0.searchQuery st' = Main.searchQuery st →
  Main.selectedFields st = ∅ ∨ Main.searchQuery st = "" →
  (Main.filterOpacity st d = 1%Q ↔ Rev0.filterOpacity st' d = 1%Q).
Proof.
  intros Ht Hf Hq Hor.
  destruct (main_filterOpacity_follows_chain st d) as [Hdim Hvis].
  destruct (rev0_filterOpacity_visible_iff st' d) as [_ Hrev].
  rewrite Hrev, Ht, Hf, Hq. clear Hrev.
  assert (Hmain : Main.filterOpacity st d = 1%Q
                  ↔ ¬ typeExcluded (Main.selectedTypes st) d
                    ∧ ¬ fieldsExcluded (Main.selectedFields st) d
                    ∧ ¬ searchExcluded (Main.searchQuery st) d).
  { rewrite <- chain_none. split; [| exact Hvis].
    intros H1 Hc. rewrite (Hdim Hc) in H1. discriminate H1. }
  rewrite Hmain. unfold fieldsExcluded, searchExcluded.
  destruct (decide (Main.selectedFields st = ∅)) as [He | He].
  - rewrite He. split.
    + intros (H1 & _ & H3). split; [exact H1 |]. right. auto.
    + intros (H1 & [[H _] | [_ H3]]); [contradiction |].
      split; [exact H1 |]. split; [| exact H3]. intros [H _]. apply H. reflexivity.
  - destruct Hor as [Hor | Hor]; [contradiction |]. rewrite Hor. split.
    + intros (H1 & H2 & _). split; [exact H1 |]. left. auto.
    + intros (H1 & [[_ H2] | [H _]]); [| contradiction].
      split; [exact H1 |]. split; [exact H2 |]. intros [H _]. apply H. reflexivity.
Qed.

Lemma X30_witness :
  let data := Main.normalizeData threeNodes in
  let c := Main.nodeOfRow (mkRow "C" "Music" "dance" "") in
  Main.filterOpacity (mainState {[ "Music" ]} ∅ "c" (nodes data)) c = 1%Q
  ↔ Rev0.filterOpacity (rev0State {[ "Music" ]} ∅ "c" (Rev0.normalizeData threeNodes)) c
    = 1%Q.
Proof.
  cbv zeta. apply X30_revisions_agree_without_field_and_search_together.
  - reflexivity.
  - reflexivity.
  - reflexivity.
  - left. reflexivity.
Defined.
